(** * Arkanoid: a shallow embedding of the physics and game-state engine

    The repository holds several variants of one game.  This development
    embeds

    - [arkanoid_full.c] (first program of the file: the SDL variant with
      level files, collectibles, high score and leaderboard) in [Module Full];
    - the modular SDL variant (the source file whose engine is
      [updateEngine]) in [Module Modular];
    - [arkanoid.c] (the Win32 variant, [update_ball]) in [Module Win32].

    Conventions of the embedding.

    - A C [float] or [double] is a real number ([R]): arithmetic is the exact
      arithmetic of the reals, [fabsf] is [Rabs], [fminf] is [Rmin], [sinf]
      and [cosf] are [sin] and [cos], [M_PI] is [PI].  Rounding, infinities
      and NaN are outside the model.
    - A C [int] is an integer ([Z]); the arithmetic on the counters of the
      game state is brought back to 32 bits by [wrap32].  [/] and [%] are
      [Z.quot] and [Z.rem].
    - An [int] that the code only uses as a truth value (it only ever stores
      0, 1 or a negation in it) is a [bool].
    - A C array is a list, read with [!!] and written with [<[i:=x]>]; a
      counted [for] loop is a [foldl] over [seq].
    - [rand()] reads a stream of integers carried in the state; files are
      fields of a [Disk] record.
    - Audio, rendering, stars and particles never feed back into the engine
      and are not part of the state. *)

From Stdlib Require Import Reals Lra ZArith Lia Bool String Ascii.
From stdpp Require Import base list sorting.

Open Scope Z_scope.

(** ** Machine integers *)

Definition INT_MIN : Z := -2147483648.
Definition INT_MAX : Z := 2147483647.

(** Two's-complement reduction of an integer to the range of [int]. *)
Definition wrap32 (z : Z) : Z := (z + 2147483648) mod 4294967296 - 2147483648.

Definition in_int (z : Z) : Prop := INT_MIN <= z <= INT_MAX.

(** ** Comparisons of floats as truth values *)

Open Scope R_scope.

Definition Rleb (a b : R) : bool := if Rle_dec a b then true else false.
Definition Rltb (a b : R) : bool := if Rlt_dec a b then true else false.
Definition Reqb (a b : R) : bool := if Req_dec_T a b then true else false.

(** * Code shared by the two SDL variants

    The types [RectF], [Paddle], [Ball] and [GameState], the overlap test and
    the motion, wall, paddle and brick-resolution blocks of the engine are
    the same text in [arkanoid_full.c] and in the modular variant, up to the
    names ([rect]/[r], [is_held]/[held], [bricks_remaining]/[bricksRemaining],
    [WINDOW_WIDTH]/[WIN_W], ...).  They are embedded once, under the names of
    [arkanoid_full.c]. *)

Definition WINDOW_WIDTH : Z := 960.
Definition WINDOW_HEIGHT : Z := 640.
Definition PADDLE_WIDTH : Z := 140.
Definition PADDLE_HEIGHT : Z := 18.
Definition PADDLE_Y_OFFSET : Z := 64.
Definition PADDLE_SPEED : R := 800.
Definition BALL_SIZE : Z := 14.
Definition BALL_SPEED_INITIAL : R := 420.
Definition BRICK_COLUMNS : nat := 12%nat.
Definition BRICK_ROWS : nat := 7%nat.
Definition BRICK_WIDTH : Z := WINDOW_WIDTH ÷ Z.of_nat BRICK_COLUMNS.
Definition BRICK_HEIGHT : Z := 28.
Definition BRICK_PADDING : Z := 4.

Record RectF : Type := mkRectF { rx : R; ry : R; rw : R; rh : R }.

Record Paddle : Type := mkPaddle { paddle_rect : RectF; velocity_x : R }.

Record Ball : Type := mkBall
  { ball_rect : RectF; vx : R; vy : R; speed : R; is_held : bool }.

Record GameState : Type := mkGameState
  { score : Z; lives : Z; level : Z; bricks_remaining : Z;
    is_paused : bool; is_running : bool; show_menu : bool }.

(** ** Field updates *)

Definition set_rx (x : R) (r : RectF) : RectF := mkRectF x (ry r) (rw r) (rh r).
Definition set_ry (y : R) (r : RectF) : RectF := mkRectF (rx r) y (rw r) (rh r).
Definition set_rw (v : R) (r : RectF) : RectF := mkRectF (rx r) (ry r) v (rh r).

Definition set_paddle_rect (r : RectF) (p : Paddle) : Paddle := mkPaddle r (velocity_x p).

Definition set_ball_rect (r : RectF) (b : Ball) : Ball :=
  mkBall r (vx b) (vy b) (speed b) (is_held b).
Definition set_vx (v : R) (b : Ball) : Ball :=
  mkBall (ball_rect b) v (vy b) (speed b) (is_held b).
Definition set_vy (v : R) (b : Ball) : Ball :=
  mkBall (ball_rect b) (vx b) v (speed b) (is_held b).
Definition set_speed (v : R) (b : Ball) : Ball :=
  mkBall (ball_rect b) (vx b) (vy b) v (is_held b).

Definition set_score (z : Z) (g : GameState) : GameState :=
  mkGameState z (lives g) (level g) (bricks_remaining g) (is_paused g) (is_running g) (show_menu g).
Definition set_lives (z : Z) (g : GameState) : GameState :=
  mkGameState (score g) z (level g) (bricks_remaining g) (is_paused g) (is_running g) (show_menu g).
Definition set_level (z : Z) (g : GameState) : GameState :=
  mkGameState (score g) (lives g) z (bricks_remaining g) (is_paused g) (is_running g) (show_menu g).
Definition set_bricks_remaining (z : Z) (g : GameState) : GameState :=
  mkGameState (score g) (lives g) (level g) z (is_paused g) (is_running g) (show_menu g).

(** [show_menu = 1; is_running = 0;]: the end of a session. *)
Definition end_session (g : GameState) : GameState :=
  mkGameState (score g) (lives g) (level g) (bricks_remaining g) (is_paused g) false true.

(** ** Geometry *)

Definition brick_index (row col : nat) : nat := (row * BRICK_COLUMNS + col)%nat.

(** [rect_overlap] ([rectOverlap] in the modular variant). *)
Definition rect_overlap (a b : RectF) : bool :=
  negb (Rleb (rx a + rw a) (rx b) || Rleb (rx b + rw b) (rx a) ||
        Rleb (ry a + rh a) (ry b) || Rleb (ry b + rh b) (ry a)).

(** [clamp_paddle_position] ([clampPaddle]), on the global [paddle]. *)
Definition clamp_paddle (p : Paddle) : Paddle :=
  let p1 := if Rltb (rx (paddle_rect p)) 0
            then set_paddle_rect (set_rx 0 (paddle_rect p)) p else p in
  if Rltb (IZR WINDOW_WIDTH) (rx (paddle_rect p1) + rw (paddle_rect p1))
  then set_paddle_rect
         (set_rx (IZR WINDOW_WIDTH - rw (paddle_rect p1)) (paddle_rect p1)) p1
  else p1.

(** The rectangle the level loops give to the brick of a cell. *)
Definition cell_rect (r c : nat) : RectF :=
  mkRectF (IZR (Z.of_nat c * BRICK_WIDTH + BRICK_PADDING ÷ 2))
          (IZR (80 + Z.of_nat r * (BRICK_HEIGHT + BRICK_PADDING)))
          (IZR (BRICK_WIDTH - BRICK_PADDING))
          (IZR (BRICK_HEIGHT - BRICK_PADDING)).

(** [(level <= 1) || ((r + c + level) % (1 + level / 2) != 0)]: the cells the
    procedural layout of a level fills. *)
Definition cell_filled (r c : nat) (lvl : Z) : bool :=
  ((lvl <=? 1) ||
   negb (Z.rem (wrap32 (Z.of_nat r + Z.of_nat c + lvl)) (1 + lvl ÷ 2) =? 0))%Z.

(** ** The blocks of the engine step that the variants share *)

(** The ball on the paddle: the position both the serve and the level reset
    give it ([gap] is 2). *)
Definition ball_on_paddle (p : Paddle) (b : Ball) : RectF :=
  mkRectF (rx (paddle_rect p) + (rw (paddle_rect p) - rw (ball_rect b)) / 2)
          (ry (paddle_rect p) - rh (ball_rect b) - 2)
          (rw (ball_rect b)) (rh (ball_rect b)).

(** Ball motion: integrate when released, stick to the paddle when held. *)
Definition move_ball (dt : R) (p : Paddle) (b : Ball) : Ball :=
  if negb (is_held b)
  then set_ball_rect
         (mkRectF (rx (ball_rect b) + vx b * speed b * dt)
                  (ry (ball_rect b) + vy b * speed b * dt)
                  (rw (ball_rect b)) (rh (ball_rect b))) b
  else set_ball_rect (ball_on_paddle p b) b.

(** Wall collision: three independent tests, in the order left, right, top. *)
Definition wall_collision (b : Ball) : Ball :=
  if negb (is_held b) then
    let b1 := if Rleb (rx (ball_rect b)) 0
              then set_vx (Rabs (vx b)) (set_ball_rect (set_rx 0 (ball_rect b)) b)
              else b in
    let b2 := if Rleb (IZR WINDOW_WIDTH) (rx (ball_rect b1) + rw (ball_rect b1))
              then set_vx (- Rabs (vx b1))
                     (set_ball_rect
                        (set_rx (IZR WINDOW_WIDTH - rw (ball_rect b1)) (ball_rect b1)) b1)
              else b1 in
    if Rleb (ry (ball_rect b2)) 0
    then set_vy (Rabs (vy b2)) (set_ball_rect (set_ry 0 (ball_rect b2)) b2)
    else b2
  else b.

(** [impact], clamped to [-1, 1]. *)
Definition impact_of (p : Paddle) (b : Ball) : R :=
  let impact := ((rx (ball_rect b) + rw (ball_rect b) / 2)
                 - (rx (paddle_rect p) + rw (paddle_rect p) / 2))
                / (rw (paddle_rect p) / 2) in
  let impact := if Rltb impact (-1) then -1 else impact in
  if Rltb 1 impact then 1 else impact.

(** [angle = impact * (75.0f * (M_PI / 180.0f))]. *)
Definition bounce_angle (p : Paddle) (b : Ball) : R :=
  impact_of p b * (75 * (PI / 180)).

(** Paddle collision.  [growth] is [BALL_SPEED_GROWTH] ([BALL_SPEED_INC] in
    the modular variant). *)
Definition paddle_collision (growth : R) (p : Paddle) (b : Ball) : Ball :=
  if negb (is_held b) && Rltb 0 (vy b) && rect_overlap (ball_rect b) (paddle_rect p)
  then
    let angle := bounce_angle p b in
    mkBall (set_ry (ry (paddle_rect p) - rh (ball_rect b) - 1) (ball_rect b))
           (sin angle) (- cos angle) (speed b * growth) (is_held b)
  else b.

(** The four penetration depths of the ball [r] in the brick [br]. *)
Definition overlap_left (r br : RectF) : R := (rx r + rw r) - rx br.
Definition overlap_right (r br : RectF) : R := (rx br + rw br) - rx r.
Definition overlap_top (r br : RectF) : R := (ry r + rh r) - ry br.
Definition overlap_bottom (r br : RectF) : R := (ry br + rh br) - ry r.

(** [m = ol; m = fminf(m, or); m = fminf(m, ot); m = fminf(m, ob);]. *)
Definition min_overlap (r br : RectF) : R :=
  Rmin (Rmin (Rmin (overlap_left r br) (overlap_right r br)) (overlap_top r br))
       (overlap_bottom r br).

(** The reflection of the ball off the brick rectangle [br]: the chain
    [if (m == ol) ... else if (m == or) ... else if (m == ot) ... else ...]. *)
Definition resolve_brick (b : Ball) (br : RectF) : Ball :=
  let r := ball_rect b in
  let ol := overlap_left r br in
  let or' := overlap_right r br in
  let ot := overlap_top r br in
  let ob := overlap_bottom r br in
  let m := min_overlap r br in
  if Reqb m ol then set_vx (- Rabs (vx b)) (set_ball_rect (set_rx (rx r - ol) r) b)
  else if Reqb m or' then set_vx (Rabs (vx b)) (set_ball_rect (set_rx (rx r + or') r) b)
  else if Reqb m ot then set_vy (- Rabs (vy b)) (set_ball_rect (set_ry (ry r - ot) r) b)
  else set_vy (Rabs (vy b)) (set_ball_rect (set_ry (ry r + ob) r) b).






(** The ball after a lost life: [is_held = 1; speed = BALL_SPEED_INITIAL;
    vx = 0; vy = -1]. *)
Definition rearm_ball (b : Ball) : Ball :=
  mkBall (ball_rect b) 0 (-1) BALL_SPEED_INITIAL true.

(** [paddle.rect.x = (WINDOW_WIDTH - paddle.rect.w) / 2.0f]. *)
Definition center_paddle (p : Paddle) : Paddle :=
  set_paddle_rect (set_rx ((IZR WINDOW_WIDTH - rw (paddle_rect p)) / 2) (paddle_rect p)) p.

(** The paddle and the ball as the tail of the level reset leaves them. *)
Definition reset_paddle (p : Paddle) : Paddle :=
  set_paddle_rect
    (mkRectF ((IZR WINDOW_WIDTH - rw (paddle_rect p)) / 2)
             (IZR (WINDOW_HEIGHT - PADDLE_Y_OFFSET))
             (rw (paddle_rect p)) (rh (paddle_rect p))) p.

Definition reset_ball (p : Paddle) (b : Ball) : Ball :=
  mkBall (ball_on_paddle p b) 0 (-1) BALL_SPEED_INITIAL true.

(** The keyboard move of the main loop:
    [vx = 0; if (left) vx = -PADDLE_SPEED; if (right) vx = PADDLE_SPEED;
     paddle.rect.x += vx * dt; clamp_paddle_position();]. *)
Definition keyboard_move (left right : bool) (dt : R) (p : Paddle) : Paddle :=
  let v := 0 in
  let v := if left then - PADDLE_SPEED else v in
  let v := if right then PADDLE_SPEED else v in
  clamp_paddle (set_paddle_rect (set_rx (rx (paddle_rect p) + v * dt) (paddle_rect p)) p).

(** The pointer move of [handle_input]:
    [paddle.rect.x = mx - paddle.rect.w / 2; clamp_paddle_position();]. *)
Definition pointer_move (mx : Z) (p : Paddle) : Paddle :=
  clamp_paddle (set_paddle_rect (set_rx (IZR mx - rw (paddle_rect p) / 2) (paddle_rect p)) p).

(** * [arkanoid_full.c] *)

Module Full.

Definition BALL_SPEED_GROWTH : R := 1.
Definition MAX_LEVELS : Z := 10.
Definition STARTING_LIVES : Z := 3.
Definition MAX_COLLECTIBLES : nat := 8%nat.
Definition LEADERBOARD_N : nat := 5%nat.

Record Brick : Type := mkBrick
  { brick_rect : RectF; is_alive : bool; color_index : Z; special : bool }.

Record Collectible : Type := mkCollectible
  { col_rect : RectF; col_vx : R; col_vy : R; col_alive : bool; col_type : Z }.

(** The files the program reads and writes.  [level_txt n] is the text of
    [level<n>.txt] when the file exists, one string for each line that
    [fgets] returns; [writable] tells whether [fopen(..., "wb")] succeeds. *)
Record Disk : Type := mkDisk
  { highscore_dat : option Z;
    leaderboard_dat : option (list Z);
    level_txt : Z -> option (list string);
    writable : bool }.

(** The globals of the program.  [rand_stream] holds the values that the
    coming calls of [rand()] return; [record_calls] lists the arguments of the
    calls of [add_to_leaderboard] made so far, the latest first. *)
Record World : Type := mkWorld
  { paddle : Paddle;
    ball : Ball;
    bricks : list Brick;
    game_state : GameState;
    collectibles : list Collectible;
    high_score : Z;
    leaderboard : list Z;
    rand_stream : nat -> Z;
    disk : Disk;
    record_calls : list Z }.

Definition set_paddle (p : Paddle) (w : World) : World :=
  mkWorld p (ball w) (bricks w) (game_state w) (collectibles w) (high_score w)
          (leaderboard w) (rand_stream w) (disk w) (record_calls w).
Definition set_ball (b : Ball) (w : World) : World :=
  mkWorld (paddle w) b (bricks w) (game_state w) (collectibles w) (high_score w)
          (leaderboard w) (rand_stream w) (disk w) (record_calls w).
Definition set_bricks (bs : list Brick) (w : World) : World :=
  mkWorld (paddle w) (ball w) bs (game_state w) (collectibles w) (high_score w)
          (leaderboard w) (rand_stream w) (disk w) (record_calls w).
Definition set_game_state (g : GameState) (w : World) : World :=
  mkWorld (paddle w) (ball w) (bricks w) g (collectibles w) (high_score w)
          (leaderboard w) (rand_stream w) (disk w) (record_calls w).
Definition set_collectibles (cs : list Collectible) (w : World) : World :=
  mkWorld (paddle w) (ball w) (bricks w) (game_state w) cs (high_score w)
          (leaderboard w) (rand_stream w) (disk w) (record_calls w).
Definition set_high_score (z : Z) (w : World) : World :=
  mkWorld (paddle w) (ball w) (bricks w) (game_state w) (collectibles w) z
          (leaderboard w) (rand_stream w) (disk w) (record_calls w).
Definition set_leaderboard (l : list Z) (w : World) : World :=
  mkWorld (paddle w) (ball w) (bricks w) (game_state w) (collectibles w) (high_score w)
          l (rand_stream w) (disk w) (record_calls w).
Definition set_rand_stream (s : nat -> Z) (w : World) : World :=
  mkWorld (paddle w) (ball w) (bricks w) (game_state w) (collectibles w) (high_score w)
          (leaderboard w) s (disk w) (record_calls w).
Definition set_disk (d : Disk) (w : World) : World :=
  mkWorld (paddle w) (ball w) (bricks w) (game_state w) (collectibles w) (high_score w)
          (leaderboard w) (rand_stream w) d (record_calls w).
Definition set_record_calls (l : list Z) (w : World) : World :=
  mkWorld (paddle w) (ball w) (bricks w) (game_state w) (collectibles w) (high_score w)
          (leaderboard w) (rand_stream w) (disk w) l.

Definition set_col_alive (v : bool) (c : Collectible) : Collectible :=
  mkCollectible (col_rect c) (col_vx c) (col_vy c) v (col_type c).

(** [rand()]: the head of the stream, and the stream moves on. *)
Definition rand (w : World) : Z * World :=
  (rand_stream w 0%nat, set_rand_stream (fun n => rand_stream w (S n)) w).

Definition clamp_paddle_position (w : World) : World :=
  set_paddle (clamp_paddle (paddle w)) w.

(** ** Persistence *)

Definition save_highscore (w : World) : World :=
  if writable (disk w)
  then set_disk (mkDisk (Some (high_score w)) (leaderboard_dat (disk w))
                        (level_txt (disk w)) (writable (disk w))) w
  else w.

Definition save_leaderboard (w : World) : World :=
  if writable (disk w)
  then set_disk (mkDisk (highscore_dat (disk w)) (Some (leaderboard w))
                        (level_txt (disk w)) (writable (disk w))) w
  else w.

(** The body of the inner loop of [add_to_leaderboard]:
    [if (tmp[j] > tmp[i]) { t = tmp[i]; tmp[i] = tmp[j]; tmp[j] = t; }]. *)
Definition swap_if_greater (i : nat) (tmp : list Z) (j : nat) : list Z :=
  match tmp !! i, tmp !! j with
  | Some ti, Some tj => if (tj >? ti)%Z then <[j := ti]> (<[i := tj]> tmp) else tmp
  | _, _ => tmp
  end.

(** [for (j = i+1; j < LEADERBOARD_N+1; j++)]. *)
Definition sort_inner (n : nat) (tmp : list Z) (i : nat) : list Z :=
  foldl (swap_if_greater i) tmp (seq (S i) (n - S i)).

(** [for (i = 0; i < LEADERBOARD_N+1; i++)]. *)
Definition sort_desc (n : nat) (tmp : list Z) : list Z :=
  foldl (sort_inner n) tmp (seq 0 n).

Definition add_to_leaderboard (sc : Z) (w : World) : World :=
  let w := set_record_calls (sc :: record_calls w) w in
  if (sc <=? 0)%Z then w
  else
    let tmp := take LEADERBOARD_N (leaderboard w) ++ [sc] in
    let tmp := sort_desc (S LEADERBOARD_N) tmp in
    save_leaderboard (set_leaderboard (take LEADERBOARD_N tmp) w).

(** [if (score > high_score) { high_score = score; save_highscore(); }
     add_to_leaderboard(score); show_menu = 1; is_running = 0;]:
    the text both ends of a session share. *)
Definition finish_session (w : World) : World :=
  let sc := score (game_state w) in
  let w := if (sc >? high_score w)%Z then save_highscore (set_high_score sc w) else w in
  let w := add_to_leaderboard sc w in
  set_game_state (end_session (game_state w)) w.

(** ** Levels *)

(** [(r + c + level) % 10]. *)
Definition cell_color (r c : nat) (lvl : Z) : Z :=
  Z.rem (wrap32 (Z.of_nat r + Z.of_nat c + lvl)) 10.

(** The brick that [load_level_from_file] writes for the cell [(r, c)], from
    the line [fgets] gave for the row ([None] once the file has ended). *)
Definition file_cell (line : option string) (r c : nat) (lvl : Z) : Brick :=
  match line with
  | None => mkBrick (cell_rect r c) false (cell_color r c lvl) false
  | Some ln =>
      let ch := match String.get c ln with Some ch => ch | None => "."%char end in
      if Ascii.eqb ch "#" then mkBrick (cell_rect r c) true (cell_color r c lvl) false
      else if Ascii.eqb ch "A" then mkBrick (cell_rect r c) true (cell_color r c lvl) true
      else mkBrick (cell_rect r c) false (cell_color r c lvl) false
  end.

(** [for (i = 0; i < BRICK_ROWS*BRICK_COLUMNS; i++) if (bricks[i].is_alive) alive++]. *)
Fixpoint count_alive (bs : list Brick) : Z :=
  match bs with
  | [] => 0%Z
  | b :: bs' => ((if is_alive b then 1 else 0) + count_alive bs')%Z
  end.

(** [load_level_from_file]: the returned [int] and the globals it leaves. *)
Definition load_level_from_file (lvl : Z) (w : World) : bool * World :=
  match level_txt (disk w) lvl with
  | None => (false, w)
  | Some lines =>
      let bs :=
        foldl (fun bs r =>
                 foldl (fun bs c => <[brick_index r c := file_cell (lines !! r) r c lvl]> bs)
                       bs (seq 0 BRICK_COLUMNS))
              (bricks w) (seq 0 BRICK_ROWS) in
      let alive := count_alive (take (BRICK_ROWS * BRICK_COLUMNS) bs) in
      (true, set_game_state (set_bricks_remaining alive (game_state w)) (set_bricks bs w))
  end.

(** The body of the two loops of the procedural branch of [reset_level];
    the state is the globals and the local [alive_count]. *)
Definition fallback_cell (lvl : Z) (r c : nat) (st : World * Z) : World * Z :=
  let '(w, alive_count) := st in
  if cell_filled r c lvl
  then
    let '(v, w) := rand w in
    (set_bricks (<[brick_index r c :=
                     mkBrick (cell_rect r c) true (cell_color r c lvl) (Z.rem v 18 =? 0)%Z]>
                   (bricks w)) w,
     (alive_count + 1)%Z)
  else
    (set_bricks (<[brick_index r c :=
                     mkBrick (cell_rect r c) false (cell_color r c lvl) false]>
                   (bricks w)) w,
     alive_count).

Definition fallback_layout (lvl : Z) (w : World) : World :=
  let '(w, alive_count) :=
    foldl (fun st r => foldl (fun st c => fallback_cell lvl r c st) st (seq 0 BRICK_COLUMNS))
          (w, 0%Z) (seq 0 BRICK_ROWS) in
  set_game_state (set_bricks_remaining alive_count (game_state w)) w.

Definition reset_level (lvl : Z) (w : World) : World :=
  let w := match load_level_from_file lvl w with
           | (true, w') => w'
           | (false, w') => fallback_layout lvl w'
           end in
  let w := set_paddle (reset_paddle (paddle w)) w in
  let w := set_ball (reset_ball (paddle w) (ball w)) w in
  set_collectibles (map (set_col_alive false) (collectibles w)) w.

Definition reset_game (w : World) : World :=
  let w := set_game_state (mkGameState 0 STARTING_LIVES 1 (bricks_remaining (game_state w))
                                       false true true) w in
  reset_level (level (game_state w)) w.

(** ** Collectibles *)

(** The body of the loop of [update_collectibles] for the slot [i]. *)
Definition update_collectible (dt : R) (w : World) (i : nat) : World :=
  match collectibles w !! i with
  | None => w
  | Some c =>
      if negb (col_alive c) then w
      else
        let c := mkCollectible
                   (mkRectF (rx (col_rect c) + col_vx c * dt) (ry (col_rect c) + col_vy c * dt)
                            (rw (col_rect c)) (rh (col_rect c)))
                   (col_vx c) (col_vy c) (col_alive c) (col_type c) in
        let c := if Rltb (IZR WINDOW_HEIGHT) (ry (col_rect c)) then set_col_alive false c else c in
        let w := set_collectibles (<[i := c]> (collectibles w)) w in
        let pr := col_rect c in
        if rect_overlap pr (paddle_rect (paddle w))
        then
          let w :=
            if (col_type c =? 0)%Z
            then
              let wd := rw (paddle_rect (paddle w)) + 40 in
              let wd := if Rltb (IZR (WINDOW_WIDTH ÷ 2)) wd then IZR (WINDOW_WIDTH ÷ 2) else wd in
              clamp_paddle_position
                (set_paddle (set_paddle_rect (set_rw wd (paddle_rect (paddle w))) (paddle w)) w)
            else w in
          set_collectibles (<[i := set_col_alive false c]> (collectibles w)) w
        else w
  end.

Definition update_collectibles (dt : R) (w : World) : World :=
  foldl (update_collectible dt) w (seq 0 MAX_COLLECTIBLES).

(** The first free slot takes the new collectible:
    [for (ci = 0; ci < MAX_COLLECTIBLES; ci++) if (!collectibles[ci].alive) { ...; break; }]. *)
Fixpoint spawn_collectible (cx cy : R) (cs : list Collectible) : list Collectible :=
  match cs with
  | [] => []
  | c :: cs' =>
      if negb (col_alive c)
      then mkCollectible (mkRectF (cx - 10) (cy - 10) 20 20) 0 60 true 0 :: cs'
      else c :: spawn_collectible cx cy cs'
  end.

(** ** The engine step *)

(** [add_score_for_brick]. *)
Definition add_score_for_brick (row col : nat) (w : World) : World :=
  set_game_state (set_score (wrap32 (score (game_state w) + 10)) (game_state w)) w.

(** The body of [if (rect_overlap(&ball.rect, &br))] for the brick [b] of the
    cell [(r, c)]; it ends in [goto after_brick]. *)
Definition brick_hit (r c : nat) (b : Brick) (w : World) : World :=
  let w := set_ball (resolve_brick (ball w) (brick_rect b)) w in
  let b := mkBrick (brick_rect b) false (color_index b) (special b) in
  let w := set_bricks (<[brick_index r c := b]> (bricks w)) w in
  let w := set_game_state
             (set_bricks_remaining (wrap32 (bricks_remaining (game_state w) - 1))
                                   (game_state w)) w in
  let w :=
    if special b
    then
      let cx := rx (brick_rect b) + rw (brick_rect b) / 2 in
      let cy := ry (brick_rect b) + rh (brick_rect b) / 2 in
      let w := set_collectibles (spawn_collectible cx cy (collectibles w)) w in
      set_bricks (<[brick_index r c :=
                      mkBrick (brick_rect b) (is_alive b) (color_index b) false]>
                    (bricks w)) w
    else w in
  let w := add_score_for_brick r c w in
  set_ball (set_speed (speed (ball w) * (1015 / 1000)) (ball w)) w.

(** The scan of a row, from the columns [cs] on: [Some] is the state at
    [after_brick] when a brick was hit, [None] when the columns run out. *)
Fixpoint scan_cols (r : nat) (cs : list nat) (w : World) : option World :=
  match cs with
  | [] => None
  | c :: cs' =>
      match bricks w !! brick_index r c with
      | Some b =>
          if negb (is_alive b) then scan_cols r cs' w
          else if rect_overlap (ball_rect (ball w)) (brick_rect b)
               then Some (brick_hit r c b w)
               else scan_cols r cs' w
      | None => scan_cols r cs' w
      end
  end.

Fixpoint scan_rows (rs : list nat) (w : World) : option World :=
  match rs with
  | [] => None
  | r :: rs' =>
      match scan_cols r (seq 0 BRICK_COLUMNS) w with
      | Some w' => Some w'
      | None => scan_rows rs' w
      end
  end.

Definition brick_collision (w : World) : World :=
  if negb (is_held (ball w))
  then match scan_rows (seq 0 BRICK_ROWS) w with
       | Some w' => w'
       | None => w
       end
  else w.

(** [if (!ball.is_held && ball.rect.y > WINDOW_HEIGHT) ...]. *)
Definition fall_check (w : World) : World :=
  if negb (is_held (ball w)) && Rltb (IZR WINDOW_HEIGHT) (ry (ball_rect (ball w)))
  then
    let w := set_game_state (set_lives (wrap32 (lives (game_state w) - 1)) (game_state w)) w in
    if (lives (game_state w) <=? 0)%Z
    then finish_session w
    else set_paddle (center_paddle (paddle w)) (set_ball (rearm_ball (ball w)) w)
  else w.

(** [if (game_state.bricks_remaining <= 0) ...]. *)
Definition level_check (w : World) : World :=
  if (bricks_remaining (game_state w) <=? 0)%Z
  then
    let w := set_game_state (set_level (wrap32 (level (game_state w) + 1)) (game_state w)) w in
    if (level (game_state w) >? MAX_LEVELS)%Z
    then finish_session w
    else reset_level (level (game_state w)) w
  else w.

(** The state when the scan of the bricks starts. *)
Definition before_bricks (dt : R) (w : World) : World :=
  let w := set_ball (move_ball dt (paddle w) (ball w)) w in
  let w := set_ball (wall_collision (ball w)) w in
  set_ball (paddle_collision BALL_SPEED_GROWTH (paddle w) (ball w)) w.

Definition update_engine (dt : R) (w : World) : World :=
  if negb (is_running (game_state w)) || is_paused (game_state w) || show_menu (game_state w)
  then w
  else
    let w := before_bricks dt w in
    let w := brick_collision w in
    let w := fall_check w in
    let w := level_check w in
    update_collectibles dt w.

(** ** Start-up and shutdown *)

(** [load_highscore]: a file that opens holds the [int] that
    [save_highscore] wrote. *)
Definition load_highscore (w : World) : World :=
  match highscore_dat (disk w) with
  | None => set_high_score 0 w
  | Some sc => set_high_score sc w
  end.

(** [for (i = from; i < LEADERBOARD_N; i++) leaderboard[i] = 0;]. *)
Definition zero_from (from : nat) (l : list Z) : list Z :=
  foldl (fun l i => <[i := 0%Z]> l) l (seq from (LEADERBOARD_N - from)).

(** [load_leaderboard]: [fread] fills the first [r] entries from the file,
    [r] being the number of [int]s the file holds, at most [LEADERBOARD_N];
    the entries from [r] on are set to 0. *)
Definition load_leaderboard (w : World) : World :=
  match leaderboard_dat (disk w) with
  | None => set_leaderboard (zero_from 0 (leaderboard w)) w
  | Some file =>
      let r := Nat.min (length file) LEADERBOARD_N in
      let l := foldl (fun l i => match file !! i with
                                 | Some v => <[i := v]> l
                                 | None => l
                                 end)
                     (leaderboard w) (seq 0 r) in
      let l := if (r <? LEADERBOARD_N)%nat then zero_from r l else l in
      set_leaderboard l w
  end.

(** The part of [initialize_all] that sets globals of the game, once SDL has
    started: the sizes of the paddle and of the ball, the high score and the
    leaderboard, and the collectibles.  [srand] and the calls of [rand()] by
    [spawn_stars] are not modelled: [rand_stream] holds the values that
    [rand()] returns after them. *)
Definition initialize_all (w : World) : World :=
  let w := set_paddle
             (mkPaddle (mkRectF (rx (paddle_rect (paddle w))) (ry (paddle_rect (paddle w)))
                                (IZR PADDLE_WIDTH) (IZR PADDLE_HEIGHT)) 0) w in
  let w := set_ball
             (set_ball_rect (mkRectF (rx (ball_rect (ball w))) (ry (ball_rect (ball w)))
                                     (IZR BALL_SIZE) (IZR BALL_SIZE)) (ball w)) w in
  let w := load_highscore w in
  let w := load_leaderboard w in
  set_collectibles (map (set_col_alive false) (collectibles w)) w.

(** [main] up to its loop: the sizes are set once more, then [reset_game]. *)
Definition main_start (w : World) : World :=
  let w := initialize_all w in
  let w := set_paddle
             (mkPaddle (mkRectF (rx (paddle_rect (paddle w))) (ry (paddle_rect (paddle w)))
                                (IZR PADDLE_WIDTH) (IZR PADDLE_HEIGHT)) 0) w in
  let w := set_ball
             (set_ball_rect (mkRectF (rx (ball_rect (ball w))) (ry (ball_rect (ball w)))
                                     (IZR BALL_SIZE) (IZR BALL_SIZE)) (ball w)) w in
  reset_game w.

(** [cleanup_all]: the part that touches the game, the last save of the
    high score. *)
Definition cleanup_all (w : World) : World :=
  if (score (game_state w) >? high_score w)%Z
  then save_highscore (set_high_score (score (game_state w)) w)
  else w.

(** ** Input *)

(** The keys [handle_input] tells apart, and the events it reads. *)
Inductive Keycode : Type := SDLK_ESCAPE | SDLK_SPACE | SDLK_r | SDLK_m | SDLK_other.

Inductive Event : Type :=
  | SDL_QUIT
  | SDL_KEYDOWN (k : Keycode)
  | SDL_MOUSEMOTION (mx : Z)
  | SDL_MOUSEBUTTONDOWN (mx my : Z)
  | SDL_other.

Definition set_is_paused (v : bool) (g : GameState) : GameState :=
  mkGameState (score g) (lives g) (level g) (bricks_remaining g) v (is_running g) (show_menu g).
Definition set_is_running (v : bool) (g : GameState) : GameState :=
  mkGameState (score g) (lives g) (level g) (bricks_remaining g) (is_paused g) v (show_menu g).
Definition set_show_menu (v : bool) (g : GameState) : GameState :=
  mkGameState (score g) (lives g) (level g) (bricks_remaining g) (is_paused g) (is_running g) v.

(** [show_menu = 0; is_running = 1; reset_level(game_state.level);]: what
    the space key and a click on the play button do on the menu. *)
Definition start_level (w : World) : World :=
  let w := set_game_state (set_is_running true (set_show_menu false (game_state w))) w in
  reset_level (level (game_state w)) w.

(** The serve of a held ball. *)
Definition serve (w : World) : World :=
  let '(v, w) := rand w in
  let ang := IZR (Z.rem v 120 - 60) * (PI / 180) in
  let vx0 := sin ang in
  let vy0 := - Rabs (cos ang) in
  let m := sqrt (vx0 * vx0 + vy0 * vy0) in
  set_ball (mkBall (ball_rect (ball w)) (vx0 / m) (vy0 / m) (speed (ball w)) false) w.

(** The conversion [(int)] of a float: towards zero. *)
Definition float_to_int (x : R) : Z :=
  if Rle_dec 0 x then Int_part x else (- Int_part (- x))%Z.

(** [handle_input].  [menu_play_rect] is the global that [render_scene]
    sets; the music key changes nothing of the game. *)
Definition handle_input (menu_play_rect : RectF) (ev : Event) (w : World) : World :=
  let g := game_state w in
  match ev with
  | SDL_QUIT => set_game_state (set_is_running false g) w
  | SDL_KEYDOWN SDLK_ESCAPE =>
      if show_menu g then set_game_state (set_is_running false g) w
      else set_game_state (set_show_menu true g) w
  | SDL_KEYDOWN SDLK_SPACE =>
      if show_menu g then start_level w
      else if is_paused g then set_game_state (set_is_paused false g) w
      else if is_held (ball w) then serve w
      else set_game_state (set_is_paused (negb (is_paused g)) g) w
  | SDL_KEYDOWN SDLK_r => reset_game w
  | SDL_KEYDOWN SDLK_m => w
  | SDL_KEYDOWN SDLK_other => w
  | SDL_MOUSEMOTION mx => set_paddle (pointer_move mx (paddle w)) w
  | SDL_MOUSEBUTTONDOWN mx my =>
      if show_menu g
      then
        if ((float_to_int (rx menu_play_rect) <=? mx) &&
            (mx <=? float_to_int (rx menu_play_rect + rw menu_play_rect)) &&
            (float_to_int (ry menu_play_rect) <=? my) &&
            (my <=? float_to_int (ry menu_play_rect + rh menu_play_rect)))%Z
        then start_level w
        else w
      else w
  | SDL_other => w
  end.

(** One turn of the loop of [main]: the step is capped at 0.05 s, the
    pending events are handled, the keyboard moves the paddle, the engine
    steps. *)
Definition frame (menu_play_rect : RectF) (events : list Event) (left right : bool)
    (delta_time : R) (w : World) : World :=
  let delta_time := if Rltb (5 / 100) delta_time then 5 / 100 else delta_time in
  let w := foldl (fun w ev => handle_input menu_play_rect ev w) w events in
  let w := set_paddle (keyboard_move left right delta_time (paddle w)) w in
  update_engine delta_time w.

End Full.

(** * The modular SDL variant ([updateEngine]) *)

Module Modular.

Definition BALL_SPEED_INC : R := 103 / 100.
Definition MAX_LEVELS : Z := 5.
Definition MAX_LIVES : Z := 3.

(** [Brick] of this variant: [r], [vx], [vy], [alive], [colorIdx]. *)
Record Brick : Type := mkBrick
  { r : RectF; brick_vx : R; brick_vy : R; alive : bool; colorIdx : Z }.

(** The globals [gPaddle], [gBall], [gBricks] and [state]. *)
Record World : Type := mkWorld
  { gPaddle : Paddle; gBall : Ball; gBricks : list Brick; state : GameState }.

Definition set_gPaddle (p : Paddle) (w : World) : World :=
  mkWorld p (gBall w) (gBricks w) (state w).
Definition set_gBall (b : Ball) (w : World) : World :=
  mkWorld (gPaddle w) b (gBricks w) (state w).
Definition set_gBricks (bs : list Brick) (w : World) : World :=
  mkWorld (gPaddle w) (gBall w) bs (state w).
Definition set_state (g : GameState) (w : World) : World :=
  mkWorld (gPaddle w) (gBall w) (gBricks w) g.

(** The body of the two loops of [resetLevel]; the state is the bricks and
    the local [aliveCount].  Only [r], [alive] and [colorIdx] are written. *)
Definition reset_cell (lvl : Z) (row col : nat) (st : list Brick * Z) : list Brick * Z :=
  let '(bs, aliveCount) := st in
  match bs !! brick_index row col with
  | None => st
  | Some b =>
      let filled := cell_filled row col lvl in
      (<[brick_index row col :=
           mkBrick (cell_rect row col) (brick_vx b) (brick_vy b) filled
                   (Z.rem (wrap32 (Z.of_nat row + Z.of_nat col + lvl)) 8)]> bs,
       if filled then (aliveCount + 1)%Z else aliveCount)
  end.

Definition resetLevel (lvl : Z) (w : World) : World :=
  let '(bs, aliveCount) :=
    foldl (fun st row => foldl (fun st col => reset_cell lvl row col st) st (seq 0 BRICK_COLUMNS))
          (gBricks w, 0%Z) (seq 0 BRICK_ROWS) in
  let w := set_state (set_bricks_remaining aliveCount (state w)) (set_gBricks bs w) in
  let w := set_gPaddle (reset_paddle (gPaddle w)) w in
  set_gBall (reset_ball (gPaddle w) (gBall w)) w.


(** The body of [if (rectOverlap(&gBall.r, &br))]; it ends in
    [goto after_brick_hit]. *)
Definition brick_hit (row col : nat) (b : Brick) (w : World) : World :=
  let w := set_gBall (resolve_brick (gBall w) (r b)) w in
  let w := set_gBricks
             (<[brick_index row col :=
                  mkBrick (r b) (brick_vx b) (brick_vy b) false (colorIdx b)]> (gBricks w)) w in
  let w := set_state (set_bricks_remaining (wrap32 (bricks_remaining (state w) - 1)) (state w)) w in
  let w := set_state
             (set_score (wrap32 (score (state w)
                                 + wrap32 (10 + wrap32 (wrap32 (level (state w) - 1) * 5))))
                        (state w)) w in
  set_gBall (set_speed (speed (gBall w) * (1015 / 1000)) (gBall w)) w.

Fixpoint scan_cols (row : nat) (cs : list nat) (w : World) : option World :=
  match cs with
  | [] => None
  | col :: cs' =>
      match gBricks w !! brick_index row col with
      | Some b =>
          if negb (alive b) then scan_cols row cs' w
          else if rect_overlap (ball_rect (gBall w)) (r b)
               then Some (brick_hit row col b w)
               else scan_cols row cs' w
      | None => scan_cols row cs' w
      end
  end.

Fixpoint scan_rows (rs : list nat) (w : World) : option World :=
  match rs with
  | [] => None
  | row :: rs' =>
      match scan_cols row (seq 0 BRICK_COLUMNS) w with
      | Some w' => Some w'
      | None => scan_rows rs' w
      end
  end.

Definition brick_collision (w : World) : World :=
  if negb (is_held (gBall w))
  then match scan_rows (seq 0 BRICK_ROWS) w with
       | Some w' => w'
       | None => w
       end
  else w.

(** [if (!gBall.held && gBall.r.y > WIN_H) ...]. *)
Definition fall_check (w : World) : World :=
  if negb (is_held (gBall w)) && Rltb (IZR WINDOW_HEIGHT) (ry (ball_rect (gBall w)))
  then
    let w := set_state (set_lives (wrap32 (lives (state w) - 1)) (state w)) w in
    if (lives (state w) <=? 0)%Z
    then set_state (end_session (state w)) w
    else set_gPaddle (center_paddle (gPaddle w)) (set_gBall (rearm_ball (gBall w)) w)
  else w.

(** [if (state.bricksRemaining <= 0) ...]. *)
Definition level_check (w : World) : World :=
  if (bricks_remaining (state w) <=? 0)%Z
  then
    let w := set_state (set_level (wrap32 (level (state w) + 1)) (state w)) w in
    if (level (state w) >? MAX_LEVELS)%Z
    then set_state (end_session (state w)) w
    else resetLevel (level (state w)) w
  else w.

Definition before_bricks (dt : R) (w : World) : World :=
  let w := set_gBall (move_ball dt (gPaddle w) (gBall w)) w in
  let w := set_gBall (wall_collision (gBall w)) w in
  set_gBall (paddle_collision BALL_SPEED_INC (gPaddle w) (gBall w)) w.


End Modular.

(** * [arkanoid.c]: the Win32 variant *)

Module Win32.

Definition WINDOW_WIDTH : Z := 800.
Definition WINDOW_HEIGHT : Z := 600.
Definition PADDLE_WIDTH : Z := 100.
Definition PADDLE_HEIGHT : Z := 20.
Definition PADDLE_SPEED : Z := 12.
Definition PADDLE_Y : Z := WINDOW_HEIGHT - 80.
Definition BALL_SIZE : Z := 15.
Definition BALL_SPEED : Z := 6.
Definition BRICK_ROWS : nat := 4%nat.
Definition BRICK_COLS : nat := 14%nat.
Definition BRICK_WIDTH : Z := 50.
Definition BRICK_HEIGHT : Z := 20.
Definition BRICK_PADDING : Z := 5.
Definition BRICK_OFFSET_X : Z := 15.
Definition BRICK_OFFSET_Y : Z := 50.
Definition MAX_LIVES : Z := 3.
Definition MAX_LEVELS : Z := 3.

Record Ball : Type := mkBall
  { x : R; y : R; dx : R; dy : R; radius : Z; active : bool }.

Record Paddle : Type := mkPaddle
  { paddle_x : Z; paddle_y : Z; width : Z; height : Z }.

Record Brick : Type := mkBrick
  { brick_x : Z; brick_y : Z; brick_width : Z; brick_height : Z;
    brick_active : bool; color_type : Z }.

Record GameState : Type := mkGameState
  { score : Z; lives : Z; level : Z; paused : bool; game_over : bool; victory : bool }.

(** The locals of [WinMain] that the game functions work on, the stream of
    [rand()], and the lines appended to [highscore.txt] so far, the latest
    first. *)
Record World : Type := mkWorld
  { ball : Ball; paddle : Paddle; bricks : list (list Brick); state : GameState;
    rand_stream : nat -> Z; highscore_txt : list Z }.

Definition set_ball (b : Ball) (w : World) : World :=
  mkWorld b (paddle w) (bricks w) (state w) (rand_stream w) (highscore_txt w).
Definition set_bricks (bs : list (list Brick)) (w : World) : World :=
  mkWorld (ball w) (paddle w) bs (state w) (rand_stream w) (highscore_txt w).
Definition set_state (g : GameState) (w : World) : World :=
  mkWorld (ball w) (paddle w) (bricks w) g (rand_stream w) (highscore_txt w).

Definition set_dx (v : R) (b : Ball) : Ball := mkBall (x b) (y b) v (dy b) (radius b) (active b).
Definition set_dy (v : R) (b : Ball) : Ball := mkBall (x b) (y b) (dx b) v (radius b) (active b).

Definition init_ball (w : World) : World :=
  let v := rand_stream w 0%nat in
  let angle := IZR (Z.rem v 90 - 45) * (314159 / 100000) / 180 in
  mkWorld (mkBall (IZR (WINDOW_WIDTH ÷ 2)) (IZR (WINDOW_HEIGHT ÷ 2))
                  (IZR BALL_SPEED * sin angle) (IZR BALL_SPEED * cos angle)
                  (BALL_SIZE ÷ 2) true)
          (paddle w) (bricks w) (state w) (fun n => rand_stream w (S n)) (highscore_txt w).

Definition init_brick (row col : nat) : Brick :=
  mkBrick (BRICK_OFFSET_X + Z.of_nat col * (BRICK_WIDTH + BRICK_PADDING))
          (BRICK_OFFSET_Y + Z.of_nat row * (BRICK_HEIGHT + BRICK_PADDING))
          BRICK_WIDTH BRICK_HEIGHT true (Z.of_nat row).

Definition init_bricks : list (list Brick) :=
  map (fun row => map (init_brick row) (seq 0 BRICK_COLS)) (seq 0 BRICK_ROWS).

(** The test of the brick loop of [update_ball]. *)
Definition ball_touches (b : Ball) (k : Brick) : bool :=
  Rleb (IZR (brick_x k)) (x b + IZR (radius b)) &&
  Rleb (x b - IZR (radius b)) (IZR (brick_x k + brick_width k)) &&
  Rleb (IZR (brick_y k)) (y b + IZR (radius b)) &&
  Rleb (y b - IZR (radius b)) (IZR (brick_y k + brick_height k)).

(** The body of the brick loop for the brick [k] of the cell [(row, col)]:
    the ball and the state after it, and the brick it leaves in the cell. *)
Definition hit_cell (row : nat) (st : Ball * GameState) (k : Brick)
  : Ball * GameState * Brick :=
  let '(b, g) := st in
  if negb (brick_active k) then (b, g, k)
  else if ball_touches b k
  then
    let g := mkGameState (wrap32 (score g + (Z.of_nat BRICK_ROWS - Z.of_nat row) * 10))
                         (lives g) (level g) (paused g) (game_over g) (victory g) in
    let brick_center_x := IZR (brick_x k) + IZR (brick_width k) / 2 in
    let brick_center_y := IZR (brick_y k) + IZR (brick_height k) / 2 in
    let dx_collision := x b - brick_center_x in
    let dy_collision := y b - brick_center_y in
    let b := if Rltb (Rabs (dy_collision / IZR (brick_height k)))
                     (Rabs (dx_collision / IZR (brick_width k)))
             then set_dx (- dx b) b else set_dy (- dy b) b in
    (b, g, mkBrick (brick_x k) (brick_y k) (brick_width k) (brick_height k) false (color_type k))
  else (b, g, k).

(** The inner loop over the columns of a row, then the loop over the rows:
    no iteration leaves the loops early. *)
Fixpoint hit_row (row : nat) (st : Ball * GameState) (ks : list Brick)
  : Ball * GameState * list Brick :=
  match ks with
  | [] => (st, [])
  | k :: ks' =>
      let '(st1, k') := hit_cell row st k in
      let '(st2, ks'') := hit_row row st1 ks' in
      (st2, k' :: ks'')
  end.

Fixpoint hit_rows (row : nat) (st : Ball * GameState) (rows : list (list Brick))
  : Ball * GameState * list (list Brick) :=
  match rows with
  | [] => (st, [])
  | ks :: rows' =>
      let '(st1, ks') := hit_row row st ks in
      let '(st2, rows'') := hit_rows (S row) st1 rows' in
      (st2, ks' :: rows'')
  end.

Definition brick_collisions (w : World) : World :=
  let '(b, g, rows) := hit_rows 0 (ball w, state w) (bricks w) in
  set_bricks rows (set_state g (set_ball b w)).

Definition all_destroyed (rows : list (list Brick)) : bool :=
  forallb (forallb (fun k => negb (brick_active k))) rows.

Definition update_ball (w : World) : World :=
  let g := state w in
  if paused g || game_over g || victory g then w
  else
    let b := ball w in
    let b := mkBall (x b + dx b) (y b + dy b) (dx b) (dy b) (radius b) (active b) in
    let b := if Rleb (x b - IZR (radius b)) 0 || Rleb (IZR WINDOW_WIDTH) (x b + IZR (radius b))
             then set_dx (- dx b) b else b in
    let b := if Rleb (y b - IZR (radius b)) 0 then set_dy (- dy b) b else b in
    let w := set_ball b w in
    if Rleb (IZR WINDOW_HEIGHT) (y b - IZR (radius b))
    then
      let g := mkGameState (score g) (wrap32 (lives g - 1)) (level g)
                           (paused g) (game_over g) (victory g) in
      if (lives g <=? 0)%Z
      then set_state (mkGameState (score g) (lives g) (level g) (paused g) true (victory g)) w
      else init_ball (set_state g w)
    else
      let p := paddle w in
      let b :=
        if Rleb (IZR (paddle_y p)) (y b + IZR (radius b)) &&
           Rleb (y b - IZR (radius b)) (IZR (paddle_y p + height p)) &&
           Rleb (IZR (paddle_x p)) (x b) && Rleb (x b) (IZR (paddle_x p + width p))
        then
          let paddle_center := IZR (paddle_x p) + IZR (width p) / 2 in
          let hit_pos := (x b - paddle_center) / (IZR (width p) / 2) in
          let bounce_angle := hit_pos * 60 * (314159 / 100000) / 180 in
          let speed := sqrt (dx b * dx b + dy b * dy b) in
          mkBall (x b) (IZR (paddle_y p) - IZR (radius b))
                 (speed * sin bounce_angle) (- Rabs (speed * cos bounce_angle))
                 (radius b) (active b)
        else b in
      let w := brick_collisions (set_ball b w) in
      if all_destroyed (bricks w)
      then
        let g := state w in
        let g := mkGameState (score g) (lives g) (wrap32 (level g + 1))
                             (paused g) (game_over g) (victory g) in
        if (level g >? MAX_LEVELS)%Z
        then set_state (mkGameState (score g) (lives g) (level g) (paused g) (game_over g) true) w
        else init_ball (set_bricks init_bricks (set_state g w))
      else w.

(** [save_score]: one more line in [highscore.txt]. *)
Definition save_score (sc : Z) (w : World) : World :=
  mkWorld (ball w) (paddle w) (bricks w) (state w) (rand_stream w) (sc :: highscore_txt w).

(** The part of a frame of [WinMain] after the input: the update, then the
    overlays, which save the score whenever one of them is drawn. *)
Definition frame (w : World) : World :=
  let w := update_ball w in
  let w := if game_over (state w) then save_score (score (state w)) w else w in
  if victory (state w) then save_score (score (state w)) w else w.

(** ** Paddle, input and start-up *)

Definition set_paddle (p : Paddle) (w : World) : World :=
  mkWorld (ball w) p (bricks w) (state w) (rand_stream w) (highscore_txt w).

Definition init_paddle : Paddle :=
  mkPaddle ((WINDOW_WIDTH - PADDLE_WIDTH) ÷ 2) PADDLE_Y PADDLE_WIDTH PADDLE_HEIGHT.

Definition init_game_state : GameState := mkGameState 0 MAX_LIVES 1 false false false.

Definition move_paddle_left (p : Paddle) : Paddle :=
  let px := wrap32 (paddle_x p - PADDLE_SPEED) in
  mkPaddle (if (px <? 0)%Z then 0%Z else px) (paddle_y p) (width p) (height p).

Definition move_paddle_right (p : Paddle) : Paddle :=
  let px := wrap32 (paddle_x p + PADDLE_SPEED) in
  mkPaddle (if (wrap32 (px + width p) >? WINDOW_WIDTH)%Z
            then wrap32 (WINDOW_WIDTH - width p) else px)
           (paddle_y p) (width p) (height p).

(** [handle_paddle_input]; [left] is [keys[VK_LEFT] || keys['A']], [right]
    is [keys[VK_RIGHT] || keys['D']]. *)
Definition handle_paddle_input (left right : bool) (w : World) : World :=
  let g := state w in
  if paused g || game_over g || victory g then w
  else
    let p := paddle w in
    let p := if left then move_paddle_left p else p in
    let p := if right then move_paddle_right p else p in
    set_paddle p w.


(** The keys that the loop of [WinMain] reads from the message queue. *)
Inductive Key : Type := VK_ESCAPE | VK_P | VK_SPACE | VK_R | VK_other.

(** The handling of [WM_KEYDOWN] in [WinMain], but for [VK_ESCAPE], which
    only ends the loop. *)
Definition key_down (k : Key) (w : World) : World :=
  let g := state w in
  match k with
  | VK_P | VK_SPACE =>
      if negb (game_over g) && negb (victory g)
      then set_state (mkGameState (score g) (lives g) (level g) (negb (paused g))
                                  (game_over g) (victory g)) w
      else w
  | VK_R =>
      if game_over g || victory g
      then set_state init_game_state (set_bricks init_bricks (set_paddle init_paddle (init_ball w)))
      else w
  | VK_ESCAPE | VK_other => w
  end.

(** One turn of the loop of [WinMain]: the keys of the queue, the paddle,
    the ball, the overlays. *)
Definition game_frame (ks : list Key) (left right : bool) (w : World) : World :=
  let w := foldl (fun w k => key_down k w) w ks in
  frame (handle_paddle_input left right w).

End Win32.

(** * Vocabulary of the statements *)

(** The paddle lies inside the field: [0 <= x <= fieldWidth - paddleWidth]. *)
Definition paddle_in_field (p : Paddle) : Prop :=
  0 <= rx (paddle_rect p) <= IZR WINDOW_WIDTH - rw (paddle_rect p).

(** The session is actively playing: the engine step is not skipped. *)
Definition playing (g : GameState) : Prop :=
  is_running g = true /\ is_paused g = false /\ show_menu g = false.

(** The impact offset as the specification writes it: the offset of the
    centres over half the paddle width, clamped to [-1, 1]. *)
Definition normalized_impact (p : Paddle) (b : Ball) : R :=
  Rmax (-1)
       (Rmin 1 (((rx (ball_rect b) + rw (ball_rect b) / 2)
                 - (rx (paddle_rect p) + rw (paddle_rect p) / 2))
                / (rw (paddle_rect p) / 2))).

(** ** Sample states

    The globals as [main] of [arkanoid_full.c] finds them: zero-initialised,
    then the sizes of the paddle and the ball set by [initialize_all]. *)

Definition zero_rect : RectF := mkRectF 0 0 0 0.

Definition boot_world (rs : nat -> Z) (d : Full.Disk) (board : list Z) : Full.World :=
  Full.mkWorld
    (mkPaddle (mkRectF 0 0 (IZR PADDLE_WIDTH) (IZR PADDLE_HEIGHT)) 0)
    (mkBall (mkRectF 0 0 (IZR BALL_SIZE) (IZR BALL_SIZE)) 0 0 0 false)
    (replicate (BRICK_ROWS * BRICK_COLUMNS) (Full.mkBrick zero_rect false 0 false))
    (mkGameState 0 0 0 0 false false false)
    (replicate Full.MAX_COLLECTIBLES (Full.mkCollectible zero_rect 0 0 false 0))
    0 board rs d [].

(** A disk without level files. *)
Definition bare_disk : Full.Disk := Full.mkDisk None None (fun _ => None) true.

(** A world whose leaderboard holds five earlier scores. *)
Definition ranked_world : Full.World :=
  boot_world (fun _ => 1%Z) bare_disk [500; 400; 300; 200; 100]%Z.

(** ** The brick array *)

(** The cells of the grid in the order the nested loops visit them:
    row-major. *)
Definition grid : list (nat * nat) :=
  r ← seq 0 BRICK_ROWS; c ← seq 0 BRICK_COLUMNS; [(r, c)].

Arguments grid : simpl never.

(** The number of bricks of the array. *)
Definition BRICK_COUNT : nat := (BRICK_ROWS * BRICK_COLUMNS)%nat.

(** The ball of a world overlaps the live brick at index [k] of the array. *)
Definition hits (ball_r : RectF) (bs : list Full.Brick) (k : nat) : bool :=
  match bs !! k with
  | Some b => Full.is_alive b && rect_overlap ball_r (Full.brick_rect b)
  | None => false
  end.

(** The brick of [arkanoid_full.c] once destroyed. *)
Definition destroyed (b : Full.Brick) : Full.Brick :=
  Full.mkBrick (Full.brick_rect b) false (Full.color_index b) false.

(** The number of cells of a list that satisfy [g]. *)
Fixpoint count_cells (g : nat -> nat -> bool) (cells : list (nat * nat)) : Z :=
  match cells with
  | [] => 0%Z
  | (r, c) :: cells' => ((if g r c then 1 else 0) + count_cells g cells')%Z
  end.

(** Two worlds of [arkanoid_full.c] that differ at most in their bricks,
    their counters and the stream of [rand()]. *)
Definition same_outside_level (w w' : Full.World) : Prop :=
  Full.paddle w' = Full.paddle w /\ Full.ball w' = Full.ball w /\
  Full.collectibles w' = Full.collectibles w /\ Full.high_score w' = Full.high_score w /\
  Full.leaderboard w' = Full.leaderboard w /\ Full.disk w' = Full.disk w /\
  Full.record_calls w' = Full.record_calls w.

(** Two worlds at start-up that differ in the values [rand()] will return:
    always 0 in the first, always 1 in the second. *)
Definition lucky_world : Full.World := boot_world (fun _ => 0%Z) bare_disk [0; 0; 0; 0; 0]%Z.
Definition plain_world : Full.World := boot_world (fun _ => 1%Z) bare_disk [0; 0; 0; 0; 0]%Z.

(** The globals of the modular variant at start-up. *)
Definition modular_boot : Modular.World :=
  Modular.mkWorld
    (mkPaddle (mkRectF 0 0 (IZR PADDLE_WIDTH) (IZR PADDLE_HEIGHT)) 0)
    (mkBall (mkRectF 0 0 (IZR BALL_SIZE) (IZR BALL_SIZE)) 0 0 0 false)
    (replicate BRICK_COUNT (Modular.mkBrick zero_rect 0 0 false 0))
    (mkGameState 0 0 0 0 false false false).

(** ** Invariants of a session of [arkanoid_full.c] *)






(** The paddle is not wider than the field. *)
Definition paddle_fits (p : Paddle) : Prop := rw (paddle_rect p) <= IZR WINDOW_WIDTH.

(** ** A ball on the seam between two bricks

    Level 1 with every brick alive, the session playing, and the ball
    released, flying straight up, across the seam between the first two
    bricks of the lowest row (cells (6, 0) and (6, 1), indices 72 and 73). *)

Definition full_wall : list Full.Brick :=
  (fun rc => Full.mkBrick (cell_rect rc.1 rc.2) true (Full.cell_color rc.1 rc.2 1) false)
    <$> grid.

Definition seam_world : Full.World :=
  Full.mkWorld
    (mkPaddle (mkRectF 410 576 140 18) 0)
    (mkBall (mkRectF 70 290 14 14) 0 (-1) 420 false)
    full_wall
    (mkGameState 0 3 1 84 false true false)
    (replicate Full.MAX_COLLECTIBLES (Full.mkCollectible zero_rect 0 0 false 0))
    0 [0; 0; 0; 0; 0]%Z (fun _ => 1%Z) bare_disk [].

(** Every live brick lies inside the field, above its bottom edge. *)
Definition bricks_in_field (bs : list Full.Brick) : Prop :=
  forall k b, bs !! k = Some b -> Full.is_alive b = true ->
              ry (Full.brick_rect b) + rh (Full.brick_rect b) <= IZR WINDOW_HEIGHT.

(** The last life: the wall of level 1, the ball released and already past
    the paddle, falling towards the bottom edge. *)
Definition last_life_world : Full.World :=
  Full.mkWorld
    (mkPaddle (mkRectF 410 576 140 18) 0)
    (mkBall (mkRectF 100 630 14 14) 0 1 420 false)
    full_wall
    (mkGameState 230 1 1 84 false true false)
    (replicate Full.MAX_COLLECTIBLES (Full.mkCollectible zero_rect 0 0 false 0))
    0 [0; 0; 0; 0; 0]%Z (fun _ => 1%Z) bare_disk [].

(** Every live brick ends above the place the paddle block gives the ball. *)
Definition bricks_above_paddle (bs : list Full.Brick) (p : Paddle) (b : Ball) : Prop :=
  forall k br, bs !! k = Some br -> Full.is_alive br = true ->
               ry (Full.brick_rect br) + rh (Full.brick_rect br)
               <= ry (paddle_rect p) - rh (ball_rect b) - 1.

(** The ball of a world when the paddle block of a step of length [dt]
    starts: moved, and reflected by the walls. *)
Definition ball_at_paddle (dt : R) (w : Full.World) : Ball :=
  wall_collision (move_ball dt (Full.paddle w) (Full.ball w)).

(** A ball coming down on the middle of the paddle. *)
Definition serve_world : Full.World :=
  Full.mkWorld
    (mkPaddle (mkRectF 410 576 140 18) 0)
    (mkBall (mkRectF 473 560 14 14) 0 1 420 false)
    full_wall
    (mkGameState 0 3 1 84 false true false)
    (replicate Full.MAX_COLLECTIBLES (Full.mkCollectible zero_rect 0 0 false 0))
    0 [0; 0; 0; 0; 0]%Z (fun _ => 1%Z) bare_disk [].

(** ** The same vocabulary for the modular variant *)


Definition modular_hits (ball_r : RectF) (bs : list Modular.Brick) (k : nat) : bool :=
  match bs !! k with
  | Some b => Modular.alive b && rect_overlap ball_r (Modular.r b)
  | None => false
  end.







(** ** The Win32 variant *)

(** What the brick loop of [update_ball] leaves of a brick: an active brick
    that the ball touches is deactivated, any other brick is kept. *)
Definition strike (b : Win32.Ball) (k : Win32.Brick) : Win32.Brick :=
  if Win32.brick_active k && Win32.ball_touches b k
  then Win32.mkBrick (Win32.brick_x k) (Win32.brick_y k) (Win32.brick_width k)
                     (Win32.brick_height k) false (Win32.color_type k)
  else k.

Definition brick_at (rows : list (list Win32.Brick)) (row col : nat) : option Win32.Brick :=
  rows !! row ≫= fun ks => ks !! col.

(** The bricks of a new game, and the ball flying straight up towards the
    seam between the first two bricks of the lowest row. *)
Definition win32_seam_world : Win32.World :=
  Win32.mkWorld
    (Win32.mkBall (135 / 2) 156 0 (-6) 7 true)
    (Win32.mkPaddle 350 520 100 20)
    Win32.init_bricks
    (Win32.mkGameState 0 3 1 false false false)
    (fun _ => 0%Z) [].

(** ** More vocabulary *)

(** The direction of the ball is a unit vector, so that [speed] is the
    length of its velocity. *)
Definition unit_direction (b : Ball) : Prop := vx b * vx b + vy b * vy b = 1.

(** The ball lies between the side walls and below the top of the field. *)
Definition ball_in_field (b : Ball) : Prop :=
  0 <= rx (ball_rect b) /\
  rx (ball_rect b) + rw (ball_rect b) <= IZR WINDOW_WIDTH /\
  0 <= ry (ball_rect b).

(** A ball that has crossed the left wall and the top of the field. *)
Definition corner_ball : Ball := mkBall (mkRectF (-3) (-2) 14 14) (-3 / 5) (-4 / 5) 420 false.

(** ** The states of a run of [arkanoid_full.c] *)

(** The states the program goes through: the state [main] enters its loop
    with, from the globals [w0], then one turn of the loop after the other,
    as long as [is_running] holds when the turn starts.  A turn sees any
    events, keys and frame time, and any place of the play button, which
    [render_scene] sets. *)
Inductive running (w0 : Full.World) : Full.World -> Prop :=
  | running_start : running w0 (Full.main_start w0)
  | running_frame (menu : RectF) (events : list Full.Event) (left right : bool) (dt : R)
      (w : Full.World) :
      running w0 w -> is_running (Full.game_state w) = true ->
      running w0 (Full.frame menu events left right dt w).

(** The ball has its size, a unit direction and at least the initial
    speed. *)
Definition ball_steady (b : Ball) : Prop :=
  unit_direction b /\
  rw (ball_rect b) = IZR BALL_SIZE /\ rh (ball_rect b) = IZR BALL_SIZE /\
  BALL_SPEED_INITIAL <= speed b.

(** The paddle has its height and its place above the bottom edge, a width
    between the initial one and half the field, and lies inside the field. *)
Definition paddle_steady (p : Paddle) : Prop :=
  IZR PADDLE_WIDTH <= rw (paddle_rect p) <= IZR (WINDOW_WIDTH ÷ 2) /\
  rh (paddle_rect p) = IZR PADDLE_HEIGHT /\
  ry (paddle_rect p) = IZR (WINDOW_HEIGHT - PADDLE_Y_OFFSET) /\
  paddle_in_field p.

(** The array of bricks is complete and [bricks_remaining] counts its live
    bricks. *)
Definition bricks_counted (w : Full.World) : Prop :=
  length (Full.bricks w) = BRICK_COUNT /\
  bricks_remaining (Full.game_state w) = Full.count_alive (Full.bricks w).

Definition steady (w : Full.World) : Prop :=
  bricks_counted w /\ ball_steady (Full.ball w) /\ paddle_steady (Full.paddle w).

(** The events of a turn in which the player leaves the menu with the space
    key, moves the pointer and pauses. *)
Definition sample_events : list Full.Event :=
  [Full.SDL_KEYDOWN Full.SDLK_SPACE; Full.SDL_MOUSEMOTION 700;
   Full.SDL_KEYDOWN Full.SDLK_SPACE].

(** The first turn of the loop from the start-up state [plain_world]. *)
Definition sample_run : Full.World :=
  Full.frame zero_rect sample_events false true (1 / 100) (Full.main_start plain_world).

(** The ball held on the paddle, in front of the wall of level 1. *)
Definition held_world : Full.World :=
  Full.set_ball (mkBall (mkRectF 473 560 14 14) 0 (-1) 420 true) seam_world.

(** A ball falling past the paddle with three lives left. *)
Definition falling_world : Full.World :=
  Full.set_game_state (mkGameState 230 3 1 84 false true false) last_life_world.

(** The last brick of a level: only the brick of the cell (6, 0) is left,
    and the ball overlaps it. *)
Definition one_brick_wall : list Full.Brick :=
  (fun rc => Full.mkBrick (cell_rect rc.1 rc.2) (Nat.eqb (brick_index rc.1 rc.2) 72)
                          (Full.cell_color rc.1 rc.2 1) false)
    <$> grid.

Definition last_brick_world (lvl : Z) : Full.World :=
  Full.mkWorld
    (mkPaddle (mkRectF 410 576 140 18) 0)
    (mkBall (mkRectF 70 290 14 14) 0 (-1) 420 false)
    one_brick_wall
    (mkGameState 830 3 lvl 1 false true false)
    (replicate Full.MAX_COLLECTIBLES (Full.mkCollectible zero_rect 0 0 false 0))
    500 [0; 0; 0; 0; 0]%Z (fun _ => 1%Z) bare_disk [].

(** ** Level files *)

(** What [load_level_from_file] makes of the character of the column [c] of
    the line [r] of a level file: a brick for ['#'] and ['A'], a special one
    for ['A']; nothing past the end of a line or of the file. *)
Definition file_alive (lines : list string) (r c : nat) : bool :=
  match lines !! r with
  | Some ln =>
      match String.get c ln with
      | Some ch => Ascii.eqb ch "#" || Ascii.eqb ch "A"
      | None => false
      end
  | None => false
  end.

Definition file_special (lines : list string) (r c : nat) : bool :=
  match lines !! r with
  | Some ln =>
      match String.get c ln with
      | Some ch => Ascii.eqb ch "A"
      | None => false
      end
  | None => false
  end.

(** A disk whose [level1.txt] holds a full row, a short row and a row of
    other characters. *)
Definition level_disk : Full.Disk :=
  Full.mkDisk None None
    (fun n => if (n =? 1)%Z then Some ["############"; "#A#"; "..xx..AA...."]%string else None)
    true.

Definition file_world : Full.World := boot_world (fun _ => 0%Z) level_disk [0; 0; 0; 0; 0]%Z.

(** ** More of the Win32 variant *)

(** The ball of [update_ball] after the move and the reflections on the
    side walls and the ceiling, where the floor is tested. *)
Definition win32_ball_moved (w : Win32.World) : Win32.Ball :=
  let b := Win32.ball w in
  let b := Win32.mkBall (Win32.x b + Win32.dx b) (Win32.y b + Win32.dy b) (Win32.dx b)
                        (Win32.dy b) (Win32.radius b) (Win32.active b) in
  let b := if Rleb (Win32.x b - IZR (Win32.radius b)) 0
              || Rleb (IZR Win32.WINDOW_WIDTH) (Win32.x b + IZR (Win32.radius b))
           then Win32.set_dx (- Win32.dx b) b else b in
  if Rleb (Win32.y b - IZR (Win32.radius b)) 0 then Win32.set_dy (- Win32.dy b) b else b.

(** The ball after the paddle block, as the brick loop finds it. *)
Definition win32_ball_at_bricks (w : Win32.World) : Win32.Ball :=
  let b := win32_ball_moved w in
  let p := Win32.paddle w in
  if Rleb (IZR (Win32.paddle_y p)) (Win32.y b + IZR (Win32.radius b)) &&
     Rleb (Win32.y b - IZR (Win32.radius b)) (IZR (Win32.paddle_y p + Win32.height p)) &&
     Rleb (IZR (Win32.paddle_x p)) (Win32.x b) &&
     Rleb (Win32.x b) (IZR (Win32.paddle_x p + Win32.width p))
  then
    let paddle_center := IZR (Win32.paddle_x p) + IZR (Win32.width p) / 2 in
    let hit_pos := (Win32.x b - paddle_center) / (IZR (Win32.width p) / 2) in
    let bounce_angle := hit_pos * 60 * (314159 / 100000) / 180 in
    let speed := sqrt (Win32.dx b * Win32.dx b + Win32.dy b * Win32.dy b) in
    Win32.mkBall (Win32.x b) (IZR (Win32.paddle_y p) - IZR (Win32.radius b))
                 (speed * sin bounce_angle) (- Rabs (speed * cos bounce_angle))
                 (Win32.radius b) (Win32.active b)
  else b.

(** The session is neither paused nor over. *)
Definition win32_playing (g : Win32.GameState) : Prop :=
  Win32.paused g = false /\ Win32.game_over g = false /\ Win32.victory g = false.

(** The paddle lies inside the window. *)
Definition win32_paddle_in_window (p : Win32.Paddle) : Prop :=
  (0 <= Win32.paddle_x p <= Win32.WINDOW_WIDTH - Win32.width p)%Z.

(** The state of a new game, with the values [rand()] will return. *)
Definition win32_boot (rs : nat -> Z) : Win32.World :=
  Win32.init_ball
    (Win32.mkWorld (Win32.mkBall 0 0 0 0 0 false) Win32.init_paddle Win32.init_bricks
                   Win32.init_game_state rs []).

(** A ball that has passed the paddle and leaves the window at the next
    step, with [n] lives left. *)
Definition win32_falling_world (n : Z) : Win32.World :=
  Win32.mkWorld
    (Win32.mkBall 200 604 0 6 7 true)
    (Win32.mkPaddle 350 520 100 20)
    Win32.init_bricks
    (Win32.mkGameState 120 n 1 false false false)
    (fun _ => 0%Z) [].


(** ** A playing state of the modular variant *)



(** The wall of a new game with every brick but the first one of the lowest
    row destroyed, the ball flying up into that brick, on level [lvl]. *)
Definition win32_last_brick_world (lvl : Z) : Win32.World :=
  Win32.mkWorld
    (Win32.mkBall 40 156 0 (-6) 7 true)
    (Win32.mkPaddle 350 520 100 20)
    ((fun ks : list Win32.Brick =>
        (fun k => Win32.mkBrick (Win32.brick_x k) (Win32.brick_y k) (Win32.brick_width k)
                                (Win32.brick_height k)
                                ((Win32.brick_x k =? 15) && (Win32.brick_y k =? 125))%Z
                                (Win32.color_type k)) <$> ks) <$> Win32.init_bricks)
    (Win32.mkGameState 500 2 lvl false false false)
    (fun _ => 0%Z) [].


(** * Facts about the numeric layer *)

Lemma wrap32_id (z : Z) : in_int z -> wrap32 z = z.
Proof.
  unfold in_int, wrap32, INT_MIN, INT_MAX. intros H.
  rewrite Z.mod_small; lia.
Qed.

Lemma wrap32_range (z : Z) : in_int (wrap32 z).
Proof.
  unfold in_int, wrap32, INT_MIN, INT_MAX.
  pose proof (Z.mod_pos_bound (z + 2147483648) 4294967296 ltac:(lia)). lia.
Qed.

Lemma Rleb_le (a b : R) : Rleb a b = true <-> a <= b.
Proof. unfold Rleb. destruct (Rle_dec a b); split; intros; try lra; try reflexivity; discriminate. Qed.

Lemma Rleb_gt (a b : R) : Rleb a b = false <-> b < a.
Proof. unfold Rleb. destruct (Rle_dec a b); split; intros; try lra; try reflexivity; discriminate. Qed.

Lemma Rltb_lt (a b : R) : Rltb a b = true <-> a < b.
Proof. unfold Rltb. destruct (Rlt_dec a b); split; intros; try lra; try reflexivity; discriminate. Qed.

Lemma Rltb_ge (a b : R) : Rltb a b = false <-> b <= a.
Proof. unfold Rltb. destruct (Rlt_dec a b); split; intros; try lra; try reflexivity; discriminate. Qed.

Lemma Reqb_eq (a b : R) : Reqb a b = true <-> a = b.
Proof.
  unfold Reqb. destruct (Req_dec_T a b); split; intros;
    try assumption; try reflexivity; try discriminate; contradiction.
Qed.

Lemma Reqb_neq (a b : R) : Reqb a b = false <-> a <> b.
Proof.
  unfold Reqb. destruct (Req_dec_T a b); split; intros;
    try assumption; try reflexivity; try discriminate; contradiction.
Qed.

(** Case analysis on the comparisons of the goal, each branch keeping the
    order fact it stands for. *)
Ltac rcases :=
  repeat match goal with
  | |- context [Rleb ?a ?b] =>
      let E := fresh "E" in
      destruct (Rleb a b) eqn:E; [apply Rleb_le in E | apply Rleb_gt in E]
  | |- context [Rltb ?a ?b] =>
      let E := fresh "E" in
      destruct (Rltb a b) eqn:E; [apply Rltb_lt in E | apply Rltb_ge in E]
  | |- context [Reqb ?a ?b] =>
      let E := fresh "E" in
      destruct (Reqb a b) eqn:E; [apply Reqb_eq in E | apply Reqb_neq in E]
  end.

(** Evaluation on closed expressions: the integer under a conversion is
    computed, and [lra] tells the branch of a comparison that holds no
    condition itself. *)
Ltac no_if t := lazymatch t with context [if _ then _ else _] => fail | _ => idtac end.

Ltac rstep :=
  match goal with
  | |- context [Rleb ?a ?b] =>
      no_if a; no_if b;
      first [ replace (Rleb a b) with true by (symmetry; apply Rleb_le; lra)
            | replace (Rleb a b) with false by (symmetry; apply Rleb_gt; lra) ]
  | |- context [Rltb ?a ?b] =>
      no_if a; no_if b;
      first [ replace (Rltb a b) with true by (symmetry; apply Rltb_lt; lra)
            | replace (Rltb a b) with false by (symmetry; apply Rltb_ge; lra) ]
  end.

Ltac rproj :=
  cbn [rx ry rw rh ball_rect vx vy speed is_held paddle_rect velocity_x set_rx set_ry set_rw
       set_paddle_rect set_ball_rect set_vx set_vy set_speed negb andb orb].

Ltac znorm :=
  repeat match goal with
  | |- context [IZR ?z] =>
      let z' := eval vm_compute in z in
      tryif constr_eq z z' then fail else change (IZR z) with (IZR z')
  end.

Ltac reval := rproj; znorm; repeat (rstep; rproj; znorm).

(** * The overlap test *)

Lemma rect_overlap_true (a b : RectF) :
  rect_overlap a b = true <->
  rx b < rx a + rw a /\ rx a < rx b + rw b /\
  ry b < ry a + rh a /\ ry a < ry b + rh b.
Proof.
  unfold rect_overlap. rewrite negb_true_iff, !orb_false_iff, !Rleb_gt. tauto.
Qed.

Lemma rect_overlap_false (a b : RectF) :
  rect_overlap a b = false <->
  rx a + rw a <= rx b \/ rx b + rw b <= rx a \/
  ry a + rh a <= ry b \/ ry b + rh b <= ry a.
Proof.
  unfold rect_overlap. rewrite negb_false_iff, !orb_true_iff, !Rleb_le. tauto.
Qed.


(** * The resolution of a brick hit *)







(** * The paddle: clamp and bounce *)

Lemma foldl_invariant {A B : Type} (P : A -> Prop) (f : A -> B -> A) (l : list B) (a : A) :
  P a -> (forall a b, P a -> P (f a b)) -> P (foldl f a l).
Proof.
  intros Ha Hf. revert a Ha. induction l as [|b l IH]; intros a Ha; simpl; auto.
Qed.

Lemma clamp_paddle_rw (p : Paddle) :
  rw (paddle_rect (clamp_paddle p)) = rw (paddle_rect p).
Proof. unfold clamp_paddle. rcases; reflexivity. Qed.

Lemma clamp_paddle_ry (p : Paddle) :
  ry (paddle_rect (clamp_paddle p)) = ry (paddle_rect p).
Proof. unfold clamp_paddle. rcases; reflexivity. Qed.

Lemma clamp_paddle_in_field (p : Paddle) :
  rw (paddle_rect p) <= IZR WINDOW_WIDTH -> paddle_in_field (clamp_paddle p).
Proof.
  unfold paddle_in_field, clamp_paddle. intros Hw.
  destruct (Rltb (rx (paddle_rect p)) 0) eqn:E1;
    [apply Rltb_lt in E1 | apply Rltb_ge in E1]; cbn [set_paddle_rect set_rx paddle_rect rx rw];
    rcases; cbn [set_paddle_rect set_rx paddle_rect rx rw]; lra.
Qed.



Lemma center_paddle_in_field (p : Paddle) :
  rw (paddle_rect p) <= IZR WINDOW_WIDTH -> paddle_in_field (center_paddle p).
Proof. unfold paddle_in_field, center_paddle. simpl. intros Hw. lra. Qed.

Lemma reset_paddle_in_field (p : Paddle) :
  rw (paddle_rect p) <= IZR WINDOW_WIDTH -> paddle_in_field (reset_paddle p).
Proof. unfold paddle_in_field, reset_paddle. simpl. intros Hw. lra. Qed.

Lemma impact_of_clamped (p : Paddle) (b : Ball) : impact_of p b = normalized_impact p b.
Proof.
  unfold impact_of, normalized_impact.
  set (u := ((rx (ball_rect b) + rw (ball_rect b) / 2)
             - (rx (paddle_rect p) + rw (paddle_rect p) / 2)) / (rw (paddle_rect p) / 2)).
  unfold Rmax, Rmin.
  destruct (Rltb u (-1)) eqn:E1; [apply Rltb_lt in E1 | apply Rltb_ge in E1];
    rcases; repeat destruct (Rle_dec _ _); lra.
Qed.

Lemma impact_of_range (p : Paddle) (b : Ball) : -1 <= impact_of p b <= 1.
Proof.
  unfold impact_of.
  set (u := ((rx (ball_rect b) + rw (ball_rect b) / 2)
             - (rx (paddle_rect p) + rw (paddle_rect p) / 2)) / (rw (paddle_rect p) / 2)).
  destruct (Rltb u (-1)) eqn:E1; [apply Rltb_lt in E1 | apply Rltb_ge in E1];
    rcases; lra.
Qed.

Lemma bounce_angle_range (p : Paddle) (b : Ball) :
  - (PI / 2) < bounce_angle p b < PI / 2.
Proof.
  unfold bounce_angle. pose proof (impact_of_range p b) as [H1 H2].
  pose proof PI_RGT_0 as Hpi.
  set (u := impact_of p b) in *. set (k := 75 * (PI / 180)).
  assert (0 < k) by (unfold k; lra).
  assert (k < PI / 2) by (unfold k; lra).
  assert (u * k <= 1 * k) by (apply Rmult_le_compat_r; lra).
  assert (-1 * k <= u * k) by (apply Rmult_le_compat_r; lra).
  lra.
Qed.

Lemma bounce_goes_up (p : Paddle) (b : Ball) : - cos (bounce_angle p b) < 0.
Proof.
  pose proof (bounce_angle_range p b) as [H1 H2].
  pose proof (cos_gt_0 _ H1 H2). lra.
Qed.

Lemma paddle_collision_fires (growth : R) (p : Paddle) (b : Ball) :
  is_held b = false -> 0 < vy b -> rect_overlap (ball_rect b) (paddle_rect p) = true ->
  paddle_collision growth p b =
    mkBall (set_ry (ry (paddle_rect p) - rh (ball_rect b) - 1) (ball_rect b))
           (sin (bounce_angle p b)) (- cos (bounce_angle p b)) (speed b * growth) false.
Proof.
  intros Hh Hv Ho. unfold paddle_collision. rewrite Hh, Ho.
  apply Rltb_lt in Hv. rewrite Hv. reflexivity.
Qed.

Lemma paddle_collision_skips (growth : R) (p : Paddle) (b : Ball) :
  is_held b = true \/ vy b <= 0 \/ rect_overlap (ball_rect b) (paddle_rect p) = false ->
  paddle_collision growth p b = b.
Proof.
  intros H. unfold paddle_collision.
  destruct H as [H|[H|H]].
  - rewrite H. reflexivity.
  - apply Rltb_ge in H. rewrite H. rewrite andb_false_r. reflexivity.
  - rewrite H. rewrite andb_false_r. reflexivity.
Qed.

(** Case analysis on a condition of the goal that holds no condition
    itself. *)
Ltac case_if :=
  match goal with
  | |- context [if ?c then _ else _] =>
      lazymatch c with
      | context [if _ then _ else _] => fail
      | _ => let E := fresh "E" in destruct c eqn:E
      end
  end.

Lemma wall_collision_held (b : Ball) : is_held (wall_collision b) = is_held b.
Proof.
  unfold wall_collision. destruct (is_held b) eqn:Hh; simpl; [assumption|].
  repeat (case_if; simpl); assumption.
Qed.

Lemma wall_collision_rh (b : Ball) : rh (ball_rect (wall_collision b)) = rh (ball_rect b).
Proof.
  unfold wall_collision. destruct (is_held b) eqn:Hh; simpl; [reflexivity|].
  repeat (case_if; simpl); reflexivity.
Qed.

(** The wall block turns the ball downwards only at the top wall. *)
Lemma wall_collision_vy (b : Ball) :
  vy (wall_collision b) = vy b \/ ry (ball_rect (wall_collision b)) = 0.
Proof.
  unfold wall_collision. destruct (is_held b) eqn:Hh; simpl; [left; reflexivity|].
  repeat (case_if; simpl); auto.
Qed.

Lemma move_ball_released (dt : R) (p : Paddle) (b : Ball) :
  is_held b = false ->
  is_held (move_ball dt p b) = false /\ vy (move_ball dt p b) = vy b /\
  rh (ball_rect (move_ball dt p b)) = rh (ball_rect b).
Proof. intros Hh. unfold move_ball. rewrite Hh. simpl. auto. Qed.

(** A ball that flies upwards reaches the paddle block of the next step
    either still flying upwards or lying against the top wall, above any
    paddle that is at least a ball height below the top. *)
Lemma upward_ball_misses_paddle (growth dt : R) (p : Paddle) (b : Ball) :
  is_held b = false -> vy b < 0 -> rh (ball_rect b) <= ry (paddle_rect p) ->
  paddle_collision growth p (wall_collision (move_ball dt p b)) =
  wall_collision (move_ball dt p b).
Proof.
  intros Hh Hv Hp. apply paddle_collision_skips.
  destruct (move_ball_released dt p b Hh) as (_ & Hvy & Hrh).
  destruct (wall_collision_vy (move_ball dt p b)) as [E|E].
  - right; left. rewrite E, Hvy. lra.
  - right; right. apply rect_overlap_false. right; right; left.
    rewrite E, wall_collision_rh, Hrh. lra.
Qed.

(** * The leaderboard *)

Section Leaderboard.

Import Full.

Lemma swap_if_greater_split (pre mid rest : list Z) (x y : Z) :
  swap_if_greater (length pre) (pre ++ x :: mid ++ y :: rest) (length pre + 1 + length mid) =
  if (y >? x)%Z then pre ++ y :: mid ++ x :: rest else pre ++ x :: mid ++ y :: rest.
Proof.
  unfold swap_if_greater.
  rewrite (list_lookup_middle pre _ x (length pre)) by reflexivity.
  assert (E : (pre ++ x :: mid ++ y :: rest) !! (length pre + 1 + length mid)%nat = Some y).
  { replace (pre ++ x :: mid ++ y :: rest) with ((pre ++ x :: mid) ++ y :: rest)
      by (rewrite <- app_assoc; reflexivity).
    apply list_lookup_middle. rewrite length_app. simpl. lia. }
  rewrite E. destruct (y >? x)%Z; [|reflexivity].
  replace (length pre) with (length pre + 0)%nat at 2 by lia.
  rewrite insert_app_r. simpl.
  replace (pre ++ y :: mid ++ y :: rest) with ((pre ++ y :: mid) ++ y :: rest)
    by (rewrite <- app_assoc; reflexivity).
  replace (length pre + 1 + length mid)%nat with (length (pre ++ y :: mid) + 0)%nat
    by (rewrite length_app; simpl; lia).
  rewrite insert_app_r. simpl. rewrite <- app_assoc. reflexivity.
Qed.

(** The inner loop, from the column after [mid] on: the largest entry of
    [x :: mid ++ rest] comes to the front, the others stay behind it. *)
Lemma sort_inner_split (rest : list Z) :
  forall (pre mid : list Z) (x : Z),
    Forall (fun z => (z <= x)%Z) mid ->
    exists (m : Z) (mid' : list Z),
      foldl (swap_if_greater (length pre)) (pre ++ x :: mid ++ rest)
            (seq (length pre + 1 + length mid) (length rest)) = pre ++ m :: mid' /\
      Forall (fun z => (z <= m)%Z) mid' /\
      m :: mid' ≡ₚ x :: mid ++ rest.
Proof.
  induction rest as [|y rest IH]; intros pre mid x Hmid.
  - exists x, mid. simpl. rewrite app_nil_r. auto.
  - cbn [length seq foldl]. rewrite swap_if_greater_split.
    destruct (y >? x)%Z eqn:E.
    + apply Z.gtb_lt in E.
      destruct (IH pre (mid ++ [x]) y) as (m & mid' & Hf & Hle & Hp).
      { apply Forall_app. split.
        - eapply Forall_impl; [exact Hmid|]. simpl. intros. lia.
        - constructor; [lia|constructor]. }
      exists m, mid'. split; [|split; [exact Hle|]].
      * rewrite <- Hf. rewrite <- app_assoc. simpl.
        rewrite length_app. simpl. f_equal. f_equal. lia.
      * rewrite Hp. rewrite <- app_assoc. simpl.
        rewrite <- (Permutation_middle mid rest x), <- (Permutation_middle mid rest y).
        apply perm_swap.
    + assert (y <= x)%Z by (destruct (Z.gtb_spec y x); [discriminate|lia]).
      destruct (IH pre (mid ++ [y]) x) as (m & mid' & Hf & Hle & Hp).
      { apply Forall_app. split; [exact Hmid|]. constructor; [lia|constructor]. }
      exists m, mid'. split; [|split; [exact Hle|]].
      * rewrite <- Hf. rewrite <- app_assoc. simpl.
        rewrite length_app. simpl. f_equal. f_equal. lia.
      * rewrite Hp. rewrite <- app_assoc. reflexivity.
Qed.

Lemma sort_inner_front (pre rest : list Z) (x : Z) :
  exists (m : Z) (mid' : list Z),
    sort_inner (length (pre ++ x :: rest)) (pre ++ x :: rest) (length pre) = pre ++ m :: mid' /\
    Forall (fun z => (z <= m)%Z) mid' /\
    m :: mid' ≡ₚ x :: rest.
Proof.
  destruct (sort_inner_split rest pre [] x) as (m & mid' & Hf & Hle & Hp); [constructor|].
  exists m, mid'. split; [|split; assumption].
  unfold sort_inner. rewrite <- Hf. simpl. rewrite length_app. simpl.
  f_equal. f_equal; lia.
Qed.

(** The outer loop, from the row after the sorted front [pre] on. *)
Lemma sort_outer_split (k : nat) :
  forall (suf pre : list Z),
    length suf = k ->
    StronglySorted Z.ge pre ->
    (forall x y, x ∈ pre -> y ∈ suf -> (y <= x)%Z) ->
    exists out,
      foldl (sort_inner (length (pre ++ suf))) (pre ++ suf) (seq (length pre) (length suf)) = out /\
      StronglySorted Z.ge out /\ out ≡ₚ pre ++ suf.
Proof.
  induction k as [|k IH]; intros suf pre Hk Hs Hd.
  - destruct suf; [|discriminate]. exists pre. simpl. rewrite app_nil_r. auto.
  - destruct suf as [|x rest]; [discriminate|]. injection Hk as Hk.
    cbn [length seq foldl].
    destruct (sort_inner_front pre rest x) as (m & mid' & Hf & Hle & Hp).
    rewrite Hf.
    assert (Hlen : length mid' = k).
    { apply Permutation_length in Hp. simpl in Hp. lia. }
    destruct (IH mid' (pre ++ [m])) as (out & Ho & Hso & Hpo).
    + exact Hlen.
    + apply StronglySorted_app_2; [| exact Hs | repeat constructor].
      intros a b Ha Hb. apply list_elem_of_singleton in Hb. subst b.
      assert (m ∈ x :: rest) by (rewrite <- Hp; left).
      specialize (Hd a m Ha H). lia.
    + intros a b Ha Hb. apply elem_of_app in Ha as [Ha|Ha].
      * apply (Hd a b Ha). rewrite <- Hp. right. exact Hb.
      * apply list_elem_of_singleton in Ha. subst a.
        rewrite Forall_forall in Hle. apply Hle. exact Hb.
    + exists out. split; [|split; [exact Hso|]].
      * rewrite <- Ho. rewrite <- !app_assoc. simpl.
        f_equal; [f_equal; rewrite !length_app; simpl; lia|].
        f_equal; [rewrite length_app; simpl; lia | lia].
      * rewrite Hpo. rewrite <- app_assoc. simpl. rewrite Hp. reflexivity.
Qed.

(** The two loops of [add_to_leaderboard] sort the array in descending
    order. *)
Lemma sort_desc_sorts (tmp : list Z) :
  StronglySorted Z.ge (sort_desc (length tmp) tmp) /\ sort_desc (length tmp) tmp ≡ₚ tmp.
Proof.
  destruct (sort_outer_split (length tmp) tmp [] eq_refl) as (out & Ho & Hs & Hp).
  - constructor.
  - intros x y Hx. apply elem_of_nil in Hx. contradiction.
  - unfold sort_desc. simpl in Ho. rewrite Ho. auto.
Qed.

End Leaderboard.

Section Record.

Import Full.

Lemma add_to_leaderboard_positive (sc : Z) (w : World) :
  (0 < sc)%Z ->
  add_to_leaderboard sc w =
  save_leaderboard
    (set_leaderboard
       (take LEADERBOARD_N
             (sort_desc (S LEADERBOARD_N) (take LEADERBOARD_N (leaderboard w) ++ [sc])))
       (set_record_calls (sc :: record_calls w) w)).
Proof.
  intros H. unfold add_to_leaderboard.
  destruct (Z.leb_spec sc 0); [lia|]. reflexivity.
Qed.

Lemma save_leaderboard_board (w : World) : leaderboard (save_leaderboard w) = leaderboard w.
Proof. unfold save_leaderboard. destruct (writable (disk w)); reflexivity. Qed.

Lemma save_leaderboard_file (w : World) :
  leaderboard_dat (disk (save_leaderboard w)) =
  if writable (disk w) then Some (leaderboard w) else leaderboard_dat (disk w).
Proof. unfold save_leaderboard. destruct (writable (disk w)); reflexivity. Qed.

Lemma StronglySorted_ge_last (l : list Z) (d : Z) :
  StronglySorted Z.ge (l ++ [d]) -> forall x, x ∈ l -> (d <= x)%Z.
Proof.
  intros Hs x Hx.
  pose proof (StronglySorted_app_1_elem_of Z.ge l [d] x d Hs Hx) as H.
  assert (d ∈ [d]) as Hd by (apply list_elem_of_singleton; reflexivity).
  specialize (H Hd). lia.
Qed.

(** C9.  For a positive score and a leaderboard of five entries,
    [add_to_leaderboard] leaves in memory the five largest entries, in
    descending order, of the multiset made of the five earlier entries and
    the score: the new list followed by the one entry it dropped is that
    multiset sorted.  The list is written to [leaderboard.dat] (when the file
    opens for writing), and the score is in the list exactly when it is at
    least as large as the last, smallest, entry kept. *)
Theorem C9_record_keeps_top_five :
  forall (sc : Z) (w : World),
    (0 < sc)%Z ->
    length (leaderboard w) = LEADERBOARD_N ->
    exists (dropped smallest : Z),
      length (leaderboard (add_to_leaderboard sc w)) = LEADERBOARD_N /\
      leaderboard (add_to_leaderboard sc w) ++ [dropped] ≡ₚ leaderboard w ++ [sc] /\
      StronglySorted Z.ge (leaderboard (add_to_leaderboard sc w) ++ [dropped]) /\
      leaderboard_dat (disk (add_to_leaderboard sc w)) =
        (if writable (disk w) then Some (leaderboard (add_to_leaderboard sc w))
         else leaderboard_dat (disk w)) /\
      last (leaderboard (add_to_leaderboard sc w)) = Some smallest /\
      (sc ∈ leaderboard (add_to_leaderboard sc w) <-> (smallest <= sc)%Z).
Proof.
  intros sc w Hsc Hlen.
  rewrite add_to_leaderboard_positive by exact Hsc.
  rewrite save_leaderboard_board, save_leaderboard_file. cbn [leaderboard disk set_leaderboard
    set_record_calls].
  rewrite (take_ge (leaderboard w)) by lia.
  set (tmp := leaderboard w ++ [sc]).
  assert (Htmp : length tmp = S LEADERBOARD_N).
  { unfold tmp. rewrite length_app. simpl. lia. }
  destruct (sort_desc_sorts tmp) as [Hs Hp]. rewrite Htmp in Hs, Hp.
  set (all := sort_desc (S LEADERBOARD_N) tmp) in *.
  assert (Hall : length all = S LEADERBOARD_N).
  { rewrite (Permutation_length Hp). exact Htmp. }
  assert (Hsplit : exists d, all = take LEADERBOARD_N all ++ [d]).
  { assert (Hd : length (drop LEADERBOARD_N all) = 1%nat) by (rewrite length_drop; lia).
    destruct (drop LEADERBOARD_N all) as [|d [|? ?]] eqn:Edrop; try discriminate.
    exists d. rewrite <- Edrop. symmetry. apply take_drop. }
  destruct Hsplit as [d Hd].
  set (top := take LEADERBOARD_N all) in *.
  assert (Htop : length top = LEADERBOARD_N).
  { unfold top. rewrite length_take. lia. }
  assert (Hlast : exists m, last top = Some m).
  { destruct (last top) as [m|] eqn:E; [eauto|].
    apply last_None in E. rewrite E in Htop. discriminate. }
  destruct Hlast as [m Hm].
  exists d, m. rewrite <- Hd.
  split; [exact Htop|]. split; [exact Hp|]. split; [exact Hs|].
  split; [destruct (writable (disk w)); reflexivity|]. split; [exact Hm|].
  rewrite Hd in Hs.
  assert (Hmtop : m ∈ top).
  { apply last_Some in Hm as [l' Hl']. rewrite Hl'. apply elem_of_app. right.
    apply list_elem_of_singleton. reflexivity. }
  assert (Hmin : forall x, x ∈ top -> (m <= x)%Z).
  { apply last_Some in Hm as [l' Hl']. rewrite Hl' in Hs |- *.
    intros x Hx. apply elem_of_app in Hx as [Hx|Hx].
    - apply StronglySorted_app_1_l in Hs.
      apply (StronglySorted_ge_last l' m Hs x Hx).
    - apply list_elem_of_singleton in Hx. lia. }
  split.
  - intros Hin. apply Hmin. exact Hin.
  - intros Hle.
    assert (Hin : sc ∈ all).
    { rewrite Hp. unfold tmp. apply elem_of_app. right.
      apply list_elem_of_singleton. reflexivity. }
    rewrite Hd in Hin. apply elem_of_app in Hin as [Hin|Hin]; [exact Hin|].
    apply list_elem_of_singleton in Hin. subst d.
    pose proof (StronglySorted_ge_last top sc Hs m Hmtop).
    assert (sc = m) by lia. subst sc. exact Hmtop.
Qed.

(** A positive score recorded on a full leaderboard. *)
Lemma C9_record_witness :
  exists (dropped smallest : Z),
    length (leaderboard (add_to_leaderboard 250 ranked_world)) = LEADERBOARD_N /\
    leaderboard (add_to_leaderboard 250 ranked_world) ++ [dropped]
      ≡ₚ leaderboard ranked_world ++ [250%Z] /\
    StronglySorted Z.ge (leaderboard (add_to_leaderboard 250 ranked_world) ++ [dropped]) /\
    leaderboard_dat (disk (add_to_leaderboard 250 ranked_world)) =
      (if writable (disk ranked_world)
       then Some (leaderboard (add_to_leaderboard 250 ranked_world))
       else leaderboard_dat (disk ranked_world)) /\
    last (leaderboard (add_to_leaderboard 250 ranked_world)) = Some smallest /\
    (250%Z ∈ leaderboard (add_to_leaderboard 250 ranked_world) <-> (smallest <= 250)%Z).
Proof.
  apply (C9_record_keeps_top_five 250 ranked_world); [lia | reflexivity].
Defined.

(** The run of the two loops on that leaderboard. *)
Example add_to_leaderboard_run :
  leaderboard (add_to_leaderboard 250 ranked_world) = [500; 400; 300; 250; 200]%Z.
Proof. reflexivity. Qed.

(** C10.  [add_to_leaderboard] called with a score that is zero or negative
    returns at once: the leaderboard in memory, the high score and every file
    are as before; only the call itself is on record.  A session that ends
    with such a score therefore leaves the leaderboard, in memory and on
    disk, as it was. *)
Theorem C10_record_nonpositive_is_noop :
  forall (sc : Z) (w : World),
    (sc <= 0)%Z ->
    add_to_leaderboard sc w = set_record_calls (sc :: record_calls w) w /\
    leaderboard (add_to_leaderboard sc w) = leaderboard w /\
    disk (add_to_leaderboard sc w) = disk w /\
    (score (game_state w) = sc ->
     leaderboard (finish_session w) = leaderboard w /\
     leaderboard_dat (disk (finish_session w)) = leaderboard_dat (disk w)).
Proof.
  intros sc w Hsc.
  assert (E : add_to_leaderboard sc w = set_record_calls (sc :: record_calls w) w).
  { unfold add_to_leaderboard. destruct (Z.leb_spec sc 0); [reflexivity|lia]. }
  rewrite E. split; [reflexivity|]. split; [reflexivity|]. split; [reflexivity|].
  intros Hscore. unfold finish_session. rewrite Hscore.
  destruct (sc >? high_score w)%Z.
  - assert (E' : forall w0, add_to_leaderboard sc w0 = set_record_calls (sc :: record_calls w0) w0).
    { intros w0. unfold add_to_leaderboard. destruct (Z.leb_spec sc 0); [reflexivity|lia]. }
    rewrite E'. unfold save_highscore. cbn [disk set_high_score].
    destruct (writable (disk w)); split; reflexivity.
  - rewrite E. split; reflexivity.
Qed.

(** A session that ends without a point. *)
Lemma C10_record_witness :
  add_to_leaderboard 0 ranked_world = set_record_calls (0%Z :: record_calls ranked_world) ranked_world /\
  leaderboard (add_to_leaderboard 0 ranked_world) = leaderboard ranked_world /\
  disk (add_to_leaderboard 0 ranked_world) = disk ranked_world /\
  (score (game_state ranked_world) = 0%Z ->
   leaderboard (finish_session ranked_world) = leaderboard ranked_world /\
   leaderboard_dat (disk (finish_session ranked_world)) = leaderboard_dat (disk ranked_world)).
Proof.
  apply (C10_record_nonpositive_is_noop 0 ranked_world). lia.
Defined.

End Record.

(** * Loops over the grid *)

Lemma foldl_indexed_invariant {A B : Type} (P : nat -> A -> Prop) (f : A -> B -> A) :
  forall (l : list B) (a : A),
    P 0%nat a ->
    (forall k a b, l !! k = Some b -> P k a -> P (S k) (f a b)) ->
    P (length l) (foldl f a l).
Proof.
  intros l. revert P. induction l as [|b l IH]; intros P a H0 Hstep; simpl; [exact H0|].
  apply (IH (fun k => P (S k))).
  - apply (Hstep 0%nat a b); [reflexivity | exact H0].
  - intros k a' b' Hk Hp. apply (Hstep (S k) a' b'); assumption.
Qed.

(** The two nested counted loops visit the cells of [grid] in order. *)
Lemma nested_loops_grid {A : Type} (f : nat -> nat -> A -> A) (a : A) :
  foldl (fun st r => foldl (fun st c => f r c st) st (seq 0 BRICK_COLUMNS)) a (seq 0 BRICK_ROWS) =
  foldl (fun st rc => f rc.1 rc.2 st) a grid.
Proof. reflexivity. Qed.

Lemma grid_length : length grid = BRICK_COUNT.
Proof. reflexivity. Qed.

Lemma grid_lookup (k r c : nat) :
  grid !! k = Some (r, c) ->
  brick_index r c = k /\ (r < BRICK_ROWS)%nat /\ (c < BRICK_COLUMNS)%nat /\ (k < BRICK_COUNT)%nat.
Proof.
  intros H.
  assert (Hk : (k < BRICK_COUNT)%nat).
  { apply lookup_lt_Some in H. exact H. }
  unfold BRICK_COUNT, BRICK_ROWS, BRICK_COLUMNS in *. simpl in Hk.
  do 84 (destruct k as [|k];
         [injection H as <- <-; unfold brick_index, BRICK_COLUMNS; simpl; lia|]).
  lia.
Qed.

Lemma grid_index (r c : nat) :
  (r < BRICK_ROWS)%nat -> (c < BRICK_COLUMNS)%nat -> grid !! brick_index r c = Some (r, c).
Proof.
  unfold BRICK_ROWS, BRICK_COLUMNS. intros Hr Hc.
  do 7 (destruct r as [|r]; [do 12 (destruct c as [|c]; [reflexivity|]); lia|]).
  lia.
Qed.

Lemma grid_cell (k : nat) :
  (k < BRICK_COUNT)%nat -> exists r c, grid !! k = Some (r, c).
Proof.
  intros Hk. rewrite <- grid_length in Hk.
  apply lookup_lt_is_Some in Hk as [[r c] H]. eauto.
Qed.

(** A loop over the grid that writes one brick per cell leaves, in each
    cell, a brick with the property the body of the loop gives it. *)
Lemma grid_writes {S B : Type} (get : S -> list B) (f : nat -> nat -> S -> S)
      (Q : nat -> nat -> B -> Prop) (s0 : S) :
  length (get s0) = BRICK_COUNT ->
  (forall r c s, exists b, get (f r c s) = <[brick_index r c := b]> (get s) /\ Q r c b) ->
  length (get (foldl (fun st rc => f rc.1 rc.2 st) s0 grid)) = BRICK_COUNT /\
  forall k r c, grid !! k = Some (r, c) ->
    exists b, get (foldl (fun st rc => f rc.1 rc.2 st) s0 grid) !! k = Some b /\ Q r c b.
Proof.
  intros Hlen Hf.
  pose (P := fun (k : nat) (s : S) =>
    length (get s) = BRICK_COUNT /\
    forall j r c, (j < k)%nat -> grid !! j = Some (r, c) ->
                  exists b, get s !! j = Some b /\ Q r c b).
  assert (HP : P (length grid) (foldl (fun st rc => f rc.1 rc.2 st) s0 grid)).
  { apply (foldl_indexed_invariant P).
    - split; [exact Hlen|]. intros j r c Hj. lia.
    - intros k s [r c] Hk [Hl Hprev]. simpl.
      destruct (Hf r c s) as (b & Hb & Hq).
      destruct (grid_lookup k r c Hk) as (Hidx & _ & _ & Hk84).
      rewrite Hidx in Hb. split.
      + rewrite Hb, length_insert. exact Hl.
      + intros j r' c' Hj Hj'. rewrite Hb.
        destruct (decide (j = k)) as [->|Hne].
        * rewrite Hk in Hj'. injection Hj' as <- <-.
          exists b. split; [|exact Hq]. apply list_lookup_insert_eq. lia.
        * rewrite list_lookup_insert_ne by auto. apply Hprev; [lia|exact Hj']. }
  destruct HP as [Hl Hall]. split; [exact Hl|].
  intros k r c Hk. apply Hall; [|exact Hk].
  apply lookup_lt_Some in Hk. exact Hk.
Qed.


(** Two lists that hold, cell by cell, values with the same image under two
    observations have the same image. *)
Lemma grid_images {B C D : Type} (f : B -> D) (g : C -> D) (h : nat -> nat -> D)
      (bs : list B) (cs : list C) :
  length bs = BRICK_COUNT -> length cs = BRICK_COUNT ->
  (forall k r c, grid !! k = Some (r, c) -> exists b, bs !! k = Some b /\ f b = h r c) ->
  (forall k r c, grid !! k = Some (r, c) -> exists b, cs !! k = Some b /\ g b = h r c) ->
  f <$> bs = g <$> cs.
Proof.
  intros Hb Hc Hfb Hgc. apply list_eq. intros k. rewrite !list_lookup_fmap.
  destruct (decide (k < BRICK_COUNT)%nat) as [Hk|Hk].
  - destruct (grid_cell k Hk) as (r & c & Hrc).
    destruct (Hfb k r c Hrc) as (b & -> & Hf). destruct (Hgc k r c Hrc) as (b' & -> & Hg).
    simpl. congruence.
  - rewrite (lookup_ge_None_2 bs k) by lia. rewrite (lookup_ge_None_2 cs k) by lia.
    reflexivity.
Qed.

Lemma foldl_indexed_invariant2 {A B : Type} (P : nat -> A -> A -> Prop) (f : A -> B -> A) :
  forall (l : list B) (a1 a2 : A),
    P 0%nat a1 a2 ->
    (forall k a1 a2 b, l !! k = Some b -> P k a1 a2 -> P (S k) (f a1 b) (f a2 b)) ->
    P (length l) (foldl f a1 l) (foldl f a2 l).
Proof.
  intros l. revert P. induction l as [|b l IH]; intros P a1 a2 H0 Hstep; simpl; [exact H0|].
  apply (IH (fun k => P (S k))).
  - apply (Hstep 0%nat a1 a2 b); [reflexivity | exact H0].
  - intros k a1' a2' b' Hk Hp. apply (Hstep (S k) a1' a2' b'); assumption.
Qed.

Lemma take_S_insert {A : Type} (l : list A) (k : nat) (x : A) :
  (k < length l)%nat -> take (S k) (<[k := x]> l) = take k l ++ [x].
Proof.
  intros H. rewrite (take_S_r _ k x) by (apply list_lookup_insert_eq; lia).
  rewrite take_insert_ge by lia. reflexivity.
Qed.

(** * [arkanoid_full.c]: levels *)

Section FullLevels.

Import Full.

Lemma count_alive_bounds (bs : list Brick) :
  (0 <= count_alive bs <= Z.of_nat (length bs))%Z.
Proof. induction bs as [|b bs IH]; simpl; [lia|]. destruct (is_alive b); lia. Qed.

Lemma count_alive_insert_dead (bs : list Brick) :
  forall (k : nat) (b b' : Brick),
    bs !! k = Some b -> is_alive b = true -> is_alive b' = false ->
    count_alive (<[k := b']> bs) = (count_alive bs - 1)%Z.
Proof.
  induction bs as [|a bs IH]; intros k b b' Hk Ha Hd; [discriminate|].
  destruct k as [|k]; simpl in *.
  - injection Hk as ->. rewrite Ha, Hd. lia.
  - rewrite (IH k b b' Hk Ha Hd). lia.
Qed.

Lemma count_alive_pointwise (g : nat -> nat -> bool) (cells : list (nat * nat)) :
  forall bs : list Brick,
    length bs = length cells ->
    (forall k r c, cells !! k = Some (r, c) ->
                   exists b, bs !! k = Some b /\ is_alive b = g r c) ->
    count_alive bs = count_cells g cells.
Proof.
  induction cells as [|[r c] cells IH]; intros bs Hlen H.
  - destruct bs; [reflexivity|discriminate].
  - destruct bs as [|b bs]; [discriminate|]. simpl.
    destruct (H 0%nat r c eq_refl) as (b0 & Hb0 & Ha). injection Hb0 as <-.
    rewrite Ha. f_equal. apply IH.
    + simpl in Hlen. lia.
    + intros k r' c' Hk. apply (H (S k) r' c' Hk).
Qed.

Lemma count_cells_bounds (g : nat -> nat -> bool) (cells : list (nat * nat)) :
  (0 <= count_cells g cells <= Z.of_nat (length cells))%Z.
Proof.
  induction cells as [|[r c] cells IH]; simpl; [lia|]. destruct (g r c); lia.
Qed.

(** ** The procedural layout *)

Lemma fallback_cell_writes (lvl : Z) (r c : nat) (st : World * Z) :
  exists b,
    bricks (fallback_cell lvl r c st).1 = <[brick_index r c := b]> (bricks st.1) /\
    (brick_rect b = cell_rect r c /\ is_alive b = cell_filled r c lvl /\
     color_index b = cell_color r c lvl).
Proof.
  destruct st as [w n]. unfold fallback_cell.
  destruct (cell_filled r c lvl); simpl; eexists; split; try reflexivity; simpl; auto.
Qed.

Lemma fallback_cell_outside (lvl : Z) (r c : nat) (st : World * Z) :
  same_outside_level st.1 (fallback_cell lvl r c st).1 /\
  game_state (fallback_cell lvl r c st).1 = game_state st.1.
Proof.
  destruct st as [w n]. unfold fallback_cell, same_outside_level.
  destruct (cell_filled r c lvl); simpl; tauto.
Qed.

Lemma fallback_count (lvl : Z) (cells : list (nat * nat)) :
  forall (w : World) (n : Z),
    (foldl (fun st rc => fallback_cell lvl rc.1 rc.2 st) (w, n) cells).2 =
    (n + count_cells (fun r c => cell_filled r c lvl) cells)%Z.
Proof.
  induction cells as [|[r c] cells IH]; intros w n; simpl; [lia|].
  destruct (cell_filled r c lvl); simpl; rewrite IH; lia.
Qed.

Lemma fallback_layout_spec (lvl : Z) (w : World) :
  length (bricks w) = BRICK_COUNT ->
  length (bricks (fallback_layout lvl w)) = BRICK_COUNT /\
  (forall k r c, grid !! k = Some (r, c) ->
     exists b, bricks (fallback_layout lvl w) !! k = Some b /\
               (brick_rect b = cell_rect r c /\ is_alive b = cell_filled r c lvl /\
                color_index b = cell_color r c lvl)) /\
  game_state (fallback_layout lvl w) =
    set_bricks_remaining (count_cells (fun r c => cell_filled r c lvl) grid) (game_state w) /\
  same_outside_level w (fallback_layout lvl w).
Proof.
  intros Hlen. unfold fallback_layout. rewrite nested_loops_grid.
  pose proof (grid_writes (fun st : World * Z => bricks st.1) (fallback_cell lvl)
                (fun r c b => brick_rect b = cell_rect r c /\
                              is_alive b = cell_filled r c lvl /\
                              color_index b = cell_color r c lvl)
                (w, 0%Z) Hlen (fallback_cell_writes lvl)) as [Hl Hcells].
  pose proof (fallback_count lvl grid w 0) as Hcnt.
  assert (Hout : same_outside_level w
            (foldl (fun st rc => fallback_cell lvl rc.1 rc.2 st) (w, 0%Z) grid).1 /\
          game_state (foldl (fun st rc => fallback_cell lvl rc.1 rc.2 st) (w, 0%Z) grid).1 =
          game_state w).
  { apply (foldl_invariant
             (fun st : World * Z => same_outside_level w st.1 /\ game_state st.1 = game_state w)).
    - unfold same_outside_level. simpl. tauto.
    - intros st rc [Hs Hg]. destruct (fallback_cell_outside lvl rc.1 rc.2 st) as [Hs' Hg'].
      unfold same_outside_level in *. rewrite Hg'. intuition congruence. }
  destruct (foldl (fun st rc => fallback_cell lvl rc.1 rc.2 st) (w, 0%Z) grid) as [w' n].
  cbn [fst snd] in *. destruct Hout as [Hout Hg].
  split; [exact Hl|]. split; [exact Hcells|]. split.
  - rewrite Hg, Hcnt, Z.add_0_l. reflexivity.
  - unfold same_outside_level in *. cbn [paddle ball collectibles high_score leaderboard disk
      record_calls set_game_state]. tauto.
Qed.

(** ** Level files *)

Lemma file_cell_shape (line : option string) (r c : nat) (lvl : Z) :
  brick_rect (file_cell line r c lvl) = cell_rect r c /\
  color_index (file_cell line r c lvl) = cell_color r c lvl.
Proof.
  unfold file_cell. destruct line as [ln|]; [|auto].
  repeat case_if; auto.
Qed.

Lemma load_level_from_file_absent (lvl : Z) (w : World) :
  level_txt (disk w) lvl = None -> load_level_from_file lvl w = (false, w).
Proof. intros H. unfold load_level_from_file. rewrite H. reflexivity. Qed.

Lemma load_level_from_file_spec (lvl : Z) (w : World) (lines : list string) :
  level_txt (disk w) lvl = Some lines ->
  length (bricks w) = BRICK_COUNT ->
  exists w',
    load_level_from_file lvl w = (true, w') /\
    length (bricks w') = BRICK_COUNT /\
    (forall k r c, grid !! k = Some (r, c) ->
       exists b, bricks w' !! k = Some b /\
                 (brick_rect b = cell_rect r c /\ color_index b = cell_color r c lvl)) /\
    game_state w' = set_bricks_remaining (count_alive (bricks w')) (game_state w) /\
    same_outside_level w w' /\ rand_stream w' = rand_stream w.
Proof.
  intros Hfile Hlen. unfold load_level_from_file. rewrite Hfile.
  rewrite (nested_loops_grid
             (fun r c (bs : list Brick) =>
                <[brick_index r c := file_cell (lines !! r) r c lvl]> bs)).
  pose proof (grid_writes (fun bs : list Brick => bs)
                (fun r c (bs : list Brick) =>
                   <[brick_index r c := file_cell (lines !! r) r c lvl]> bs)
                (fun r c b => brick_rect b = cell_rect r c /\ color_index b = cell_color r c lvl)
                (bricks w) Hlen) as Hw.
  destruct Hw as [Hl Hcells].
  { intros r c bs. eexists. split; [reflexivity|]. apply file_cell_shape. }
  eexists. split; [reflexivity|]. cbn [bricks game_state set_game_state set_bricks].
  split; [exact Hl|]. split; [exact Hcells|]. split.
  - rewrite take_ge; [reflexivity|]. rewrite Hl. unfold BRICK_COUNT. lia.
  - unfold same_outside_level. simpl. tauto.
Qed.

(** ** [reset_level] *)

Lemma reset_level_spec (lvl : Z) (w : World) :
  length (bricks w) = BRICK_COUNT ->
  length (bricks (reset_level lvl w)) = BRICK_COUNT /\
  (forall k r c, grid !! k = Some (r, c) ->
     exists b, bricks (reset_level lvl w) !! k = Some b /\
               (brick_rect b = cell_rect r c /\ color_index b = cell_color r c lvl)) /\
  game_state (reset_level lvl w) =
    set_bricks_remaining (count_alive (bricks (reset_level lvl w))) (game_state w) /\
  paddle (reset_level lvl w) = reset_paddle (paddle w) /\
  ball (reset_level lvl w) = reset_ball (reset_paddle (paddle w)) (ball w) /\
  high_score (reset_level lvl w) = high_score w /\
  leaderboard (reset_level lvl w) = leaderboard w /\
  disk (reset_level lvl w) = disk w /\
  record_calls (reset_level lvl w) = record_calls w.
Proof.
  intros Hlen. unfold reset_level.
  destruct (level_txt (disk w) lvl) as [lines|] eqn:Hfile.
  - destruct (load_level_from_file_spec lvl w lines Hfile Hlen)
      as (w' & -> & Hl & Hcells & Hg & Hout & _).
    unfold same_outside_level in Hout. cbn.
    destruct Hout as (-> & -> & _ & -> & -> & -> & ->).
    repeat split; try assumption; try reflexivity.
  - rewrite (load_level_from_file_absent lvl w Hfile).
    destruct (fallback_layout_spec lvl w Hlen) as (Hl & Hcells & Hg & Hout).
    unfold same_outside_level in Hout. cbn.
    destruct Hout as (-> & -> & _ & -> & -> & -> & ->).
    split; [exact Hl|]. split.
    { intros k r c Hk. destruct (Hcells k r c Hk) as (b & Hb & Hr & _ & Hc). eauto. }
    split.
    { rewrite Hg. f_equal. symmetry. apply count_alive_pointwise.
      - rewrite Hl, grid_length. reflexivity.
      - intros k r c Hk. destruct (Hcells k r c Hk) as (b & Hb & _ & Ha & _). eauto. }
    repeat split; reflexivity.
Qed.

End FullLevels.

(** * The procedural layout is a function of the level, up to [rand()] *)

Section Layout.

Import Full.

(** Two runs of the procedural loops that read the same values from
    [rand()] write the same bricks. *)
Lemma fallback_layout_same_rand (lvl : Z) (w1 w2 : World) :
  rand_stream w1 = rand_stream w2 ->
  length (bricks w1) = BRICK_COUNT -> length (bricks w2) = BRICK_COUNT ->
  bricks (fallback_layout lvl w1) = bricks (fallback_layout lvl w2).
Proof.
  intros Hr H1 H2. unfold fallback_layout. rewrite !nested_loops_grid.
  pose (P := fun (k : nat) (s1 s2 : World * Z) =>
    rand_stream s1.1 = rand_stream s2.1 /\
    length (bricks s1.1) = BRICK_COUNT /\ length (bricks s2.1) = BRICK_COUNT /\
    take k (bricks s1.1) = take k (bricks s2.1)).
  assert (HP : P (length grid)
                 (foldl (fun st rc => fallback_cell lvl rc.1 rc.2 st) (w1, 0%Z) grid)
                 (foldl (fun st rc => fallback_cell lvl rc.1 rc.2 st) (w2, 0%Z) grid)).
  { apply (foldl_indexed_invariant2 P).
    - unfold P. cbn [fst snd]. auto.
    - intros k [s1 n1] [s2 n2] [r c] Hk (Hrs & Hl1 & Hl2 & Ht).
      destruct (grid_lookup k r c Hk) as (Hidx & _ & _ & Hk84).
      unfold P, fallback_cell. cbn [fst snd] in *. rewrite Hidx.
      destruct (cell_filled r c lvl);
        cbn [fst snd rand bricks rand_stream set_bricks set_rand_stream];
        rewrite !length_insert;
        (split; [try rewrite Hrs; reflexivity|]); (split; [exact Hl1|]);
        (split; [exact Hl2|]);
        rewrite !take_S_insert by lia; rewrite Ht; try rewrite Hrs; reflexivity. }
  destruct (foldl (fun st rc => fallback_cell lvl rc.1 rc.2 st) (w1, 0%Z) grid) as [s1 n1].
  destruct (foldl (fun st rc => fallback_cell lvl rc.1 rc.2 st) (w2, 0%Z) grid) as [s2 n2].
  destruct HP as (_ & Hl1 & Hl2 & Ht). cbn [fst snd bricks set_game_state] in *.
  rewrite grid_length in Ht.
  rewrite !take_ge in Ht by lia. exact Ht.
Qed.

Lemma reset_level_bricks_absent (lvl : Z) (w : World) :
  level_txt (disk w) lvl = None ->
  bricks (reset_level lvl w) = bricks (fallback_layout lvl w) /\
  game_state (reset_level lvl w) = game_state (fallback_layout lvl w).
Proof.
  intros H. unfold reset_level. rewrite (load_level_from_file_absent lvl w H).
  split; reflexivity.
Qed.

Lemma modular_reset_cell_writes (lvl : Z) (row col : nat) (st : list Modular.Brick * Z) :
  exists b,
    (Modular.reset_cell lvl row col st).1 = <[brick_index row col := b]> st.1 /\
    (Modular.r b = cell_rect row col /\ Modular.alive b = cell_filled row col lvl /\
     Modular.colorIdx b =
       Z.rem (wrap32 (Z.of_nat row + Z.of_nat col + lvl)) 8).
Proof.
  destruct st as [bs n]. unfold Modular.reset_cell.
  destruct (bs !! brick_index row col) as [b|] eqn:E.
  - simpl. eexists. split; [reflexivity|]. simpl. auto.
  - simpl.
    exists (Modular.mkBrick (cell_rect row col) 0 0 (cell_filled row col lvl)
              (Z.rem (wrap32 (Z.of_nat row + Z.of_nat col + lvl)) 8)).
    split; [|simpl; auto].
    symmetry. apply list_insert_ge. apply lookup_ge_None. exact E.
Qed.

Lemma modular_resetLevel_spec (lvl : Z) (w : Modular.World) :
  length (Modular.gBricks w) = BRICK_COUNT ->
  length (Modular.gBricks (Modular.resetLevel lvl w)) = BRICK_COUNT /\
  forall k r c, grid !! k = Some (r, c) ->
    exists b, Modular.gBricks (Modular.resetLevel lvl w) !! k = Some b /\
              (Modular.r b = cell_rect r c /\ Modular.alive b = cell_filled r c lvl /\
               Modular.colorIdx b = Z.rem (wrap32 (Z.of_nat r + Z.of_nat c + lvl)) 8).
Proof.
  intros Hlen. unfold Modular.resetLevel. rewrite nested_loops_grid.
  pose proof (grid_writes (fun st : list Modular.Brick * Z => st.1) (Modular.reset_cell lvl)
                (fun r c b => Modular.r b = cell_rect r c /\
                              Modular.alive b = cell_filled r c lvl /\
                              Modular.colorIdx b =
                                Z.rem (wrap32 (Z.of_nat r + Z.of_nat c + lvl)) 8)
                (Modular.gBricks w, 0%Z) Hlen (modular_reset_cell_writes lvl)) as Hw.
  destruct (foldl (fun st rc => Modular.reset_cell lvl rc.1 rc.2 st)
                  (Modular.gBricks w, 0%Z) grid) as [bs n].
  exact Hw.
Qed.

(** C8, as the code has it.  When no level file is present, the rectangles,
    the alive flags and the color indices of the bricks that [reset_level]
    leaves, and the count of live bricks, are a function of the level number
    alone: each cell [(r, c)] is alive exactly when [level <= 1] or
    [(r + c + level) % (1 + level / 2) != 0], and its color is
    [(r + c + level) % 10].  The special flag of a live brick is
    [rand() % 18 == 0]: two runs leave the same bricks, special flags
    included, when [rand()] returns the same values in both.  [resetLevel] of
    the modular variant, which has no special flag and never calls [rand()],
    leaves rectangles, alive flags and color indices that depend on the level
    alone. *)
Theorem C8_fallback_layout_deterministic :
  forall (lvl : Z) (w1 w2 : World) (m1 m2 : Modular.World),
    level_txt (disk w1) lvl = None -> level_txt (disk w2) lvl = None ->
    length (bricks w1) = BRICK_COUNT -> length (bricks w2) = BRICK_COUNT ->
    length (Modular.gBricks m1) = BRICK_COUNT -> length (Modular.gBricks m2) = BRICK_COUNT ->
    is_alive <$> bricks (reset_level lvl w1) = (fun rc => cell_filled rc.1 rc.2 lvl) <$> grid /\
    is_alive <$> bricks (reset_level lvl w1) = is_alive <$> bricks (reset_level lvl w2) /\
    color_index <$> bricks (reset_level lvl w1) = color_index <$> bricks (reset_level lvl w2) /\
    brick_rect <$> bricks (reset_level lvl w1) = brick_rect <$> bricks (reset_level lvl w2) /\
    bricks_remaining (game_state (reset_level lvl w1)) =
      bricks_remaining (game_state (reset_level lvl w2)) /\
    (rand_stream w1 = rand_stream w2 ->
     bricks (reset_level lvl w1) = bricks (reset_level lvl w2)) /\
    Modular.alive <$> Modular.gBricks (Modular.resetLevel lvl m1) =
      Modular.alive <$> Modular.gBricks (Modular.resetLevel lvl m2) /\
    Modular.colorIdx <$> Modular.gBricks (Modular.resetLevel lvl m1) =
      Modular.colorIdx <$> Modular.gBricks (Modular.resetLevel lvl m2) /\
    Modular.r <$> Modular.gBricks (Modular.resetLevel lvl m1) =
      Modular.r <$> Modular.gBricks (Modular.resetLevel lvl m2).
Proof.
  intros lvl w1 w2 m1 m2 Hf1 Hf2 Hl1 Hl2 Hm1 Hm2.
  destruct (reset_level_bricks_absent lvl w1 Hf1) as [-> ->].
  destruct (reset_level_bricks_absent lvl w2 Hf2) as [-> ->].
  destruct (fallback_layout_spec lvl w1 Hl1) as (Hn1 & Hc1 & Hg1 & _).
  destruct (fallback_layout_spec lvl w2 Hl2) as (Hn2 & Hc2 & Hg2 & _).
  destruct (modular_resetLevel_spec lvl m1 Hm1) as (Hmn1 & Hmc1).
  destruct (modular_resetLevel_spec lvl m2 Hm2) as (Hmn2 & Hmc2).
  repeat split.
  - apply (grid_images is_alive (fun rc : nat * nat => cell_filled rc.1 rc.2 lvl)
             (fun r c => cell_filled r c lvl)); auto using grid_length.
    + intros k r c Hk. destruct (Hc1 k r c Hk) as (b & Hb & _ & Ha & _). eauto.
    + intros k r c Hk. exists (r, c). auto.
  - apply (grid_images is_alive is_alive (fun r c => cell_filled r c lvl)); auto.
    + intros k r c Hk. destruct (Hc1 k r c Hk) as (b & Hb & _ & Ha & _). eauto.
    + intros k r c Hk. destruct (Hc2 k r c Hk) as (b & Hb & _ & Ha & _). eauto.
  - apply (grid_images color_index color_index (fun r c => cell_color r c lvl)); auto.
    + intros k r c Hk. destruct (Hc1 k r c Hk) as (b & Hb & _ & _ & Ha). eauto.
    + intros k r c Hk. destruct (Hc2 k r c Hk) as (b & Hb & _ & _ & Ha). eauto.
  - apply (grid_images brick_rect brick_rect cell_rect); auto.
    + intros k r c Hk. destruct (Hc1 k r c Hk) as (b & Hb & Ha & _). eauto.
    + intros k r c Hk. destruct (Hc2 k r c Hk) as (b & Hb & Ha & _). eauto.
  - rewrite Hg1, Hg2. reflexivity.
  - intros Hr. apply fallback_layout_same_rand; assumption.
  - apply (grid_images Modular.alive Modular.alive (fun r c => cell_filled r c lvl)); auto.
    + intros k r c Hk. destruct (Hmc1 k r c Hk) as (b & Hb & _ & Ha & _). eauto.
    + intros k r c Hk. destruct (Hmc2 k r c Hk) as (b & Hb & _ & Ha & _). eauto.
  - apply (grid_images Modular.colorIdx Modular.colorIdx
             (fun r c => Z.rem (wrap32 (Z.of_nat r + Z.of_nat c + lvl)) 8)); auto.
    + intros k r c Hk. destruct (Hmc1 k r c Hk) as (b & Hb & _ & _ & Ha). eauto.
    + intros k r c Hk. destruct (Hmc2 k r c Hk) as (b & Hb & _ & _ & Ha). eauto.
  - apply (grid_images Modular.r Modular.r cell_rect); auto.
    + intros k r c Hk. destruct (Hmc1 k r c Hk) as (b & Hb & Ha & _). eauto.
    + intros k r c Hk. destruct (Hmc2 k r c Hk) as (b & Hb & Ha & _). eauto.
Qed.

(** Level 2 without a level file, from two start-up states. *)
Lemma C8_layout_witness :
  is_alive <$> bricks (reset_level 2 lucky_world) =
  is_alive <$> bricks (reset_level 2 plain_world).
Proof.
  exact (proj1 (proj2 (C8_fallback_layout_deterministic 2 lucky_world plain_world
                         modular_boot modular_boot
                         eq_refl eq_refl eq_refl eq_refl eq_refl eq_refl))).
Defined.

(** Two runs of [reset_level] for level 1, without a level file, from states
    that differ only in what [rand()] returns: every brick is special in the
    first, none in the second. *)
Lemma C8_special_flags_differ :
  level_txt (disk lucky_world) 1 = None /\
  level_txt (disk plain_world) 1 = None /\
  set_rand_stream (rand_stream plain_world) lucky_world = plain_world /\
  special <$> bricks (reset_level 1 lucky_world) = replicate BRICK_COUNT true /\
  special <$> bricks (reset_level 1 plain_world) = replicate BRICK_COUNT false.
Proof.
  split; [reflexivity|]. split; [reflexivity|]. split; [reflexivity|].
  split; vm_compute; reflexivity.
Qed.

End Layout.

(** * [arkanoid_full.c]: the scan of the bricks *)

Section FullEngine.

Import Full.

Ltac wproj :=
  cbn [paddle ball bricks game_state collectibles high_score leaderboard rand_stream disk
       record_calls set_paddle set_ball set_bricks set_game_state set_collectibles
       set_high_score set_leaderboard set_rand_stream set_disk set_record_calls
       clamp_paddle_position].

Ltac gproj :=
  cbn [score lives level bricks_remaining is_paused is_running show_menu set_score set_lives
       set_level set_bricks_remaining end_session].

Ltac frame_trivial :=
  repeat (split; [reflexivity|]); try reflexivity; try (intros; split; assumption).

Lemma brick_hit_fields (r c : nat) (b : Brick) (w : World) :
  paddle (brick_hit r c b w) = paddle w /\
  ball (brick_hit r c b w) =
    set_speed (speed (resolve_brick (ball w) (brick_rect b)) * (1015 / 1000))
              (resolve_brick (ball w) (brick_rect b)) /\
  bricks (brick_hit r c b w) = <[brick_index r c := destroyed b]> (bricks w) /\
  game_state (brick_hit r c b w) =
    set_score (wrap32 (score (game_state w) + 10))
              (set_bricks_remaining (wrap32 (bricks_remaining (game_state w) - 1))
                                    (game_state w)) /\
  high_score (brick_hit r c b w) = high_score w /\
  leaderboard (brick_hit r c b w) = leaderboard w /\
  disk (brick_hit r c b w) = disk w /\
  record_calls (brick_hit r c b w) = record_calls w.
Proof.
  unfold brick_hit, add_score_for_brick, destroyed.
  destruct (special b) eqn:Hs; cbn; rewrite ?list_insert_insert_eq, ?Hs; repeat split; reflexivity.
Qed.

(** The scan of the columns [c0 .. c0 + n - 1] of the row [r]. *)
Lemma scan_cols_spec (r : nat) (w : World) (n : nat) :
  forall c0 : nat,
    match scan_cols r (seq c0 n) w with
    | Some w' =>
        exists c b,
          (c0 <= c < c0 + n)%nat /\
          (forall c', (c0 <= c' < c)%nat ->
                      hits (ball_rect (ball w)) (bricks w) (brick_index r c') = false) /\
          bricks w !! brick_index r c = Some b /\ is_alive b = true /\
          rect_overlap (ball_rect (ball w)) (brick_rect b) = true /\
          w' = brick_hit r c b w
    | None =>
        forall c', (c0 <= c' < c0 + n)%nat ->
                   hits (ball_rect (ball w)) (bricks w) (brick_index r c') = false
    end.
Proof.
  induction n as [|n IH]; intros c0; cbn [seq scan_cols].
  - intros c' Hc'. lia.
  - specialize (IH (S c0)).
    assert (Hstep : hits (ball_rect (ball w)) (bricks w) (brick_index r c0) = false ->
      match scan_cols r (seq (S c0) n) w with
      | Some w' =>
          exists c b,
            (c0 <= c < c0 + S n)%nat /\
            (forall c', (c0 <= c' < c)%nat ->
                        hits (ball_rect (ball w)) (bricks w) (brick_index r c') = false) /\
            bricks w !! brick_index r c = Some b /\ is_alive b = true /\
            rect_overlap (ball_rect (ball w)) (brick_rect b) = true /\
            w' = brick_hit r c b w
      | None =>
          forall c', (c0 <= c' < c0 + S n)%nat ->
                     hits (ball_rect (ball w)) (bricks w) (brick_index r c') = false
      end).
    { intros Hmiss. destruct (scan_cols r (seq (S c0) n) w) as [w'|].
      - destruct IH as (c & b & Hc & Hpre & Hb & Ha & Ho & Hw).
        exists c, b. split; [lia|]. split; [|auto].
        intros c' Hc'. destruct (decide (c' = c0)) as [->|Hne]; [exact Hmiss|].
        apply Hpre. lia.
      - intros c' Hc'. destruct (decide (c' = c0)) as [->|Hne]; [exact Hmiss|].
        apply IH. lia. }
    destruct (bricks w !! brick_index r c0) as [b|] eqn:Hb.
    + destruct (is_alive b) eqn:Ha; cbn [negb].
      * destruct (rect_overlap (ball_rect (ball w)) (brick_rect b)) eqn:Ho.
        -- exists c0, b. split; [lia|]. split; [intros c' Hc'; lia|]. auto.
        -- apply Hstep. unfold hits. rewrite Hb, Ha, Ho. reflexivity.
      * apply Hstep. unfold hits. rewrite Hb, Ha. reflexivity.
    + apply Hstep. unfold hits. rewrite Hb. reflexivity.
Qed.

(** The scan of the rows [r0 .. r0 + n - 1]. *)
Lemma scan_rows_spec (w : World) (n : nat) :
  forall r0 : nat,
    match scan_rows (seq r0 n) w with
    | Some w' =>
        exists r c b,
          (r0 <= r < r0 + n)%nat /\ (c < BRICK_COLUMNS)%nat /\
          (forall r' c', (r0 <= r' < r)%nat -> (c' < BRICK_COLUMNS)%nat ->
                         hits (ball_rect (ball w)) (bricks w) (brick_index r' c') = false) /\
          (forall c', (c' < c)%nat ->
                      hits (ball_rect (ball w)) (bricks w) (brick_index r c') = false) /\
          bricks w !! brick_index r c = Some b /\ is_alive b = true /\
          rect_overlap (ball_rect (ball w)) (brick_rect b) = true /\
          w' = brick_hit r c b w
    | None =>
        forall r' c', (r0 <= r' < r0 + n)%nat -> (c' < BRICK_COLUMNS)%nat ->
                      hits (ball_rect (ball w)) (bricks w) (brick_index r' c') = false
    end.
Proof.
  induction n as [|n IH]; intros r0; cbn [seq scan_rows].
  - intros r' c' Hr'. lia.
  - pose proof (scan_cols_spec r0 w BRICK_COLUMNS 0) as Hcols.
    destruct (scan_cols r0 (seq 0 BRICK_COLUMNS) w) as [w'|].
    + destruct Hcols as (c & b & Hc & Hpre & Hb & Ha & Ho & Hw).
      exists r0, c, b. split; [lia|]. split; [lia|]. split; [intros r' c' Hr'; lia|].
      split; [intros c' Hc'; apply Hpre; lia|]. auto.
    + specialize (IH (S r0)). destruct (scan_rows (seq (S r0) n) w) as [w'|].
      * destruct IH as (r & c & b & Hr & Hc & Hrows & Hpre & Hb & Ha & Ho & Hw).
        exists r, c, b. split; [lia|]. split; [exact Hc|]. split; [|auto].
        intros r' c' Hr' Hc'. destruct (decide (r' = r0)) as [->|Hne].
        -- apply Hcols. lia.
        -- apply Hrows; [lia|exact Hc'].
      * intros r' c' Hr' Hc'. destruct (decide (r' = r0)) as [->|Hne].
        -- apply Hcols. lia.
        -- apply IH; [lia|exact Hc'].
Qed.

Lemma hits_beyond (rb : RectF) (bs : list Brick) (k : nat) :
  (length bs <= k)%nat -> hits rb bs k = false.
Proof. intros H. unfold hits. rewrite lookup_ge_None_2 by exact H. reflexivity. Qed.

Lemma brick_index_lt (r c r' c' : nat) :
  (c < BRICK_COLUMNS)%nat -> (c' < BRICK_COLUMNS)%nat ->
  (brick_index r' c' < brick_index r c)%nat ->
  (r' < r)%nat \/ (r' = r /\ (c' < c)%nat).
Proof. unfold brick_index, BRICK_COLUMNS. intros Hc Hc' H. nia. Qed.

(** The brick block of the step: nothing happens when the ball overlaps no
    live brick; otherwise the overlapping live brick of least index in the
    array, that is the first in row-major order, is the one hit. *)
Lemma brick_collision_cases (w : World) :
  length (bricks w) = BRICK_COUNT -> is_held (ball w) = false ->
  (brick_collision w = w /\
   forall k, hits (ball_rect (ball w)) (bricks w) k = false) \/
  (exists k r c b,
     grid !! k = Some (r, c) /\ bricks w !! k = Some b /\ is_alive b = true /\
     rect_overlap (ball_rect (ball w)) (brick_rect b) = true /\
     (forall j, (j < k)%nat -> hits (ball_rect (ball w)) (bricks w) j = false) /\
     brick_collision w = brick_hit r c b w).
Proof.
  intros Hlen Hheld. unfold brick_collision. rewrite Hheld. cbn [negb].
  pose proof (scan_rows_spec w BRICK_ROWS 0) as Hscan.
  destruct (scan_rows (seq 0 BRICK_ROWS) w) as [w'|].
  - right. destruct Hscan as (r & c & b & Hr & Hc & Hrows & Hpre & Hb & Ha & Ho & Hw).
    exists (brick_index r c), r, c, b.
    split; [apply grid_index; lia|]. split; [exact Hb|]. split; [exact Ha|].
    split; [exact Ho|]. split; [|exact Hw].
    intros j Hj.
    assert (Hj84 : (j < BRICK_COUNT)%nat).
    { apply lookup_lt_Some in Hb. lia. }
    destruct (grid_cell j Hj84) as (r' & c' & Hcell).
    destruct (grid_lookup j r' c' Hcell) as (Hidx & Hr' & Hc' & _).
    rewrite <- Hidx in Hj |- *.
    destruct (brick_index_lt r c r' c' Hc Hc' Hj) as [Hlt|[-> Hlt]].
    + apply Hrows; [lia|exact Hc'].
    + apply Hpre. exact Hlt.
  - left. split; [reflexivity|]. intros k.
    destruct (decide (k < BRICK_COUNT)%nat) as [Hk|Hk].
    + destruct (grid_cell k Hk) as (r & c & Hcell).
      destruct (grid_lookup k r c Hcell) as (Hidx & Hr & Hc & _).
      rewrite <- Hidx. apply Hscan; [lia|exact Hc].
    + apply hits_beyond. lia.
Qed.

(** * [arkanoid_full.c]: what each block of the step touches *)


Lemma before_bricks_fields (dt : R) (w : World) :
  paddle (before_bricks dt w) = paddle w /\
  bricks (before_bricks dt w) = bricks w /\
  game_state (before_bricks dt w) = game_state w /\
  collectibles (before_bricks dt w) = collectibles w /\
  high_score (before_bricks dt w) = high_score w /\
  leaderboard (before_bricks dt w) = leaderboard w /\
  disk (before_bricks dt w) = disk w /\
  record_calls (before_bricks dt w) = record_calls w /\
  ball (before_bricks dt w) =
    paddle_collision BALL_SPEED_GROWTH (paddle w)
      (wall_collision (move_ball dt (paddle w) (ball w))).
Proof. unfold before_bricks. cbn. repeat split; reflexivity. Qed.

Lemma add_to_leaderboard_fields (sc : Z) (w : World) :
  paddle (add_to_leaderboard sc w) = paddle w /\
  ball (add_to_leaderboard sc w) = ball w /\
  bricks (add_to_leaderboard sc w) = bricks w /\
  game_state (add_to_leaderboard sc w) = game_state w /\
  collectibles (add_to_leaderboard sc w) = collectibles w /\
  high_score (add_to_leaderboard sc w) = high_score w /\
  record_calls (add_to_leaderboard sc w) = sc :: record_calls w.
Proof.
  unfold add_to_leaderboard, save_leaderboard.
  repeat case_if; cbn; repeat split; reflexivity.
Qed.

Lemma finish_session_fields (w : World) :
  paddle (finish_session w) = paddle w /\
  ball (finish_session w) = ball w /\
  bricks (finish_session w) = bricks w /\
  game_state (finish_session w) = end_session (game_state w) /\
  collectibles (finish_session w) = collectibles w /\
  record_calls (finish_session w) = score (game_state w) :: record_calls w.
Proof.
  unfold finish_session.
  set (sc := score (game_state w)).
  set (w1 := if (sc >? high_score w)%Z then save_highscore (set_high_score sc w) else w).
  assert (H1 : paddle w1 = paddle w /\ ball w1 = ball w /\ bricks w1 = bricks w /\
               game_state w1 = game_state w /\ collectibles w1 = collectibles w /\
               record_calls w1 = record_calls w).
  { unfold w1, save_highscore. repeat case_if; cbn; repeat split; reflexivity. }
  destruct H1 as (Hp & Hb & Hk & Hg & Hc & Hr).
  destruct (add_to_leaderboard_fields sc w1) as (Hp' & Hb' & Hk' & Hg' & Hc' & _ & Hr').
  cbn. rewrite Hp', Hb', Hk', Hg', Hc', Hr', Hp, Hb, Hk, Hg, Hc, Hr.
  repeat split; reflexivity.
Qed.

Lemma update_collectible_fields (dt : R) (w : World) (i : nat) :
  ball (update_collectible dt w i) = ball w /\
  bricks (update_collectible dt w i) = bricks w /\
  game_state (update_collectible dt w i) = game_state w /\
  high_score (update_collectible dt w i) = high_score w /\
  leaderboard (update_collectible dt w i) = leaderboard w /\
  disk (update_collectible dt w i) = disk w /\
  record_calls (update_collectible dt w i) = record_calls w /\
  ry (paddle_rect (paddle (update_collectible dt w i))) = ry (paddle_rect (paddle w)) /\
  (paddle_fits (paddle w) -> paddle_in_field (paddle w) ->
   paddle_fits (paddle (update_collectible dt w i)) /\
   paddle_in_field (paddle (update_collectible dt w i))).
Proof.
  unfold update_collectible.
  destruct (collectibles w !! i) as [c|]; [|frame_trivial].
  destruct (col_alive c); cbn [negb]; [|frame_trivial].
  set (c1 := mkCollectible _ _ _ _ _).
  set (c2 := if Rltb (IZR WINDOW_HEIGHT) (ry (col_rect c1)) then set_col_alive false c1 else c1).
  cbn [paddle set_collectibles].
  destruct (rect_overlap (col_rect c2) (paddle_rect (paddle w))); [|wproj; frame_trivial].
  destruct (col_type c2 =? 0)%Z; [|wproj; frame_trivial].
  wproj.
  repeat (split; [reflexivity|]).
  split.
  - rewrite clamp_paddle_ry. reflexivity.
  - intros Hfit Hin.
    assert (Hw : paddle_fits
              (set_paddle_rect
                 (set_rw (if Rltb (IZR (WINDOW_WIDTH ÷ 2)) (rw (paddle_rect (paddle w)) + 40)
                          then IZR (WINDOW_WIDTH ÷ 2)
                          else rw (paddle_rect (paddle w)) + 40)
                         (paddle_rect (paddle w))) (paddle w))).
    { unfold paddle_fits in *. cbn [set_paddle_rect set_rw paddle_rect rw].
      change (WINDOW_WIDTH ÷ 2)%Z with 480%Z. unfold WINDOW_WIDTH in *.
      destruct (Rltb 480 (rw (paddle_rect (paddle w)) + 40)) eqn:E;
        [lra | apply Rltb_ge in E; lra]. }
    split.
    + unfold paddle_fits in *. rewrite clamp_paddle_rw. exact Hw.
    + apply clamp_paddle_in_field. exact Hw.
Qed.

Lemma update_collectibles_fields (dt : R) (w : World) :
  ball (update_collectibles dt w) = ball w /\
  bricks (update_collectibles dt w) = bricks w /\
  game_state (update_collectibles dt w) = game_state w /\
  high_score (update_collectibles dt w) = high_score w /\
  leaderboard (update_collectibles dt w) = leaderboard w /\
  disk (update_collectibles dt w) = disk w /\
  record_calls (update_collectibles dt w) = record_calls w /\
  ry (paddle_rect (paddle (update_collectibles dt w))) = ry (paddle_rect (paddle w)) /\
  (paddle_fits (paddle w) -> paddle_in_field (paddle w) ->
   paddle_fits (paddle (update_collectibles dt w)) /\
   paddle_in_field (paddle (update_collectibles dt w))).
Proof.
  unfold update_collectibles.
  apply (foldl_invariant
           (fun w' => ball w' = ball w /\ bricks w' = bricks w /\
                      game_state w' = game_state w /\ high_score w' = high_score w /\
                      leaderboard w' = leaderboard w /\ disk w' = disk w /\
                      record_calls w' = record_calls w /\
                      ry (paddle_rect (paddle w')) = ry (paddle_rect (paddle w)) /\
                      (paddle_fits (paddle w) -> paddle_in_field (paddle w) ->
                       paddle_fits (paddle w') /\ paddle_in_field (paddle w')))).
  - frame_trivial.
  - intros w' i (H1 & H2 & H3 & H4 & H5 & H6 & H7 & H8 & H9).
    destruct (update_collectible_fields dt w' i)
      as (G1 & G2 & G3 & G4 & G5 & G6 & G7 & G8 & G9).
    rewrite G1, G2, G3, G4, G5, G6, G7, G8.
    repeat (split; [assumption|]).
    intros Hf Hi. destruct (H9 Hf Hi) as [Hf' Hi']. apply G9; assumption.
Qed.

(** * [arkanoid_full.c]: the counters through a step *)

Lemma update_engine_skipped (dt : R) (w : World) :
  ~ playing (game_state w) -> update_engine dt w = w.
Proof.
  unfold playing, update_engine. intros H.
  destruct (is_running (game_state w)), (is_paused (game_state w)),
           (show_menu (game_state w)); cbn; try reflexivity.
  exfalso. apply H. auto.
Qed.

Lemma update_engine_playing (dt : R) (w : World) :
  playing (game_state w) ->
  update_engine dt w =
  update_collectibles dt (level_check (fall_check (brick_collision (before_bricks dt w)))).
Proof.
  unfold playing, update_engine. intros (-> & -> & ->). reflexivity.
Qed.

Lemma playing_dec (g : GameState) : playing g \/ ~ playing g.
Proof.
  unfold playing.
  destruct (is_running g), (is_paused g), (show_menu g); auto;
    right; intros (? & ? & ?); discriminate.
Qed.




Lemma fall_check_fields (w : World) :
  bricks (fall_check w) = bricks w /\
  score (game_state (fall_check w)) = score (game_state w) /\
  level (game_state (fall_check w)) = level (game_state w) /\
  bricks_remaining (game_state (fall_check w)) = bricks_remaining (game_state w) /\
  ry (paddle_rect (paddle (fall_check w))) = ry (paddle_rect (paddle w)) /\
  rw (paddle_rect (paddle (fall_check w))) = rw (paddle_rect (paddle w)) /\
  (paddle_fits (paddle w) -> paddle_in_field (paddle w) ->
   paddle_in_field (paddle (fall_check w))).
Proof.
  unfold fall_check.
  destruct (negb (is_held (ball w)) && Rltb (IZR WINDOW_HEIGHT) (ry (ball_rect (ball w))));
    [|frame_trivial; auto].
  wproj. gproj.
  destruct (wrap32 (lives (game_state w) - 1) <=? 0)%Z.
  - destruct (finish_session_fields
                (set_game_state (set_lives (wrap32 (lives (game_state w) - 1)) (game_state w)) w))
      as (Hp & _ & Hb & Hg & _).
    rewrite Hp, Hb, Hg. wproj. gproj. frame_trivial. auto.
  - wproj. gproj. repeat (split; [reflexivity|]).
    intros Hf _. apply center_paddle_in_field. exact Hf.
Qed.


(** The level block: either the level is not cleared and nothing changes,
    or the game is won and the session ends, or the next level is laid
    out. *)
Lemma level_check_cases (w : World) :
  ((0 < bricks_remaining (game_state w))%Z /\ level_check w = w) \/
  ((bricks_remaining (game_state w) <= 0)%Z /\
   (wrap32 (level (game_state w) + 1) > MAX_LEVELS)%Z /\
   level_check w =
     finish_session
       (set_game_state (set_level (wrap32 (level (game_state w) + 1)) (game_state w)) w)) \/
  ((bricks_remaining (game_state w) <= 0)%Z /\
   (wrap32 (level (game_state w) + 1) <= MAX_LEVELS)%Z /\
   level_check w =
     reset_level (wrap32 (level (game_state w) + 1))
       (set_game_state (set_level (wrap32 (level (game_state w) + 1)) (game_state w)) w)).
Proof.
  unfold level_check.
  destruct (Z.leb_spec (bricks_remaining (game_state w)) 0); [|left; auto].
  right. wproj. gproj.
  destruct (Z.gtb_spec (wrap32 (level (game_state w) + 1)) MAX_LEVELS).
  - left. split; [assumption|]. split; [lia|reflexivity].
  - right. split; [assumption|]. split; [lia|reflexivity].
Qed.



(** * [arkanoid_full.c]: the score over a session *)




(** * [arkanoid_full.c]: one brick per step *)

Lemma paddle_collision_held (growth : R) (p : Paddle) (b : Ball) :
  is_held (paddle_collision growth p b) = is_held b.
Proof. unfold paddle_collision. case_if; reflexivity. Qed.

Lemma move_ball_held (dt : R) (p : Paddle) (b : Ball) :
  is_held (move_ball dt p b) = is_held b.
Proof. unfold move_ball. destruct (is_held b) eqn:E; cbn; auto. Qed.

Lemma before_bricks_held (dt : R) (w : World) :
  is_held (ball (before_bricks dt w)) = is_held (ball w).
Proof.
  destruct (before_bricks_fields dt w) as (_ & _ & _ & _ & _ & _ & _ & _ & ->).
  rewrite paddle_collision_held, wall_collision_held, move_ball_held. reflexivity.
Qed.

Lemma hits_true (rb : RectF) (bs : list Brick) (k : nat) :
  hits rb bs k = true <->
  exists b, bs !! k = Some b /\ is_alive b = true /\ rect_overlap rb (brick_rect b) = true.
Proof.
  unfold hits. destruct (bs !! k) as [b|].
  - rewrite andb_true_iff. split.
    + intros [Ha Ho]. eauto.
    + intros (b' & [= <-] & Ha & Ho). auto.
  - split; [discriminate|]. intros (b' & Hb & _). discriminate.
Qed.

(** Two live bricks make the count of live bricks at least two. *)
Lemma count_alive_two (bs : list Brick) (i j : nat) (bi bj : Brick) :
  i <> j -> bs !! i = Some bi -> bs !! j = Some bj ->
  is_alive bi = true -> is_alive bj = true -> (2 <= count_alive bs)%Z.
Proof.
  intros Hne Hi Hj Hai Haj.
  pose proof (count_alive_insert_dead bs i bi (destroyed bi) Hi Hai eq_refl) as H1.
  assert (Hj' : <[i := destroyed bi]> bs !! j = Some bj).
  { rewrite list_lookup_insert_ne by exact Hne. exact Hj. }
  pose proof (count_alive_insert_dead _ j bj (destroyed bj) Hj' Haj eq_refl) as H2.
  pose proof (count_alive_bounds (<[j := destroyed bj]> (<[i := destroyed bi]> bs))). lia.
Qed.

(** X1 (claim C1), for the SDL engine.  In an engine step that is not skipped, with
    the ball released, the array of bricks complete and [bricks_remaining]
    equal to the number of live bricks: when the ball, as moved by the step,
    overlaps two (or more) live bricks, the step destroys exactly one brick,
    the overlapping live brick of least index in the array (the first in
    row-major order); every other brick is left as it was, and
    [bricks_remaining] and the number of live bricks go down by exactly 1. *)
Theorem C1_first_overlapping_brick_only :
  forall (dt : R) (w : World) (i j : nat),
    playing (game_state w) ->
    is_held (ball w) = false ->
    length (bricks w) = BRICK_COUNT ->
    bricks_remaining (game_state w) = count_alive (bricks w) ->
    i <> j ->
    hits (ball_rect (ball (before_bricks dt w))) (bricks w) i = true ->
    hits (ball_rect (ball (before_bricks dt w))) (bricks w) j = true ->
    exists (k : nat) (b : Brick),
      bricks w !! k = Some b /\ is_alive b = true /\
      rect_overlap (ball_rect (ball (before_bricks dt w))) (brick_rect b) = true /\
      (forall k', (k' < k)%nat ->
                  hits (ball_rect (ball (before_bricks dt w))) (bricks w) k' = false) /\
      bricks (update_engine dt w) = <[k := destroyed b]> (bricks w) /\
      (forall k', k' <> k -> bricks (update_engine dt w) !! k' = bricks w !! k') /\
      bricks_remaining (game_state (update_engine dt w)) =
        (bricks_remaining (game_state w) - 1)%Z /\
      count_alive (bricks (update_engine dt w)) = (count_alive (bricks w) - 1)%Z.
Proof.
  intros dt w i j Hplay Hheld Hlen Hrem Hne Hi Hj.
  rewrite (update_engine_playing dt w Hplay).
  destruct (before_bricks_fields dt w) as (_ & Hb0 & Hg0 & _).
  set (w1 := before_bricks dt w) in *.
  assert (Hheld1 : is_held (ball w1) = false).
  { unfold w1. rewrite before_bricks_held. exact Hheld. }
  assert (Hlen1 : length (bricks w1) = BRICK_COUNT) by (rewrite Hb0; exact Hlen).
  apply hits_true in Hi as (bi & Hbi & Hai & Hoi).
  apply hits_true in Hj as (bj & Hbj & Haj & Hoj).
  pose proof (count_alive_two (bricks w) i j bi bj Hne Hbi Hbj Hai Haj) as Htwo.
  pose proof (count_alive_bounds (bricks w)) as Hcb. rewrite Hlen in Hcb.
  destruct (brick_collision_cases w1 Hlen1 Hheld1) as [[_ Hnone]|Hhit].
  - exfalso. specialize (Hnone i). rewrite Hb0 in Hnone. unfold hits in Hnone.
    rewrite Hbi, Hai, Hoi in Hnone. discriminate.
  - destruct Hhit as (k & r & c & b & Hcell & Hb & Ha & Ho & Hfirst & Hbc).
    rewrite Hb0 in Hb, Hfirst.
    exists k, b. split; [exact Hb|]. split; [exact Ha|]. split; [exact Ho|].
    split; [exact Hfirst|].
    destruct (brick_hit_fields r c b w1) as (_ & _ & Hbs & Hgs & _).
    destruct (grid_lookup k r c Hcell) as (Hidx & _).
    rewrite Hidx, Hb0 in Hbs. rewrite Hg0 in Hgs.
    set (w2 := brick_collision w1) in *. rewrite <- Hbc in Hbs, Hgs.
    destruct (fall_check_fields w2) as (Hfb & _ & _ & Hfr & _).
    set (w3 := fall_check w2) in *.
    assert (Hrem3 : bricks_remaining (game_state w3) =
                    (bricks_remaining (game_state w) - 1)%Z).
    { rewrite Hfr, Hgs. gproj. apply wrap32_id.
      unfold in_int, INT_MIN, INT_MAX, BRICK_COUNT, BRICK_ROWS, BRICK_COLUMNS in *. lia. }
    assert (Hlc : level_check w3 = w3).
    { destruct (level_check_cases w3) as [[_ E]|[(Hz & _)|(Hz & _)]]; [exact E|lia|lia]. }
    rewrite Hlc.
    destruct (update_collectibles_fields dt w3) as (_ & -> & -> & _).
    rewrite Hfb, Hbs, Hrem3.
    split; [reflexivity|]. split.
    + intros k' Hk'. apply list_lookup_insert_ne. auto.
    + split; [reflexivity|].
      apply (count_alive_insert_dead (bricks w) k b); auto.
Qed.

(** The ball on the seam of the cells (6, 0) and (6, 1). *)
Lemma seam_world_ball :
  ball (before_bricks 0 seam_world) =
  mkBall (mkRectF (70 + 0 * 420 * 0) (290 + -1 * 420 * 0) 14 14) 0 (-1) 420 false.
Proof.
  unfold before_bricks, seam_world. cbn [ball paddle set_ball].
  unfold move_ball, wall_collision, paddle_collision. reval. reflexivity.
Qed.

Lemma seam_world_hits (k : nat) :
  k = 72%nat \/ k = 73%nat ->
  hits (ball_rect (ball (before_bricks 0 seam_world))) (bricks seam_world) k = true.
Proof.
  intros [-> | ->]; rewrite seam_world_ball; apply hits_true; eexists;
    (split; [reflexivity|]); (split; [reflexivity|]);
    unfold rect_overlap, cell_rect; cbn [brick_rect]; reval; reflexivity.
Qed.

(** The step on the seam destroys one brick of the two. *)
Lemma C1_seam_witness :
  exists (k : nat) (b : Brick),
    bricks seam_world !! k = Some b /\
    bricks (update_engine 0 seam_world) = <[k := destroyed b]> (bricks seam_world) /\
    bricks_remaining (game_state (update_engine 0 seam_world)) = 83%Z.
Proof.
  destruct (C1_first_overlapping_brick_only 0 seam_world 72 73)
    as (k & b & Hb & _ & _ & _ & Hbs & _ & Hrem & _).
  - repeat split; reflexivity.
  - reflexivity.
  - reflexivity.
  - vm_compute. reflexivity.
  - discriminate.
  - apply seam_world_hits. left. reflexivity.
  - apply seam_world_hits. right. reflexivity.
  - exists k, b. split; [exact Hb|]. split; [exact Hbs|]. exact Hrem.
Defined.

(** * [arkanoid_full.c]: the last life *)

Lemma brick_collision_misses (w : World) :
  (forall k, hits (ball_rect (ball w)) (bricks w) k = false) -> brick_collision w = w.
Proof.
  intros Hnone. unfold brick_collision.
  destruct (negb (is_held (ball w))); [|reflexivity].
  pose proof (scan_rows_spec w BRICK_ROWS 0) as Hscan.
  destruct (scan_rows (seq 0 BRICK_ROWS) w) as [w'|]; [|reflexivity].
  destruct Hscan as (r & c & b & _ & _ & _ & _ & Hb & Ha & Ho & _).
  specialize (Hnone (brick_index r c)). unfold hits in Hnone.
  rewrite Hb, Ha, Ho in Hnone. discriminate.
Qed.

(** A ball below the bottom edge overlaps no brick of the field. *)
Lemma ball_below_misses (rb : RectF) (bs : list Brick) :
  bricks_in_field bs -> IZR WINDOW_HEIGHT < ry rb -> forall k, hits rb bs k = false.
Proof.
  intros Hin Hlow k. unfold hits.
  destruct (bs !! k) as [b|] eqn:Hb; [|reflexivity].
  destruct (is_alive b) eqn:Ha; [|reflexivity].
  specialize (Hin k b Hb Ha). cbn [andb].
  apply rect_overlap_false. right; right; right. lra.
Qed.

(** X2 (claim C4).  In a session that is playing, with one life left, the ball
    released and the level not cleared ([bricks_remaining > 0], with every
    live brick inside the field): an engine step that takes the ball below
    the bottom edge of the field ends the session, [is_running = 0] and
    [show_menu = 1], and calls [add_to_leaderboard] exactly once, with the
    final score. *)
Theorem C4_last_life_ends_session :
  forall (dt : R) (w : World),
    playing (game_state w) ->
    lives (game_state w) = 1%Z ->
    is_held (ball w) = false ->
    (0 < bricks_remaining (game_state w))%Z ->
    bricks_in_field (bricks w) ->
    IZR WINDOW_HEIGHT < ry (ball_rect (ball (before_bricks dt w))) ->
    is_running (game_state (update_engine dt w)) = false /\
    show_menu (game_state (update_engine dt w)) = true /\
    lives (game_state (update_engine dt w)) = 0%Z /\
    score (game_state (update_engine dt w)) = score (game_state w) /\
    record_calls (update_engine dt w) =
      score (game_state (update_engine dt w)) :: record_calls w.
Proof.
  intros dt w Hplay Hlives Hheld Hrem Hin Hlow.
  rewrite (update_engine_playing dt w Hplay).
  destruct (before_bricks_fields dt w) as (_ & Hb0 & Hg0 & _ & _ & _ & _ & Hr0 & _).
  pose proof (before_bricks_held dt w) as Hh0.
  set (w1 := before_bricks dt w) in *.
  rewrite (brick_collision_misses w1)
    by (rewrite Hb0; apply ball_below_misses; assumption).
  assert (Hfall : fall_check w1 =
                  finish_session (set_game_state (set_lives 0 (game_state w1)) w1)).
  { unfold fall_check. rewrite Hh0, Hheld. apply Rltb_lt in Hlow. rewrite Hlow.
    cbn [negb andb]. wproj. gproj. rewrite Hg0, Hlives. reflexivity. }
  destruct (finish_session_fields (set_game_state (set_lives 0 (game_state w1)) w1))
    as (_ & _ & _ & Hg & _ & Hr).
  rewrite <- Hfall in Hg, Hr. revert Hg Hr. wproj. gproj. intros Hg Hr.
  set (w3 := fall_check w1) in *.
  assert (Hlc : level_check w3 = w3).
  { destruct (level_check_cases w3) as [[_ E]|[(Hz & _)|(Hz & _)]]; [exact E| |];
      rewrite Hg, Hg0 in Hz; cbn in Hz; lia. }
  rewrite Hlc.
  destruct (update_collectibles_fields dt w3) as (_ & _ & -> & _ & _ & _ & -> & _).
  rewrite Hr, Hg, Hg0, Hr0. cbn. repeat split; reflexivity.
Qed.

(** The last ball of a session that scored 230 points. *)
Lemma C4_last_life_witness :
  is_running (game_state (update_engine (1 / 20) last_life_world)) = false /\
  show_menu (game_state (update_engine (1 / 20) last_life_world)) = true /\
  lives (game_state (update_engine (1 / 20) last_life_world)) = 0%Z /\
  score (game_state (update_engine (1 / 20) last_life_world)) = 230%Z /\
  record_calls (update_engine (1 / 20) last_life_world) =
    score (game_state (update_engine (1 / 20) last_life_world)) :: [].
Proof.
  apply (C4_last_life_ends_session (1 / 20) last_life_world).
  - repeat split; reflexivity.
  - reflexivity.
  - reflexivity.
  - reflexivity.
  - intros k b Hb _. unfold last_life_world, full_wall in Hb. cbn [bricks] in Hb.
    rewrite list_lookup_fmap in Hb.
    destruct (grid !! k) as [[r c]|] eqn:Hk; [|discriminate].
    injection Hb as <-. destruct (grid_lookup k r c Hk) as (_ & Hr & _).
    cbn [brick_rect cell_rect ry rh fst snd].
    unfold BRICK_ROWS, BRICK_HEIGHT, BRICK_PADDING, WINDOW_HEIGHT in *.
    rewrite <- plus_IZR. apply IZR_le. lia.
  - unfold before_bricks, last_life_world. cbn [ball paddle set_ball].
    unfold move_ball, wall_collision, paddle_collision, rect_overlap. reval.
    unfold WINDOW_HEIGHT. lra.
Defined.

(** * [arkanoid_full.c]: the bounce on the paddle *)

Lemma fall_check_ball (w : World) :
  is_held (ball (fall_check w)) = true \/ ball (fall_check w) = ball w.
Proof.
  unfold fall_check. case_if; [|right; reflexivity].
  wproj. gproj. case_if.
  - right.
    destruct (finish_session_fields
                (set_game_state (set_lives (wrap32 (lives (game_state w) - 1)) (game_state w)) w))
      as (_ & -> & _). reflexivity.
  - left. reflexivity.
Qed.

Lemma level_check_ball (w : World) :
  is_held (ball (level_check w)) = true \/
  (ball (level_check w) = ball w /\
   ry (paddle_rect (paddle (level_check w))) = ry (paddle_rect (paddle w))).
Proof.
  unfold level_check. case_if; [|right; split; reflexivity].
  wproj. gproj. case_if.
  - right.
    destruct (finish_session_fields
                (set_game_state (set_level (wrap32 (level (game_state w) + 1)) (game_state w)) w))
      as (-> & -> & _). split; reflexivity.
  - left. unfold reset_level. wproj. reflexivity.
Qed.

Lemma wall_collision_fixes_held (b : Ball) : is_held b = true -> wall_collision b = b.
Proof. intros H. unfold wall_collision. rewrite H. reflexivity. Qed.

Lemma held_ball_misses_paddle (growth dt : R) (p : Paddle) (b : Ball) :
  is_held b = true ->
  paddle_collision growth p (wall_collision (move_ball dt p b)) =
  wall_collision (move_ball dt p b).
Proof.
  intros H. apply paddle_collision_skips. left.
  rewrite wall_collision_held, move_ball_held. exact H.
Qed.

Lemma move_ball_rh (dt : R) (p : Paddle) (b : Ball) :
  rh (ball_rect (move_ball dt p b)) = rh (ball_rect b).
Proof. unfold move_ball. case_if; reflexivity. Qed.

(** The ball on the paddle overlaps no brick that ends above it. *)
Lemma ball_on_paddle_misses (rb : RectF) (bs : list Brick) (p : Paddle) (b : Ball) :
  bricks_above_paddle bs p b ->
  ry rb = ry (paddle_rect p) - rh (ball_rect b) - 1 ->
  forall k, hits rb bs k = false.
Proof.
  intros Hab Hy k. unfold hits.
  destruct (bs !! k) as [br|] eqn:Hb; [|reflexivity].
  destruct (is_alive br) eqn:Ha; [|reflexivity].
  specialize (Hab k br Hb Ha). cbn [andb].
  apply rect_overlap_false. right; right; right. lra.
Qed.

(** X3 (claim C3).  In an engine step that is not skipped, let the ball reach the
    paddle block released, moving down ([vy > 0]) and overlapping the
    paddle.  Then the block sets the direction to [(sin a, -cos a)] with
    [a = u * 75 degrees] and [u] the offset of the centres over half the
    paddle width, clamped to [-1, 1]; the vertical component is negative;
    the speed is multiplied by the growth constant; the ball is put one unit
    above the paddle, where it no longer overlaps it.  When the bricks end
    above that place and the paddle is at least a ball height below the top
    of the field, the paddle block of the following step, whatever its
    length, leaves the ball alone.  The block is the same function in the
    modular variant, with [BALL_SPEED_INC] for growth. *)
Theorem C3_paddle_bounce :
  forall (dt dt' : R) (w : World),
    playing (game_state w) ->
    is_held (ball_at_paddle dt w) = false ->
    0 < vy (ball_at_paddle dt w) ->
    rect_overlap (ball_rect (ball_at_paddle dt w)) (paddle_rect (paddle w)) = true ->
    let u := normalized_impact (paddle w) (ball_at_paddle dt w) in
    let b1 := ball (before_bricks dt w) in
    (-1 <= u <= 1 /\
     vx b1 = sin (u * (75 * (PI / 180))) /\
     vy b1 = - cos (u * (75 * (PI / 180))) /\
     vy b1 < 0 /\
     speed b1 = speed (ball_at_paddle dt w) * BALL_SPEED_GROWTH /\
     ry (ball_rect b1) =
       ry (paddle_rect (paddle w)) - rh (ball_rect (ball_at_paddle dt w)) - 1 /\
     rect_overlap (ball_rect b1) (paddle_rect (paddle w)) = false /\
     (forall m : Modular.World,
        Modular.gBall m = ball w -> Modular.gPaddle m = paddle w ->
        Modular.gBall (Modular.before_bricks dt m) =
          set_speed (speed (ball_at_paddle dt w) * Modular.BALL_SPEED_INC) b1)) /\
    (bricks_above_paddle (bricks w) (paddle w) (ball w) ->
     rh (ball_rect (ball w)) <= ry (paddle_rect (paddle w)) ->
     ball (before_bricks dt' (update_engine dt w)) =
       ball_at_paddle dt' (update_engine dt w)).
Proof.
  intros dt dt' w Hplay Hheld Hvy Hover u b1.
  destruct (before_bricks_fields dt w) as (Hp0 & Hb0 & _ & _ & _ & _ & _ & _ & Hball).
  fold (ball_at_paddle dt w) in Hball.
  pose proof (paddle_collision_fires BALL_SPEED_GROWTH (paddle w) (ball_at_paddle dt w)
                Hheld Hvy Hover) as Hfire.
  rewrite Hfire in Hball. unfold bounce_angle in Hball.
  rewrite impact_of_clamped in Hball. fold u in Hball.
  assert (Hu : -1 <= u <= 1).
  { unfold u. rewrite <- impact_of_clamped. apply impact_of_range. }
  assert (Hup : - cos (u * (75 * (PI / 180))) < 0).
  { pose proof (bounce_goes_up (paddle w) (ball_at_paddle dt w)) as H.
    unfold bounce_angle in H. rewrite impact_of_clamped in H. exact H. }
  assert (Hrh : rh (ball_rect (ball_at_paddle dt w)) = rh (ball_rect (ball w))).
  { unfold ball_at_paddle. rewrite wall_collision_rh, move_ball_rh. reflexivity. }
  split.
  - unfold b1. rewrite Hball. cbn [vx vy speed ball_rect set_ry ry rx rw rh].
    split; [exact Hu|]. split; [reflexivity|]. split; [reflexivity|].
    split; [exact Hup|]. split; [reflexivity|]. split; [reflexivity|].
    split.
    + apply rect_overlap_false. cbn [rx ry rw rh set_ry]. right; right; left. lra.
    + intros m Hmb Hmp. unfold Modular.before_bricks. cbn [Modular.gBall Modular.gPaddle
        Modular.set_gBall]. rewrite Hmb, Hmp. fold (ball_at_paddle dt w).
      rewrite (paddle_collision_fires Modular.BALL_SPEED_INC (paddle w) (ball_at_paddle dt w)
                 Hheld Hvy Hover).
      unfold bounce_angle. rewrite impact_of_clamped. fold u. reflexivity.
  - intros Habove Hheight.
    rewrite (update_engine_playing dt w Hplay).
    set (w1 := before_bricks dt w) in *.
    assert (Hw1 : ball w1 = b1) by reflexivity.
    assert (Hmiss : brick_collision w1 = w1).
    { apply brick_collision_misses. rewrite Hb0.
      apply (ball_on_paddle_misses _ _ (paddle w) (ball w) Habove).
      rewrite Hw1. unfold b1. rewrite Hball. cbn [ball_rect set_ry ry]. rewrite Hrh.
      reflexivity. }
    rewrite Hmiss.
    destruct (fall_check_fields w1) as (_ & _ & _ & _ & Hfy & _).
    pose proof (fall_check_ball w1) as Hfb.
    set (w3 := fall_check w1) in *.
    pose proof (level_check_ball w3) as Hlb.
    set (w4 := level_check w3) in *.
    destruct (update_collectibles_fields dt w4) as (Hcb & _ & _ & _ & _ & _ & _ & Hcy & _).
    set (w5 := update_collectibles dt w4) in *.
    destruct (before_bricks_fields dt' w5) as (_ & _ & _ & _ & _ & _ & _ & _ & ->).
    unfold ball_at_paddle.
    destruct Hlb as [Hheld4|[Hb4 Hy4]].
    + apply held_ball_misses_paddle. rewrite Hcb. exact Hheld4.
    + destruct Hfb as [Hheld3|Hb3].
      * apply held_ball_misses_paddle. rewrite Hcb, Hb4. exact Hheld3.
      * assert (Hb5 : ball w5 = b1) by (rewrite Hcb, Hb4, Hb3; exact Hw1).
        rewrite Hb5. apply upward_ball_misses_paddle.
        -- unfold b1. rewrite Hball. reflexivity.
        -- unfold b1. rewrite Hball. cbn [vy]. exact Hup.
        -- rewrite Hcy, Hy4, Hfy, Hp0. unfold b1. rewrite Hball.
           cbn [ball_rect set_ry rh]. rewrite Hrh. exact Hheight.
Qed.

Lemma full_wall_rect (k : nat) (br : Brick) :
  full_wall !! k = Some br ->
  exists r c, (r < BRICK_ROWS)%nat /\ (c < BRICK_COLUMNS)%nat /\ brick_rect br = cell_rect r c.
Proof.
  unfold full_wall. rewrite list_lookup_fmap. intros Hb.
  destruct (grid !! k) as [[r c]|] eqn:Hk; [|discriminate].
  injection Hb as <-. destruct (grid_lookup k r c Hk) as (_ & Hr & Hc & _).
  exists r, c. auto.
Qed.

Lemma serve_ball_at_paddle :
  ball_at_paddle (1 / 100) serve_world =
  mkBall (mkRectF (473 + 0 * 420 * (1 / 100)) (560 + 1 * 420 * (1 / 100)) 14 14) 0 1 420 false.
Proof.
  unfold ball_at_paddle, serve_world. cbn [ball paddle].
  unfold move_ball, wall_collision. reval. reflexivity.
Qed.

(** A ball that comes down on the middle of the paddle leaves it upwards
    and is not caught again by the following step. *)
Lemma C3_serve_witness :
  vy (ball (before_bricks (1 / 100) serve_world)) < 0 /\
  ball (before_bricks (1 / 100) (update_engine (1 / 100) serve_world)) =
    ball_at_paddle (1 / 100) (update_engine (1 / 100) serve_world).
Proof.
  destruct (C3_paddle_bounce (1 / 100) (1 / 100) serve_world) as [Hblock Hnext].
  - repeat split; reflexivity.
  - rewrite serve_ball_at_paddle. reflexivity.
  - rewrite serve_ball_at_paddle. cbn [vy]. lra.
  - rewrite serve_ball_at_paddle. unfold serve_world, rect_overlap. cbn [paddle]. reval.
    reflexivity.
  - split.
    + apply Hblock.
    + apply Hnext.
      * intros k br Hb _. cbn [bricks serve_world] in Hb.
        destruct (full_wall_rect k br Hb) as (r & c & Hr & _ & ->).
        cbn [cell_rect ry rh serve_world paddle ball paddle_rect ball_rect].
        unfold BRICK_ROWS, BRICK_HEIGHT, BRICK_PADDING in *.
        rewrite <- plus_IZR.
        apply Rle_trans with (IZR 296); [apply IZR_le; lia | lra].
      * cbn. lra.
Defined.

(** * [arkanoid_full.c]: the paddle stays in the field *)

Lemma brick_collision_paddle (w : World) :
  paddle (brick_collision w) = paddle w /\
  length (bricks (brick_collision w)) = length (bricks w).
Proof.
  unfold brick_collision. destruct (negb (is_held (ball w))); [|auto].
  pose proof (scan_rows_spec w BRICK_ROWS 0) as Hscan.
  destruct (scan_rows (seq 0 BRICK_ROWS) w) as [w'|]; [|auto].
  destruct Hscan as (r & c & b & _ & _ & _ & _ & _ & _ & _ & ->).
  destruct (brick_hit_fields r c b w) as (-> & _ & -> & _).
  rewrite length_insert. auto.
Qed.





End FullEngine.

(** * The modular variant: the score over a session *)

Section ModularEngine.

Import Modular.


Ltac gproj :=
  cbn [score lives level bricks_remaining is_paused is_running show_menu set_score set_lives
       set_level set_bricks_remaining end_session].
















End ModularEngine.



(** * [arkanoid.c]: the brick loop has no early exit *)

Section Win32Bricks.

Import Win32.

Lemma hit_cell_spec (row : nat) (b : Ball) (g : GameState) (k : Brick) :
  x (hit_cell row (b, g) k).1.1 = x b /\ y (hit_cell row (b, g) k).1.1 = y b /\
  radius (hit_cell row (b, g) k).1.1 = radius b /\
  (hit_cell row (b, g) k).2 = strike b k.
Proof.
  unfold hit_cell, strike.
  destruct (brick_active k); cbn [negb andb]; [|auto].
  destruct (ball_touches b k); [|auto].
  case_if; cbn; auto.
Qed.

Lemma ball_touches_position (b b' : Ball) (k : Brick) :
  x b' = x b -> y b' = y b -> radius b' = radius b -> ball_touches b' k = ball_touches b k.
Proof. intros Hx Hy Hr. unfold ball_touches. rewrite Hx, Hy, Hr. reflexivity. Qed.

Lemma strike_position (b b' : Ball) (k : Brick) :
  x b' = x b -> y b' = y b -> radius b' = radius b -> strike b' k = strike b k.
Proof.
  intros Hx Hy Hr. unfold strike. rewrite (ball_touches_position b b' k Hx Hy Hr).
  reflexivity.
Qed.

Lemma hit_row_spec (row : nat) (ks : list Brick) :
  forall (b : Ball) (g : GameState),
    x (hit_row row (b, g) ks).1.1 = x b /\ y (hit_row row (b, g) ks).1.1 = y b /\
    radius (hit_row row (b, g) ks).1.1 = radius b /\
    (hit_row row (b, g) ks).2 = strike b <$> ks.
Proof.
  induction ks as [|k ks IH]; intros b g; cbn [hit_row fmap list_fmap]; [auto|].
  destruct (hit_cell_spec row b g k) as (Hx & Hy & Hr & Hk).
  destruct (hit_cell row (b, g) k) as [[b1 g1] k1]. cbn [fst snd] in *.
  destruct (IH b1 g1) as (Hx' & Hy' & Hr' & Hks).
  destruct (hit_row row (b1, g1) ks) as [[b2 g2] ks2]. cbn [fst snd] in *.
  rewrite Hx', Hy', Hr', Hx, Hy, Hr. repeat split; try reflexivity.
  rewrite Hk, Hks. f_equal.
  apply list_eq. intros i. rewrite !list_lookup_fmap.
  destruct (ks !! i); [|reflexivity]. cbn. f_equal. apply strike_position; assumption.
Qed.

Lemma hit_rows_spec (rows : list (list Brick)) :
  forall (row : nat) (b : Ball) (g : GameState),
    (hit_rows row (b, g) rows).2 = (fun ks : list Brick => strike b <$> ks) <$> rows.
Proof.
  induction rows as [|ks rows IH]; intros row b g; cbn [hit_rows fmap list_fmap]; [auto|].
  destruct (hit_row_spec row ks b g) as (Hx & Hy & Hr & Hks).
  destruct (hit_row row (b, g) ks) as [[b1 g1] ks1]. cbn [fst snd] in *.
  specialize (IH (S row) b1 g1).
  destruct (hit_rows (S row) (b1, g1) rows) as [[b2 g2] rows2]. cbn [fst snd] in *.
  rewrite Hks, IH. f_equal.
  apply list_eq. intros i. rewrite !list_lookup_fmap.
  destruct (rows !! i) as [ks'|]; [|reflexivity]. cbn. f_equal.
  apply list_eq. intros j. rewrite !list_lookup_fmap.
  destruct (ks' !! j); [|reflexivity]. cbn. f_equal. apply strike_position; assumption.
Qed.

(** The brick loop of [update_ball] deactivates every active brick that the
    ball touches. *)
Lemma brick_collisions_strikes (w : World) :
  bricks (brick_collisions w) = (fun ks : list Brick => strike (ball w) <$> ks) <$> bricks w.
Proof.
  unfold brick_collisions.
  pose proof (hit_rows_spec (bricks w) 0 (ball w) (state w)) as H.
  destruct (hit_rows 0 (ball w, state w) (bricks w)) as [[b g] rows].
  cbn [snd] in H. cbn. exact H.
Qed.

Lemma all_destroyed_false (rows : list (list Brick)) (i j : nat) (ks : list Brick) (k : Brick) :
  rows !! i = Some ks -> ks !! j = Some k -> brick_active k = true ->
  all_destroyed rows = false.
Proof.
  intros Hi Hj Ha. unfold all_destroyed.
  apply not_true_is_false. intros Hall.
  rewrite forallb_forall in Hall.
  assert (Hin : In ks rows) by (apply list_elem_of_In; eapply list_elem_of_lookup_2; eauto).
  specialize (Hall ks Hin). rewrite forallb_forall in Hall.
  assert (Hin' : In k ks) by (apply list_elem_of_In; eapply list_elem_of_lookup_2; eauto).
  specialize (Hall k Hin'). rewrite Ha in Hall. discriminate.
Qed.

End Win32Bricks.

(** * The wall block and the reflection off a brick *)

(** Case analysis on a comparison of floats that is the condition of a
    choice of the goal, keeping the order fact of each branch. *)
Ltac rcase :=
  match goal with
  | |- context [if ?c then _ else _] =>
      lazymatch c with
      | context [if _ then _ else _] => fail
      | Rleb ?a ?b =>
          let E := fresh "E" in
          destruct (Rleb a b) eqn:E; [apply Rleb_le in E | apply Rleb_gt in E]
      | Rltb ?a ?b =>
          let E := fresh "E" in
          destruct (Rltb a b) eqn:E; [apply Rltb_lt in E | apply Rltb_ge in E]
      | Reqb ?a ?b =>
          let E := fresh "E" in
          destruct (Reqb a b) eqn:E; [apply Reqb_eq in E | apply Reqb_neq in E]
      end
  end.

Lemma Rabs_square (x : R) : Rabs x * Rabs x = x * x.
Proof. unfold Rabs. destruct (Rcase_abs x); lra. Qed.


(** X7.  The wall block puts a released ball that is not wider than the
    field back between the side walls and below the top, keeps [|vx|],
    [|vy|] and the speed, and leaves the ball moving away from the wall it
    touched: leftwards from the right wall, rightwards from the left wall,
    downwards from the top. *)
Theorem wall_collision_keeps_ball_in_field :
  forall b : Ball,
    is_held b = false -> rw (ball_rect b) <= IZR WINDOW_WIDTH ->
    ball_in_field (wall_collision b) /\
    Rabs (vx (wall_collision b)) = Rabs (vx b) /\
    Rabs (vy (wall_collision b)) = Rabs (vy b) /\
    speed (wall_collision b) = speed b /\
    (IZR WINDOW_WIDTH <= rx (ball_rect b) + rw (ball_rect b) -> vx (wall_collision b) <= 0) /\
    (rx (ball_rect b) <= 0 -> rw (ball_rect b) < IZR WINDOW_WIDTH ->
     0 <= vx (wall_collision b)) /\
    (ry (ball_rect b) <= 0 -> 0 <= vy (wall_collision b)).
Proof.
  intros b Hh Hw. unfold wall_collision, ball_in_field. rewrite Hh. cbn [negb].
  pose proof (Rabs_pos (vx b)) as Hax. pose proof (Rabs_pos (vy b)) as Hay.
  repeat (rcase; rproj);
    rewrite ?Rabs_Ropp, ?Rabs_Rabsolu;
    repeat split; try reflexivity; try lra; intros; try lra.
Qed.

(** A ball past the left wall and the top comes back into the corner,
    flying to the right and down. *)
Lemma wall_collision_corner_witness :
  ball_in_field (wall_collision corner_ball) /\
  0 <= vx (wall_collision corner_ball) /\ 0 <= vy (wall_collision corner_ball).
Proof.
  destruct (wall_collision_keeps_ball_in_field corner_ball) as (H & _ & _ & _ & _ & Hx & Hy).
  - reflexivity.
  - unfold corner_ball, WINDOW_WIDTH. rproj. lra.
  - split; [exact H|]. split.
    + apply Hx; unfold corner_ball, WINDOW_WIDTH; rproj; lra.
    + apply Hy; unfold corner_ball; rproj; lra.
Defined.

(** * [arkanoid_full.c]: what holds in every state of a run *)

Section FullSteady.

Import Full.

Ltac wproj :=
  cbn [paddle ball bricks game_state collectibles high_score leaderboard rand_stream disk
       record_calls set_paddle set_ball set_bricks set_game_state set_collectibles
       set_high_score set_leaderboard set_rand_stream set_disk set_record_calls
       clamp_paddle_position].

Ltac gproj :=
  cbn [score lives level bricks_remaining is_paused is_running show_menu set_score set_lives
       set_level set_bricks_remaining end_session set_is_paused set_is_running set_show_menu].

(** ** The ball *)

Lemma move_ball_steady (dt : R) (p : Paddle) (b : Ball) :
  ball_steady b -> ball_steady (move_ball dt p b).
Proof.
  unfold ball_steady, unit_direction, move_ball, ball_on_paddle.
  destruct (is_held b); cbn; auto.
Qed.

Lemma wall_collision_steady (b : Ball) : ball_steady b -> ball_steady (wall_collision b).
Proof.
  unfold ball_steady, unit_direction, wall_collision. intros (Hu & Hw & Hh & Hs).
  destruct (is_held b); cbn [negb]; [auto|].
  repeat (rcase; rproj); rewrite ?Rmult_opp_opp, ?Rabs_square; auto.
Qed.

Lemma paddle_collision_steady (p : Paddle) (b : Ball) :
  ball_steady b -> ball_steady (paddle_collision BALL_SPEED_GROWTH p b).
Proof.
  unfold ball_steady, unit_direction, paddle_collision, BALL_SPEED_GROWTH.
  intros (Hu & Hw & Hh & Hs). case_if; [|auto]. rproj.
  split; [|split; [exact Hw|split; [exact Hh|lra]]].
  rewrite Rmult_opp_opp. apply sin2_cos2.
Qed.

Lemma brick_bounce_steady (b : Ball) (br : RectF) :
  ball_steady b ->
  ball_steady (set_speed (speed (resolve_brick b br) * (1015 / 1000)) (resolve_brick b br)).
Proof.
  unfold ball_steady, unit_direction, resolve_brick, BALL_SPEED_INITIAL.
  intros (Hu & Hw & Hh & Hs).
  repeat (rcase; rproj); rewrite ?Rmult_opp_opp, ?Rabs_square;
    (split; [exact Hu|]); (split; [exact Hw|]); (split; [exact Hh|]); lra.
Qed.

Lemma rearm_ball_steady (b : Ball) : ball_steady b -> ball_steady (rearm_ball b).
Proof.
  unfold ball_steady, unit_direction, rearm_ball. intros (_ & Hw & Hh & _). rproj.
  split; [lra|]. split; [exact Hw|]. split; [exact Hh|]. lra.
Qed.

Lemma reset_ball_steady (p : Paddle) (b : Ball) :
  rw (ball_rect b) = IZR BALL_SIZE -> rh (ball_rect b) = IZR BALL_SIZE ->
  ball_steady (reset_ball p b).
Proof.
  unfold ball_steady, unit_direction, reset_ball, ball_on_paddle. intros Hw Hh. rproj.
  split; [lra|]. split; [exact Hw|]. split; [exact Hh|]. lra.
Qed.

(** The direction of the serve is a unit vector: the normalisation divides
    by 1. *)
Lemma serve_direction (a : R) :
  sqrt (sin a * sin a + - Rabs (cos a) * - Rabs (cos a)) = 1.
Proof.
  rewrite Rmult_opp_opp, Rabs_square.
  replace (sin a * sin a + cos a * cos a) with 1; [apply sqrt_1|].
  symmetry. apply sin2_cos2.
Qed.

Lemma serve_fields (w : World) :
  paddle (serve w) = paddle w /\ bricks (serve w) = bricks w /\
  game_state (serve w) = game_state w /\
  ball (serve w) =
    mkBall (ball_rect (ball w))
           (sin (IZR (Z.rem (rand_stream w 0) 120 - 60) * (PI / 180)))
           (- Rabs (cos (IZR (Z.rem (rand_stream w 0) 120 - 60) * (PI / 180))))
           (speed (ball w)) false.
Proof.
  unfold serve, rand. wproj. rewrite serve_direction, !Rdiv_1_r. auto.
Qed.

Lemma serve_steady (w : World) : ball_steady (ball w) -> ball_steady (ball (serve w)).
Proof.
  destruct (serve_fields w) as (_ & _ & _ & ->).
  unfold ball_steady, unit_direction. intros (_ & Hw & Hh & Hs). rproj.
  split; [|auto]. rewrite Rmult_opp_opp, Rabs_square. apply sin2_cos2.
Qed.


(** ** The paddle *)

Lemma clamp_paddle_rh (p : Paddle) : rh (paddle_rect (clamp_paddle p)) = rh (paddle_rect p).
Proof. unfold clamp_paddle. repeat (rcase; rproj); reflexivity. Qed.

Lemma paddle_steady_fits (p : Paddle) : paddle_steady p -> paddle_fits p.
Proof.
  unfold paddle_steady, paddle_fits. change (WINDOW_WIDTH ÷ 2)%Z with 480%Z.
  unfold WINDOW_WIDTH. intros ([_ H] & _). lra.
Qed.

(** A paddle of the right shape, put anywhere and clamped. *)
Lemma clamp_paddle_steady (p : Paddle) (x : R) :
  paddle_steady p -> paddle_steady (clamp_paddle (set_paddle_rect (set_rx x (paddle_rect p)) p)).
Proof.
  intros Hs. pose proof (paddle_steady_fits p Hs) as Hfit.
  destruct Hs as (Hw & Hh & Hy & _). unfold paddle_steady.
  rewrite clamp_paddle_rw, clamp_paddle_rh, clamp_paddle_ry. rproj.
  repeat (split; [assumption|]).
  apply clamp_paddle_in_field. unfold paddle_fits in *. rproj. exact Hfit.
Qed.

Lemma keyboard_move_steady (left right : bool) (dt : R) (p : Paddle) :
  paddle_steady p -> paddle_steady (keyboard_move left right dt p).
Proof. unfold keyboard_move. apply clamp_paddle_steady. Qed.

Lemma pointer_move_steady (mx : Z) (p : Paddle) :
  paddle_steady p -> paddle_steady (pointer_move mx p).
Proof. unfold pointer_move. apply clamp_paddle_steady. Qed.

Lemma center_paddle_steady (p : Paddle) : paddle_steady p -> paddle_steady (center_paddle p).
Proof.
  intros Hs. pose proof (paddle_steady_fits p Hs) as Hfit.
  destruct Hs as (Hw & Hh & Hy & _). unfold paddle_steady.
  split; [exact Hw|]. split; [exact Hh|]. split; [exact Hy|].
  apply center_paddle_in_field. exact Hfit.
Qed.

(** The level reset needs the shape only, not the place. *)
Lemma reset_paddle_steady (p : Paddle) :
  IZR PADDLE_WIDTH <= rw (paddle_rect p) <= IZR (WINDOW_WIDTH ÷ 2) ->
  rh (paddle_rect p) = IZR PADDLE_HEIGHT ->
  paddle_steady (reset_paddle p).
Proof.
  intros Hw Hh. unfold paddle_steady. unfold reset_paddle at 1 2 3. rproj.
  split; [exact Hw|]. split; [exact Hh|]. split; [reflexivity|].
  apply reset_paddle_in_field. unfold paddle_fits.
  revert Hw. change (WINDOW_WIDTH ÷ 2)%Z with 480%Z. unfold WINDOW_WIDTH. lra.
Qed.

Lemma update_collectible_steady (dt : R) (w : World) (i : nat) :
  paddle_steady (paddle w) -> paddle_steady (paddle (update_collectible dt w i)).
Proof.
  intros Hs. unfold update_collectible.
  destruct (collectibles w !! i) as [c|]; [|exact Hs].
  destruct (col_alive c); cbn [negb]; [|exact Hs].
  set (c1 := mkCollectible _ _ _ _ _).
  set (c2 := if Rltb (IZR WINDOW_HEIGHT) (ry (col_rect c1)) then set_col_alive false c1 else c1).
  cbn [paddle set_collectibles].
  destruct (rect_overlap (col_rect c2) (paddle_rect (paddle w))); [|wproj; exact Hs].
  destruct (col_type c2 =? 0)%Z; [|wproj; exact Hs].
  wproj.
  pose proof (paddle_steady_fits _ Hs) as Hfit.
  destruct Hs as (Hw & Hh & Hy & _). unfold paddle_steady.
  rewrite clamp_paddle_rw, clamp_paddle_rh, clamp_paddle_ry. rproj.
  assert (Hw' : IZR PADDLE_WIDTH
                <= (if Rltb (IZR (WINDOW_WIDTH ÷ 2)) (rw (paddle_rect (paddle w)) + 40)
                    then IZR (WINDOW_WIDTH ÷ 2) else rw (paddle_rect (paddle w)) + 40)
                <= IZR (WINDOW_WIDTH ÷ 2)).
  { revert Hw. change (WINDOW_WIDTH ÷ 2)%Z with 480%Z. unfold PADDLE_WIDTH.
    intros Hw. rcase; lra. }
  split; [exact Hw'|]. split; [exact Hh|]. split; [exact Hy|].
  apply clamp_paddle_in_field. unfold paddle_fits. rproj.
  revert Hw'. change (WINDOW_WIDTH ÷ 2)%Z with 480%Z. unfold WINDOW_WIDTH. lra.
Qed.

Lemma update_collectibles_steady (dt : R) (w : World) :
  steady w -> steady (update_collectibles dt w).
Proof.
  intros (Hc & Hb & Hp).
  destruct (update_collectibles_fields dt w) as (Eb & Ek & Eg & _).
  unfold steady, bricks_counted in *. rewrite Eb, Ek, Eg.
  split; [exact Hc|]. split; [exact Hb|].
  unfold update_collectibles.
  apply (foldl_invariant (fun w' => paddle_steady (paddle w'))); [exact Hp|].
  intros w' i Hw'. apply update_collectible_steady. exact Hw'.
Qed.

(** ** The blocks of the engine step *)

Lemma before_bricks_steady (dt : R) (w : World) : steady w -> steady (before_bricks dt w).
Proof.
  intros (Hc & Hb & Hp).
  destruct (before_bricks_fields dt w) as (Ep & Ek & Eg & _ & _ & _ & _ & _ & Eb).
  unfold steady, bricks_counted in *. rewrite Ep, Ek, Eg, Eb.
  split; [exact Hc|]. split; [|exact Hp].
  apply paddle_collision_steady, wall_collision_steady, move_ball_steady. exact Hb.
Qed.

Lemma brick_collision_steady (w : World) : steady w -> steady (brick_collision w).
Proof.
  intros ([Hlen Hrem] & Hb & Hp).
  destruct (is_held (ball w)) eqn:Hheld.
  { unfold brick_collision. rewrite Hheld. cbn [negb].
    split; [split; assumption|split; assumption]. }
  destruct (brick_collision_cases w Hlen Hheld) as [[-> _]|Hhit].
  { split; [split; assumption|split; assumption]. }
  destruct Hhit as (k & r & c & b & Hcell & Hk & Ha & _ & _ & ->).
  destruct (brick_hit_fields r c b w) as (Ep & Eb & Ek & Eg & _).
  destruct (grid_lookup k r c Hcell) as (Hidx & _).
  unfold steady, bricks_counted. rewrite Ep, Eb, Ek, Eg, Hidx. gproj.
  rewrite length_insert.
  pose proof (count_alive_bounds (bricks w)) as Hcb. rewrite Hlen in Hcb.
  rewrite (count_alive_insert_dead (bricks w) k b (destroyed b) Hk Ha eq_refl).
  split; [split; [exact Hlen|]|].
  - rewrite Hrem. apply wrap32_id.
    unfold in_int, INT_MIN, INT_MAX, BRICK_COUNT, BRICK_ROWS, BRICK_COLUMNS in *. lia.
  - split; [|exact Hp]. apply brick_bounce_steady. exact Hb.
Qed.

Lemma finish_session_steady (w : World) : steady w -> steady (finish_session w).
Proof.
  intros (Hc & Hb & Hp).
  destruct (finish_session_fields w) as (Ep & Eb & Ek & Eg & _).
  unfold steady, bricks_counted in *. rewrite Ep, Eb, Ek, Eg. gproj. auto.
Qed.

Lemma fall_check_steady (w : World) : steady w -> steady (fall_check w).
Proof.
  intros Hs. unfold fall_check. case_if; [|exact Hs].
  wproj. gproj.
  assert (Hs1 : steady (set_game_state
                          (set_lives (wrap32 (lives (game_state w) - 1)) (game_state w)) w)).
  { exact Hs. }
  case_if; [apply finish_session_steady; exact Hs1|].
  destruct Hs as (Hc & Hb & Hp). unfold steady, bricks_counted in *. wproj. gproj.
  split; [exact Hc|]. split; [apply rearm_ball_steady; exact Hb|].
  apply center_paddle_steady. exact Hp.
Qed.

Lemma reset_level_steady (lvl : Z) (w : World) :
  length (bricks w) = BRICK_COUNT ->
  rw (ball_rect (ball w)) = IZR BALL_SIZE -> rh (ball_rect (ball w)) = IZR BALL_SIZE ->
  IZR PADDLE_WIDTH <= rw (paddle_rect (paddle w)) <= IZR (WINDOW_WIDTH ÷ 2) ->
  rh (paddle_rect (paddle w)) = IZR PADDLE_HEIGHT ->
  steady (reset_level lvl w).
Proof.
  intros Hlen Hbw Hbh Hpw Hph.
  destruct (reset_level_spec lvl w Hlen) as (Hl & _ & Hg & Hp & Hb & _).
  unfold steady, bricks_counted. rewrite Hg, Hp, Hb. gproj.
  split; [split; [exact Hl|reflexivity]|].
  split; [apply reset_ball_steady; assumption|].
  apply reset_paddle_steady; assumption.
Qed.

Lemma steady_reset_level (lvl : Z) (w : World) (g : GameState) :
  steady w -> steady (reset_level lvl (set_game_state g w)).
Proof.
  intros ([Hlen _] & (_ & Hbw & Hbh & _) & (Hpw & Hph & _)).
  apply reset_level_steady; assumption.
Qed.

Lemma level_check_steady (w : World) : steady w -> steady (level_check w).
Proof.
  intros Hs. destruct (level_check_cases w) as [[_ ->]|[(_ & _ & ->)|(_ & _ & ->)]].
  - exact Hs.
  - apply finish_session_steady. exact Hs.
  - apply steady_reset_level. exact Hs.
Qed.

Lemma update_engine_steady (dt : R) (w : World) : steady w -> steady (update_engine dt w).
Proof.
  intros Hs. destruct (playing_dec (game_state w)) as [Hplay|Hskip].
  - rewrite (update_engine_playing dt w Hplay).
    apply update_collectibles_steady, level_check_steady, fall_check_steady,
      brick_collision_steady, before_bricks_steady. exact Hs.
  - rewrite (update_engine_skipped dt w Hskip). exact Hs.
Qed.

(** ** Input and the turns of the loop *)

Lemma reset_game_steady (w : World) : steady w -> steady (reset_game w).
Proof. intros Hs. unfold reset_game. wproj. gproj. apply steady_reset_level. exact Hs. Qed.

Lemma start_level_steady (w : World) : steady w -> steady (start_level w).
Proof. intros Hs. unfold start_level. wproj. gproj. apply steady_reset_level. exact Hs. Qed.

Lemma handle_input_steady (menu : RectF) (ev : Event) (w : World) :
  steady w -> steady (handle_input menu ev w).
Proof.
  intros Hs. unfold handle_input.
  destruct ev as [|[| | | |]|mx|mx my|]; try exact Hs.
  - case_if; exact Hs.
  - case_if; [apply start_level_steady; exact Hs|].
    case_if; [exact Hs|]. case_if; [|exact Hs].
    destruct Hs as (Hc & Hb & Hp). destruct (serve_fields w) as (Ep & Ek & Eg & _).
    unfold steady, bricks_counted in *. rewrite Ep, Ek, Eg.
    split; [exact Hc|]. split; [apply serve_steady; exact Hb|exact Hp].
  - apply reset_game_steady. exact Hs.
  - destruct Hs as (Hc & Hb & Hp). unfold steady, bricks_counted in *. wproj.
    split; [exact Hc|]. split; [exact Hb|]. apply pointer_move_steady. exact Hp.
  - case_if; [|exact Hs]. case_if; [apply start_level_steady; exact Hs|exact Hs].
Qed.

Lemma frame_steady (menu : RectF) (events : list Event) (left right : bool) (dt : R)
    (w : World) :
  steady w -> steady (frame menu events left right dt w).
Proof.
  intros Hs. unfold frame. apply update_engine_steady.
  assert (He : steady (foldl (fun w ev => handle_input menu ev w) w events)).
  { apply (foldl_invariant steady); [exact Hs|].
    intros w' ev Hw'. apply handle_input_steady. exact Hw'. }
  destruct He as (Hc & Hb & Hp). unfold steady, bricks_counted in *. wproj.
  split; [exact Hc|]. split; [exact Hb|]. apply keyboard_move_steady. exact Hp.
Qed.

Lemma load_leaderboard_fields (w : World) :
  paddle (load_leaderboard w) = paddle w /\ ball (load_leaderboard w) = ball w /\
  bricks (load_leaderboard w) = bricks w /\ game_state (load_leaderboard w) = game_state w /\
  collectibles (load_leaderboard w) = collectibles w /\
  high_score (load_leaderboard w) = high_score w /\ disk (load_leaderboard w) = disk w.
Proof.
  unfold load_leaderboard. destruct (leaderboard_dat (disk w)); cbn; repeat split; reflexivity.
Qed.

Lemma load_highscore_fields (w : World) :
  paddle (load_highscore w) = paddle w /\ ball (load_highscore w) = ball w /\
  bricks (load_highscore w) = bricks w /\ game_state (load_highscore w) = game_state w /\
  collectibles (load_highscore w) = collectibles w /\
  leaderboard (load_highscore w) = leaderboard w /\ disk (load_highscore w) = disk w.
Proof.
  unfold load_highscore. destruct (highscore_dat (disk w)); cbn; repeat split; reflexivity.
Qed.

Lemma main_start_steady (w0 : World) :
  length (bricks w0) = BRICK_COUNT -> steady (main_start w0).
Proof.
  intros Hlen. unfold main_start, reset_game, initialize_all. wproj. gproj.
  destruct (load_leaderboard_fields
              (load_highscore
                 (set_ball
                    (set_ball_rect
                       (mkRectF (rx (ball_rect (ball w0))) (ry (ball_rect (ball w0)))
                                (IZR BALL_SIZE) (IZR BALL_SIZE)) (ball w0))
                    (set_paddle
                       (mkPaddle
                          (mkRectF (rx (paddle_rect (paddle w0))) (ry (paddle_rect (paddle w0)))
                                   (IZR PADDLE_WIDTH) (IZR PADDLE_HEIGHT)) 0) w0))))
    as (Ep & Eb & Ek & _).
  destruct (load_highscore_fields
              (set_ball
                 (set_ball_rect
                    (mkRectF (rx (ball_rect (ball w0))) (ry (ball_rect (ball w0)))
                             (IZR BALL_SIZE) (IZR BALL_SIZE)) (ball w0))
                 (set_paddle
                    (mkPaddle
                       (mkRectF (rx (paddle_rect (paddle w0))) (ry (paddle_rect (paddle w0)))
                                (IZR PADDLE_WIDTH) (IZR PADDLE_HEIGHT)) 0) w0)))
    as (Ep' & Eb' & Ek' & _).
  apply reset_level_steady; wproj; rproj.
  - rewrite Ek, Ek'. exact Hlen.
  - reflexivity.
  - reflexivity.
  - change (WINDOW_WIDTH ÷ 2)%Z with 480%Z. unfold PADDLE_WIDTH. lra.
  - reflexivity.
Qed.

Lemma running_steady (w0 w : World) :
  length (bricks w0) = BRICK_COUNT -> running w0 w -> steady w.
Proof.
  intros Hlen Hrun. induction Hrun as [|menu events left right dt w Hrun IH Hr].
  - apply main_start_steady. exact Hlen.
  - apply frame_steady. exact IH.
Qed.


(** ** The state at the start of the loop *)

Lemma initialize_all_fields (w : World) :
  paddle (initialize_all w) =
    mkPaddle (mkRectF (rx (paddle_rect (paddle w))) (ry (paddle_rect (paddle w)))
                      (IZR PADDLE_WIDTH) (IZR PADDLE_HEIGHT)) 0 /\
  ball (initialize_all w) =
    set_ball_rect (mkRectF (rx (ball_rect (ball w))) (ry (ball_rect (ball w)))
                           (IZR BALL_SIZE) (IZR BALL_SIZE)) (ball w) /\
  bricks (initialize_all w) = bricks w /\
  game_state (initialize_all w) = game_state w /\
  collectibles (initialize_all w) = map (set_col_alive false) (collectibles w) /\
  high_score (initialize_all w) = default 0%Z (highscore_dat (disk w)) /\
  disk (initialize_all w) = disk w /\
  record_calls (initialize_all w) = record_calls w.
Proof.
  unfold initialize_all. wproj.
  set (w1 := set_ball _ _).
  destruct (load_highscore_fields w1) as (Ep & Eb & Ek & Eg & Ec & _ & Ed).
  destruct (load_leaderboard_fields (load_highscore w1)) as (Ep' & Eb' & Ek' & Eg' & Ec' & Eh' & Ed').
  rewrite Ep', Eb', Ek', Eg', Ec', Eh', Ed', Ep, Eb, Ek, Eg, Ec, Ed.
  repeat (split; [reflexivity|]).
  split; [|split; [reflexivity|]].
  - unfold load_highscore. destruct (highscore_dat (disk w1)) eqn:E;
      unfold w1 in E; cbn in E; rewrite E; reflexivity.
  - unfold load_leaderboard, load_highscore.
    destruct (highscore_dat (disk w1)), (leaderboard_dat _); reflexivity.
Qed.

Lemma main_start_fields (w0 : World) :
  length (bricks w0) = BRICK_COUNT ->
  game_state (main_start w0) =
    mkGameState 0 STARTING_LIVES 1 (count_alive (bricks (main_start w0))) false true true /\
  paddle (main_start w0) =
    mkPaddle (mkRectF ((IZR WINDOW_WIDTH - IZR PADDLE_WIDTH) / 2)
                      (IZR (WINDOW_HEIGHT - PADDLE_Y_OFFSET))
                      (IZR PADDLE_WIDTH) (IZR PADDLE_HEIGHT)) 0 /\
  ball (main_start w0) =
    mkBall (mkRectF ((IZR WINDOW_WIDTH - IZR PADDLE_WIDTH) / 2
                     + (IZR PADDLE_WIDTH - IZR BALL_SIZE) / 2)
                    (IZR (WINDOW_HEIGHT - PADDLE_Y_OFFSET) - IZR BALL_SIZE - 2)
                    (IZR BALL_SIZE) (IZR BALL_SIZE))
           0 (-1) BALL_SPEED_INITIAL true /\
  high_score (main_start w0) = default 0%Z (highscore_dat (disk w0)) /\
  disk (main_start w0) = disk w0 /\
  record_calls (main_start w0) = record_calls w0.
Proof.
  intros Hlen. unfold main_start, reset_game.
  destruct (initialize_all_fields w0) as (Ep & Eb & Ek & Eg & _ & Eh & Ed & Er).
  set (w1 := initialize_all w0) in *.
  wproj. gproj.
  set (w2 := set_game_state _ _).
  assert (Hlen2 : length (bricks w2) = BRICK_COUNT) by (unfold w2; wproj; rewrite Ek; exact Hlen).
  destruct (reset_level_spec 1 w2 Hlen2) as (_ & _ & Hg & Hp & Hb & Hh & _ & Hd & Hr).
  rewrite Hg, Hp, Hb, Hh, Hd, Hr. unfold w2. wproj. gproj.
  unfold reset_ball, reset_paddle, ball_on_paddle. rproj.
  rewrite Eh, Ed, Er. repeat split; reflexivity.
Qed.

End FullSteady.

(** * [arkanoid_full.c]: what the level reset and the end of a session leave alone *)

Section FullFrames.

Import Full.

Ltac wproj :=
  cbn [paddle ball bricks game_state collectibles high_score leaderboard rand_stream disk
       record_calls set_paddle set_ball set_bricks set_game_state set_collectibles
       set_high_score set_leaderboard set_rand_stream set_disk set_record_calls
       clamp_paddle_position].

Ltac gproj :=
  cbn [score lives level bricks_remaining is_paused is_running show_menu set_score set_lives
       set_level set_bricks_remaining end_session set_is_paused set_is_running set_show_menu].

Lemma fallback_layout_outside (lvl : Z) (w : World) :
  same_outside_level w (fallback_layout lvl w) /\
  exists n, game_state (fallback_layout lvl w) = set_bricks_remaining n (game_state w).
Proof.
  unfold fallback_layout. rewrite nested_loops_grid.
  assert (Hout : same_outside_level w
            (foldl (fun st rc => fallback_cell lvl rc.1 rc.2 st) (w, 0%Z) grid).1 /\
          game_state (foldl (fun st rc => fallback_cell lvl rc.1 rc.2 st) (w, 0%Z) grid).1 =
          game_state w).
  { apply (foldl_invariant
             (fun st : World * Z => same_outside_level w st.1 /\ game_state st.1 = game_state w)).
    - unfold same_outside_level. simpl. tauto.
    - intros st rc [Hs Hg]. destruct (fallback_cell_outside lvl rc.1 rc.2 st) as [Hs' Hg'].
      unfold same_outside_level in *. rewrite Hg'. intuition congruence. }
  destruct (foldl (fun st rc => fallback_cell lvl rc.1 rc.2 st) (w, 0%Z) grid) as [w' n].
  cbn [fst snd] in *. destruct Hout as [Hout Hg]. split.
  - unfold same_outside_level in *. wproj. tauto.
  - exists n. wproj. rewrite Hg. reflexivity.
Qed.

(** The level reset, whatever the size of the array. *)
Lemma reset_level_outside (lvl : Z) (w : World) :
  paddle (reset_level lvl w) = reset_paddle (paddle w) /\
  ball (reset_level lvl w) = reset_ball (reset_paddle (paddle w)) (ball w) /\
  collectibles (reset_level lvl w) = map (set_col_alive false) (collectibles w) /\
  high_score (reset_level lvl w) = high_score w /\
  leaderboard (reset_level lvl w) = leaderboard w /\
  disk (reset_level lvl w) = disk w /\
  record_calls (reset_level lvl w) = record_calls w /\
  exists n, game_state (reset_level lvl w) = set_bricks_remaining n (game_state w).
Proof.
  unfold reset_level, load_level_from_file.
  destruct (level_txt (disk w) lvl) as [lines|].
  - wproj. repeat (split; [reflexivity|]). eexists. reflexivity.
  - destruct (fallback_layout_outside lvl w) as [Hout [n Hg]].
    unfold same_outside_level in Hout. destruct Hout as (Hp & Hb & Hc & Hh & Hl & Hd & Hr).
    wproj. rewrite Hp, Hb, Hc, Hh, Hl, Hd, Hr.
    repeat (split; [reflexivity|]). exists n. exact Hg.
Qed.

Lemma finish_session_high_score (w : World) :
  high_score (finish_session w) = Z.max (high_score w) (score (game_state w)) /\
  highscore_dat (disk (finish_session w)) =
    (if (score (game_state w) >? high_score w)%Z && writable (disk w)
     then Some (score (game_state w)) else highscore_dat (disk w)).
Proof.
  unfold finish_session.
  set (sc := score (game_state w)).
  set (w1 := if (sc >? high_score w)%Z then save_highscore (set_high_score sc w) else w).
  assert (H1 : high_score w1 = Z.max (high_score w) sc /\
               highscore_dat (disk w1) =
                 (if (sc >? high_score w)%Z && writable (disk w)
                  then Some sc else highscore_dat (disk w))).
  { unfold w1, save_highscore. destruct (Z.gtb_spec sc (high_score w)); cbn [andb].
    - wproj. destruct (writable (disk w)); wproj; split; try reflexivity; lia.
    - split; [lia|reflexivity]. }
  destruct H1 as [Hh Hd].
  destruct (add_to_leaderboard_fields sc w1) as (_ & _ & _ & Hg & _ & Hh' & _).
  wproj. rewrite Hh', Hh. split; [reflexivity|].
  rewrite <- Hd. unfold add_to_leaderboard, save_leaderboard.
  repeat case_if; reflexivity.
Qed.

Lemma brick_collision_high_score (w : World) :
  high_score (brick_collision w) = high_score w /\ disk (brick_collision w) = disk w /\
  record_calls (brick_collision w) = record_calls w.
Proof.
  unfold brick_collision. destruct (negb (is_held (ball w))); [|auto].
  pose proof (scan_rows_spec w BRICK_ROWS 0) as Hscan.
  destruct (scan_rows (seq 0 BRICK_ROWS) w) as [w'|]; [|auto].
  destruct Hscan as (r & c & b & _ & _ & _ & _ & _ & _ & _ & ->).
  destruct (brick_hit_fields r c b w) as (_ & _ & _ & _ & -> & _ & -> & ->). auto.
Qed.

(** A held ball overlaps nothing that matters: the brick block and the fall
    test leave the world alone. *)
Lemma held_ball_blocks (w : World) :
  is_held (ball w) = true -> brick_collision w = w /\ fall_check w = w.
Proof.
  intros H. unfold brick_collision, fall_check. rewrite H. auto.
Qed.

(** The reflection off a brick of the field leaves the ball above the
    bottom edge. *)
Lemma resolve_brick_above (b : Ball) (br : RectF) :
  rect_overlap (ball_rect b) br = true -> ry br + rh br <= IZR WINDOW_HEIGHT ->
  ry (ball_rect (resolve_brick b br)) <= IZR WINDOW_HEIGHT.
Proof.
  intros Ho Hin. apply rect_overlap_true in Ho. unfold resolve_brick.
  repeat (rcase; rproj); unfold overlap_top, overlap_bottom; lra.
Qed.


(** ** The high score through the blocks of a step *)

Lemma fall_check_high_score (w : World) :
  (high_score (fall_check w) = high_score w /\
   is_running (game_state (fall_check w)) = is_running (game_state w)) \/
  (high_score (fall_check w) = Z.max (high_score w) (score (game_state w)) /\
   is_running (game_state (fall_check w)) = false).
Proof.
  unfold fall_check. case_if; [|left; auto].
  wproj. gproj. case_if; [|left; auto].
  right.
  set (w1 := set_game_state _ w).
  destruct (finish_session_high_score w1) as [-> _].
  destruct (finish_session_fields w1) as (_ & _ & _ & -> & _).
  auto.
Qed.

Lemma level_check_high_score (w : World) :
  (high_score (level_check w) = high_score w /\
   is_running (game_state (level_check w)) = is_running (game_state w)) \/
  (high_score (level_check w) = Z.max (high_score w) (score (game_state w)) /\
   is_running (game_state (level_check w)) = false).
Proof.
  destruct (level_check_cases w) as [[_ ->]|[(_ & _ & ->)|(_ & _ & ->)]].
  - left. auto.
  - right.
    set (w1 := set_game_state _ w).
    destruct (finish_session_high_score w1) as [-> _].
    destruct (finish_session_fields w1) as (_ & _ & _ & -> & _).
    auto.
  - left.
    set (w1 := set_game_state _ w).
    destruct (reset_level_outside (wrap32 (level (game_state w) + 1)) w1)
      as (_ & _ & _ & -> & _ & _ & _ & n & ->).
    auto.
Qed.

Lemma level_check_score (w : World) :
  score (game_state (level_check w)) = score (game_state w).
Proof.
  destruct (level_check_cases w) as [[_ ->]|[(_ & _ & ->)|(_ & _ & ->)]].
  - reflexivity.
  - set (w1 := set_game_state _ w).
    destruct (finish_session_fields w1) as (_ & _ & _ & -> & _). reflexivity.
  - set (w1 := set_game_state _ w).
    destruct (reset_level_outside (wrap32 (level (game_state w) + 1)) w1)
      as (_ & _ & _ & _ & _ & _ & _ & n & ->).
    reflexivity.
Qed.

(** ** The serve *)



End FullFrames.

(** * [arkanoid_full.c]: properties of a run *)

Section FullRun.

Import Full.

Ltac wproj :=
  cbn [paddle ball bricks game_state collectibles high_score leaderboard rand_stream disk
       record_calls set_paddle set_ball set_bricks set_game_state set_collectibles
       set_high_score set_leaderboard set_rand_stream set_disk set_record_calls
       clamp_paddle_position].

Ltac gproj :=
  cbn [score lives level bricks_remaining is_paused is_running show_menu set_score set_lives
       set_level set_bricks_remaining end_session set_is_paused set_is_running set_show_menu].

Lemma plain_world_length : length (bricks plain_world) = BRICK_COUNT.
Proof. reflexivity. Qed.

Lemma sample_run_running : running plain_world sample_run.
Proof.
  unfold sample_run. apply running_frame; [apply running_start|].
  destruct (main_start_fields plain_world plain_world_length) as (-> & _). reflexivity.
Qed.

(** X8.  In every state of a run of the program (the state [main] enters
    its loop with, and the state after any number of turns of the loop,
    whatever events, keys and frame times they see), the array holds its 84
    bricks and [bricks_remaining] is exactly the number of live bricks,
    between 0 and 84. *)
Theorem running_counts_live_bricks :
  forall w0 w : World,
    length (bricks w0) = BRICK_COUNT -> running w0 w ->
    length (bricks w) = BRICK_COUNT /\
    bricks_remaining (game_state w) = count_alive (bricks w) /\
    (0 <= bricks_remaining (game_state w) <= 84)%Z.
Proof.
  intros w0 w Hlen Hrun.
  destruct (running_steady w0 w Hlen Hrun) as ([Hl Hr] & _).
  split; [exact Hl|]. split; [exact Hr|].
  pose proof (count_alive_bounds (bricks w)) as Hb. rewrite Hl in Hb.
  unfold BRICK_COUNT, BRICK_ROWS, BRICK_COLUMNS in Hb. lia.
Qed.

Lemma running_counts_witness :
  bricks_remaining (game_state sample_run) = count_alive (bricks sample_run).
Proof.
  apply (running_counts_live_bricks plain_world sample_run plain_world_length
           sample_run_running).
Defined.





(** X11.  The state [main] enters its loop with, whatever the globals held
    before: the menu is shown and the session marked as running, with score
    0, [STARTING_LIVES] lives and level 1; the paddle has its initial size
    and is centred; the ball is held on it, centred, 2 above it, pointing
    straight up with the initial speed; the high score is the one of the
    file, 0 without a file; and the engine step does nothing as long as the
    menu is shown. *)
Theorem main_start_state :
  forall (w0 : World) (dt : R),
    length (bricks w0) = BRICK_COUNT ->
    game_state (main_start w0) =
      mkGameState 0 STARTING_LIVES 1 (count_alive (bricks (main_start w0))) false true true /\
    paddle (main_start w0) = mkPaddle (mkRectF 410 576 140 18) 0 /\
    ball (main_start w0) = mkBall (mkRectF 473 560 14 14) 0 (-1) 420 true /\
    high_score (main_start w0) = default 0%Z (highscore_dat (disk w0)) /\
    record_calls (main_start w0) = record_calls w0 /\
    update_engine dt (main_start w0) = main_start w0.
Proof.
  intros w0 dt Hlen.
  destruct (main_start_fields w0 Hlen) as (Hg & Hp & Hb & Hh & _ & Hr).
  split; [exact Hg|]. split; [|split; [|split; [exact Hh|split; [exact Hr|]]]].
  - rewrite Hp. unfold WINDOW_WIDTH, WINDOW_HEIGHT, PADDLE_Y_OFFSET, PADDLE_WIDTH, PADDLE_HEIGHT.
    znorm. do 2 f_equal. lra.
  - rewrite Hb. unfold WINDOW_WIDTH, WINDOW_HEIGHT, PADDLE_Y_OFFSET, PADDLE_WIDTH, BALL_SIZE,
      BALL_SPEED_INITIAL.
    znorm. do 2 f_equal; lra.
  - apply update_engine_skipped. rewrite Hg. unfold playing. gproj.
    intros (_ & _ & H). discriminate.
Qed.

Lemma main_start_witness :
  ball (main_start plain_world) = mkBall (mkRectF 473 560 14 14) 0 (-1) 420 true /\
  update_engine (1 / 60) (main_start plain_world) = main_start plain_world.
Proof.
  destruct (main_start_state plain_world (1 / 60) plain_world_length)
    as (_ & _ & Hb & _ & _ & He).
  split; [exact Hb|exact He].
Defined.


(** ** Single steps of the engine *)

(** X12.  While the ball is held and the level is not cleared, an engine
    step of a playing session only carries the ball along with the paddle:
    the ball is put on the paddle, centred and 2 above it; no brick, no
    counter and no flag of the game state changes, and no score is
    recorded. *)
Theorem held_ball_step_is_quiet :
  forall (dt : R) (w : World),
    playing (game_state w) -> is_held (ball w) = true ->
    (0 < bricks_remaining (game_state w))%Z ->
    ball (update_engine dt w) = set_ball_rect (ball_on_paddle (paddle w) (ball w)) (ball w) /\
    bricks (update_engine dt w) = bricks w /\
    game_state (update_engine dt w) = game_state w /\
    record_calls (update_engine dt w) = record_calls w.
Proof.
  intros dt w Hplay Hheld Hrem.
  rewrite (update_engine_playing dt w Hplay).
  destruct (before_bricks_fields dt w) as (_ & Hk & Hg & _ & _ & _ & _ & Hr & Hb).
  pose proof (before_bricks_held dt w) as Hh. rewrite Hheld in Hh.
  set (w1 := before_bricks dt w) in *.
  destruct (held_ball_blocks w1 Hh) as [-> ->].
  assert (Hlc : level_check w1 = w1).
  { destruct (level_check_cases w1) as [[_ E]|[(Hz & _)|(Hz & _)]]; [exact E| |];
      rewrite Hg in Hz; lia. }
  rewrite Hlc.
  destruct (update_collectibles_fields dt w1) as (-> & -> & -> & _ & _ & _ & -> & _).
  rewrite Hb, Hk, Hg, Hr.
  rewrite held_ball_misses_paddle by exact Hheld.
  rewrite wall_collision_fixes_held by (rewrite move_ball_held; exact Hheld).
  unfold move_ball. rewrite Hheld. auto.
Qed.

Lemma held_ball_witness :
  bricks (update_engine (1 / 60) held_world) = bricks held_world /\
  game_state (update_engine (1 / 60) held_world) = game_state held_world.
Proof.
  destruct (held_ball_step_is_quiet (1 / 60) held_world) as (_ & Hk & Hg & _).
  - repeat split; reflexivity.
  - reflexivity.
  - reflexivity.
  - split; [exact Hk|exact Hg].
Defined.

(** X13.  A ball that falls below the bottom edge while more than one life
    is left costs one life and nothing else: the score, the level and the
    bricks are kept, the session goes on playing, no score is recorded; the
    ball is held again, pointing straight up, with the initial speed. *)
Theorem lost_life_rearms_ball :
  forall (dt : R) (w : World),
    playing (game_state w) ->
    (1 < lives (game_state w) <= INT_MAX)%Z ->
    is_held (ball w) = false ->
    (0 < bricks_remaining (game_state w))%Z ->
    bricks_in_field (bricks w) ->
    IZR WINDOW_HEIGHT < ry (ball_rect (ball (before_bricks dt w))) ->
    game_state (update_engine dt w) = set_lives (lives (game_state w) - 1) (game_state w) /\
    playing (game_state (update_engine dt w)) /\
    is_held (ball (update_engine dt w)) = true /\
    vx (ball (update_engine dt w)) = 0 /\
    vy (ball (update_engine dt w)) = -1 /\
    speed (ball (update_engine dt w)) = BALL_SPEED_INITIAL /\
    bricks (update_engine dt w) = bricks w /\
    record_calls (update_engine dt w) = record_calls w.
Proof.
  intros dt w Hplay Hlives Hheld Hrem Hin Hlow.
  rewrite (update_engine_playing dt w Hplay).
  destruct (before_bricks_fields dt w) as (_ & Hb0 & Hg0 & _ & _ & _ & _ & Hr0 & _).
  pose proof (before_bricks_held dt w) as Hh0.
  set (w1 := before_bricks dt w) in *.
  rewrite (brick_collision_misses w1)
    by (rewrite Hb0; apply ball_below_misses; assumption).
  assert (Hw : wrap32 (lives (game_state w) - 1) = (lives (game_state w) - 1)%Z).
  { apply wrap32_id. unfold in_int, INT_MIN, INT_MAX in *. lia. }
  assert (Hfall : fall_check w1 =
                  set_paddle (center_paddle (paddle w1))
                    (set_ball (rearm_ball (ball w1))
                       (set_game_state (set_lives (lives (game_state w) - 1) (game_state w)) w1))).
  { unfold fall_check. rewrite Hh0, Hheld. apply Rltb_lt in Hlow. rewrite Hlow.
    cbn [negb andb]. wproj. gproj. rewrite Hg0, Hw.
    destruct (Z.leb_spec (lives (game_state w) - 1) 0); [lia|reflexivity]. }
  set (w3 := fall_check w1) in *.
  assert (Hlc : level_check w3 = w3).
  { destruct (level_check_cases w3) as [[_ E]|[(Hz & _)|(Hz & _)]]; [exact E| |];
      rewrite Hfall in Hz; revert Hz; wproj; gproj; lia. }
  rewrite Hlc.
  destruct (update_collectibles_fields dt w3) as (-> & -> & -> & _ & _ & _ & -> & _).
  rewrite Hfall. wproj. rewrite Hb0, Hr0.
  split; [reflexivity|]. split.
  - destruct Hplay as (H1 & H2 & H3). unfold playing. gproj. auto.
  - repeat split; reflexivity.
Qed.

Lemma falling_world_in_field : bricks_in_field (bricks falling_world).
Proof.
  intros k b Hb _. unfold falling_world, last_life_world, full_wall in Hb.
  cbn [bricks set_game_state] in Hb.
  rewrite list_lookup_fmap in Hb.
  destruct (grid !! k) as [[r c]|] eqn:Hk; [|discriminate].
  injection Hb as <-. destruct (grid_lookup k r c Hk) as (_ & Hr & _).
  cbn [brick_rect cell_rect ry rh fst snd].
  unfold BRICK_ROWS, BRICK_HEIGHT, BRICK_PADDING, WINDOW_HEIGHT in *.
  rewrite <- plus_IZR. apply IZR_le. lia.
Qed.

Lemma falling_world_below :
  IZR WINDOW_HEIGHT < ry (ball_rect (ball (before_bricks (1 / 20) falling_world))).
Proof.
  unfold before_bricks, falling_world, last_life_world. cbn [ball paddle set_ball set_game_state].
  unfold move_ball, wall_collision, paddle_collision, rect_overlap. reval.
  unfold WINDOW_HEIGHT. lra.
Qed.

Lemma lost_life_witness :
  lives (game_state (update_engine (1 / 20) falling_world)) = 2%Z /\
  is_held (ball (update_engine (1 / 20) falling_world)) = true.
Proof.
  destruct (lost_life_rearms_ball (1 / 20) falling_world) as (Hg & _ & Hh & _).
  - repeat split; reflexivity.
  - cbn. unfold INT_MAX. lia.
  - reflexivity.
  - reflexivity.
  - apply falling_world_in_field.
  - apply falling_world_below.
  - rewrite Hg. split; [reflexivity|exact Hh].
Defined.

(** X14.  The step that destroys the last live brick of a level: the brick
    gives its 10 points; below the last level, the level goes up by one, its
    bricks are laid out ([bricks_remaining] counts them) and the ball is held
    again with the initial speed, the session playing on with the same
    lives and nothing recorded; on the last level, the level counter passes
    [MAX_LEVELS], the session ends ([is_running = 0], [show_menu = 1]), the
    final score is recorded once and the high score is raised to it when it
    is higher. *)
Theorem last_brick_clears_level :
  forall (dt : R) (w : World) (k : nat),
    playing (game_state w) -> is_held (ball w) = false ->
    length (bricks w) = BRICK_COUNT ->
    bricks_remaining (game_state w) = 1%Z ->
    bricks_in_field (bricks w) ->
    hits (ball_rect (ball (before_bricks dt w))) (bricks w) k = true ->
    (1 <= level (game_state w) <= MAX_LEVELS)%Z ->
    score (game_state (update_engine dt w)) = wrap32 (score (game_state w) + 10) /\
    lives (game_state (update_engine dt w)) = lives (game_state w) /\
    level (game_state (update_engine dt w)) = (level (game_state w) + 1)%Z /\
    ((level (game_state w) < MAX_LEVELS)%Z ->
     playing (game_state (update_engine dt w)) /\
     length (bricks (update_engine dt w)) = BRICK_COUNT /\
     bricks_remaining (game_state (update_engine dt w)) =
       count_alive (bricks (update_engine dt w)) /\
     is_held (ball (update_engine dt w)) = true /\
     speed (ball (update_engine dt w)) = BALL_SPEED_INITIAL /\
     record_calls (update_engine dt w) = record_calls w) /\
    (level (game_state w) = MAX_LEVELS ->
     is_running (game_state (update_engine dt w)) = false /\
     show_menu (game_state (update_engine dt w)) = true /\
     record_calls (update_engine dt w) =
       score (game_state (update_engine dt w)) :: record_calls w /\
     high_score (update_engine dt w) =
       Z.max (high_score w) (score (game_state (update_engine dt w)))).
Proof.
  intros dt w k Hplay Hheld Hlen Hrem Hin Hk Hlvl.
  rewrite (update_engine_playing dt w Hplay).
  destruct (before_bricks_fields dt w) as (_ & Hb0 & Hg0 & _ & Hh0 & _ & _ & Hr0 & _).
  pose proof (before_bricks_held dt w) as Hheld1. rewrite Hheld in Hheld1.
  set (w1 := before_bricks dt w) in *.
  assert (Hlen1 : length (bricks w1) = BRICK_COUNT) by (rewrite Hb0; exact Hlen).
  destruct (brick_collision_cases w1 Hlen1 Hheld1) as [[_ Hnone]|Hhit].
  { specialize (Hnone k). rewrite Hb0, Hk in Hnone. discriminate. }
  destruct Hhit as (k' & r & c & b & Hcell & Hb & Ha & Ho & _ & Hbc).
  destruct (brick_hit_fields r c b w1) as (_ & Hball & Hbs & Hgs & Hhs & _ & _ & Hrs).
  rewrite <- Hbc in Hball, Hbs, Hgs, Hhs, Hrs.
  destruct (brick_collision_paddle w1) as [_ Hlen2].
  set (w2 := brick_collision w1) in *.
  rewrite Hg0, Hrem in Hgs. change (wrap32 (1 - 1)) with 0%Z in Hgs.
  assert (Hfall : fall_check w2 = w2).
  { unfold fall_check. rewrite Hball. rproj.
    replace (Rltb (IZR WINDOW_HEIGHT)
               (ry (ball_rect (resolve_brick (ball w1) (brick_rect b))))) with false.
    - rewrite andb_false_r. reflexivity.
    - symmetry. apply Rltb_ge. apply resolve_brick_above; [exact Ho|].
      apply (Hin k' b); [rewrite <- Hb0; exact Hb|exact Ha]. }
  rewrite Hfall.
  assert (Enext : wrap32 (level (game_state w) + 1) = (level (game_state w) + 1)%Z).
  { apply wrap32_id. unfold in_int, INT_MIN, INT_MAX, MAX_LEVELS in *. lia. }
  destruct (level_check_cases w2) as [[Hpos _]|[(_ & Hgt & Hlc)|(_ & Hle & Hlc)]].
  - rewrite Hgs in Hpos. revert Hpos. gproj. lia.
  - rewrite Hgs in Hgt, Hlc. revert Hgt Hlc. gproj. rewrite Enext. intros Hgt Hlc.
    set (w3 := set_game_state _ w2) in Hlc.
    destruct (finish_session_fields w3) as (_ & _ & _ & Hg & _ & Hr).
    destruct (finish_session_high_score w3) as [Hh _].
    rewrite <- Hlc in Hg, Hr, Hh.
    destruct (update_collectibles_fields dt (level_check w2))
      as (_ & _ & -> & -> & _ & _ & -> & _).
    rewrite Hg, Hr, Hh. unfold w3. wproj. gproj. rewrite Hhs, Hh0, Hrs, Hr0.
    split; [reflexivity|]. split; [reflexivity|]. split; [reflexivity|].
    split; [intros Hlt; lia|]. intros _. repeat split; reflexivity.
  - rewrite Hgs in Hle, Hlc. revert Hle Hlc. gproj. rewrite Enext. intros Hle Hlc.
    set (w3 := set_game_state _ w2) in Hlc.
    assert (Hlen3 : length (bricks w3) = BRICK_COUNT).
    { unfold w3. wproj. rewrite Hlen2. exact Hlen1. }
    destruct (reset_level_spec (level (game_state w) + 1) w3 Hlen3)
      as (Hl & _ & Hg & _ & Hbl & _ & _ & _ & Hr).
    rewrite <- Hlc in Hl, Hg, Hbl, Hr.
    destruct (update_collectibles_fields dt (level_check w2))
      as (-> & -> & -> & _ & _ & _ & -> & _).
    rewrite Hg, Hbl, Hr. unfold w3. wproj. gproj. rewrite Hrs, Hr0.
    split; [reflexivity|]. split; [reflexivity|]. split; [reflexivity|].
    split; [|intros Heq; lia]. intros _.
    split; [destruct Hplay as (H1 & H2 & H3); unfold playing; gproj; auto|].
    split; [exact Hl|]. repeat split; reflexivity.
Qed.

Lemma one_brick_wall_lookup (k : nat) (b : Brick) :
  one_brick_wall !! k = Some b ->
  exists r c, grid !! k = Some (r, c) /\ brick_rect b = cell_rect r c /\
              is_alive b = Nat.eqb k 72.
Proof.
  unfold one_brick_wall. rewrite list_lookup_fmap. intros Hb.
  destruct (grid !! k) as [[r c]|] eqn:Hk; [|discriminate].
  injection Hb as <-. destruct (grid_lookup k r c Hk) as (Hidx & _).
  exists r, c. cbn [brick_rect is_alive fst snd]. rewrite Hidx. auto.
Qed.

Lemma last_brick_world_in_field (lvl : Z) : bricks_in_field (bricks (last_brick_world lvl)).
Proof.
  intros k b Hb _. cbn [bricks last_brick_world] in Hb.
  destruct (one_brick_wall_lookup k b Hb) as (r & c & Hk & -> & _).
  destruct (grid_lookup k r c Hk) as (_ & Hr & _).
  cbn [cell_rect ry rh]. unfold BRICK_ROWS, BRICK_HEIGHT, BRICK_PADDING, WINDOW_HEIGHT in *.
  rewrite <- plus_IZR. apply IZR_le. lia.
Qed.

Lemma last_brick_world_ball (lvl : Z) :
  ball (before_bricks 0 (last_brick_world lvl)) =
  mkBall (mkRectF (70 + 0 * 420 * 0) (290 + -1 * 420 * 0) 14 14) 0 (-1) 420 false.
Proof.
  unfold before_bricks, last_brick_world. cbn [ball paddle set_ball].
  unfold move_ball, wall_collision, paddle_collision. reval. reflexivity.
Qed.

Lemma last_brick_world_hits (lvl : Z) :
  hits (ball_rect (ball (before_bricks 0 (last_brick_world lvl))))
       (bricks (last_brick_world lvl)) 72 = true.
Proof.
  rewrite last_brick_world_ball. apply hits_true.
  exists (mkBrick (cell_rect 6 0) true (cell_color 6 0 1) false).
  split; [reflexivity|]. split; [reflexivity|].
  unfold rect_overlap, cell_rect. cbn [brick_rect]. reval. reflexivity.
Qed.

(** The last brick of level 3 and the last brick of the game. *)
Lemma last_brick_witness :
  level (game_state (update_engine 0 (last_brick_world 3))) = 4%Z /\
  is_held (ball (update_engine 0 (last_brick_world 3))) = true /\
  is_running (game_state (update_engine 0 (last_brick_world 10))) = false /\
  record_calls (update_engine 0 (last_brick_world 10)) = [840%Z].
Proof.
  destruct (last_brick_clears_level 0 (last_brick_world 3) 72)
    as (_ & _ & Hl & Hnext & _);
    [repeat split; reflexivity | reflexivity | reflexivity | reflexivity
    | apply last_brick_world_in_field | apply last_brick_world_hits
    | cbn; unfold MAX_LEVELS; lia |].
  destruct (last_brick_clears_level 0 (last_brick_world 10) 72)
    as (Hs & _ & _ & _ & Hend);
    [repeat split; reflexivity | reflexivity | reflexivity | reflexivity
    | apply last_brick_world_in_field | apply last_brick_world_hits
    | cbn; unfold MAX_LEVELS; lia |].
  destruct Hnext as (_ & _ & _ & Hh & _); [cbn; unfold MAX_LEVELS; lia|].
  destruct Hend as (Hr & _ & Hc & _); [reflexivity|].
  split; [exact Hl|]. split; [exact Hh|]. split; [exact Hr|].
  rewrite Hc, Hs. reflexivity.
Defined.


(** X15.  An engine step never lowers the high score, and changes it only
    when it ends the session, to the final score of that session.  At
    shutdown, [cleanup_all] raises the high score to the score of the
    session that was interrupted, when that is higher, and then writes it to
    the file if the file can be written. *)
Theorem update_engine_high_score :
  forall (dt : R) (w : World),
    (high_score w <= high_score (update_engine dt w))%Z /\
    (high_score (update_engine dt w) = high_score w \/
     high_score (update_engine dt w) = score (game_state (update_engine dt w)) /\
     is_running (game_state (update_engine dt w)) = false) /\
    high_score (cleanup_all w) = Z.max (high_score w) (score (game_state w)) /\
    highscore_dat (disk (cleanup_all w)) =
      (if (score (game_state w) >? high_score w)%Z && writable (disk w)
       then Some (score (game_state w)) else highscore_dat (disk w)).
Proof.
  intros dt w.
  assert (Hclean : high_score (cleanup_all w) = Z.max (high_score w) (score (game_state w)) /\
                   highscore_dat (disk (cleanup_all w)) =
                     (if (score (game_state w) >? high_score w)%Z && writable (disk w)
                      then Some (score (game_state w)) else highscore_dat (disk w))).
  { unfold cleanup_all, save_highscore.
    destruct (Z.gtb_spec (score (game_state w)) (high_score w)); cbn [andb].
    - wproj. destruct (writable (disk w)); wproj; split; try reflexivity; lia.
    - split; [lia|reflexivity]. }
  cut ((high_score w <= high_score (update_engine dt w))%Z /\
       (high_score (update_engine dt w) = high_score w \/
        high_score (update_engine dt w) = score (game_state (update_engine dt w)) /\
        is_running (game_state (update_engine dt w)) = false)).
  { intros [HA HB]. split; [exact HA|]. split; [exact HB|exact Hclean]. }
  clear Hclean.
  destruct (playing_dec (game_state w)) as [Hplay|Hskip];
    [|rewrite (update_engine_skipped dt w Hskip); split; [lia|left; reflexivity]].
  rewrite (update_engine_playing dt w Hplay).
  destruct (before_bricks_fields dt w) as (_ & _ & _ & _ & Hh0 & _).
  set (w1 := before_bricks dt w) in *.
  destruct (brick_collision_high_score w1) as (Hh1 & _).
  set (w2 := brick_collision w1) in *.
  destruct (fall_check_fields w2) as (_ & Hs2 & _).
  pose proof (fall_check_high_score w2) as Hf.
  set (w3 := fall_check w2) in *.
  pose proof (level_check_score w3) as Hs3.
  pose proof (level_check_high_score w3) as Hl.
  set (w4 := level_check w3) in *.
  destruct (update_collectibles_fields dt w4) as (_ & _ & -> & -> & _).
  rewrite Hh1, Hh0 in Hf. rewrite Hs3, Hs2.
  destruct Hf as [[Hf Hr3]|[Hf Hr3]]; destruct Hl as [[Hl Hr4]|[Hl Hr4]];
    rewrite ?Hs2 in Hl; rewrite ?Hr3 in Hr4; rewrite Hl, Hf; (split; [lia|]).
  - left. reflexivity.
  - destruct (Z.max_spec (high_score w) (score (game_state w2))) as [[_ E]|[_ E]];
      [right; split; [lia|exact Hr4] | left; lia].
  - destruct (Z.max_spec (high_score w) (score (game_state w2))) as [[_ E]|[_ E]];
      [right; split; [lia|exact Hr4] | left; lia].
  - destruct (Z.max_spec (high_score w) (score (game_state w2))) as [[_ E]|[_ E]];
      [right; split; [lia|exact Hr4] | left; lia].
Qed.


(** ** Input *)



Lemma start_level_counters (w : World) :
  score (game_state (start_level w)) = score (game_state w) /\
  lives (game_state (start_level w)) = lives (game_state w) /\
  level (game_state (start_level w)) = level (game_state w).
Proof.
  unfold start_level. wproj. gproj.
  set (w1 := set_game_state _ w).
  destruct (reset_level_outside (level (game_state w)) w1)
    as (_ & _ & _ & _ & _ & _ & _ & n & ->).
  auto.
Qed.

(** X17.  No event but the key [r] touches the score, the lives or the
    level: leaving the menu with the space key or with a click on the play
    button lays the bricks of the current level out again and keeps all
    three, also after a session has ended.  The key [r] sets them to 0,
    [STARTING_LIVES] and 1 and shows the menu. *)
Theorem handle_input_counters :
  forall (menu : RectF) (ev : Event) (w : World),
    (ev = SDL_KEYDOWN SDLK_r /\
     score (game_state (handle_input menu ev w)) = 0%Z /\
     lives (game_state (handle_input menu ev w)) = STARTING_LIVES /\
     level (game_state (handle_input menu ev w)) = 1%Z /\
     show_menu (game_state (handle_input menu ev w)) = true) \/
    (ev <> SDL_KEYDOWN SDLK_r /\
     score (game_state (handle_input menu ev w)) = score (game_state w) /\
     lives (game_state (handle_input menu ev w)) = lives (game_state w) /\
     level (game_state (handle_input menu ev w)) = level (game_state w)).
Proof.
  intros menu ev w. unfold handle_input.
  destruct ev as [|[| | | |]|mx|mx my|];
    try (right; split; [discriminate|]; repeat case_if; wproj; gproj;
         try apply start_level_counters; auto; fail).
  left. split; [reflexivity|]. unfold reset_game. wproj. gproj.
  set (w1 := set_game_state _ w).
  destruct (reset_level_outside 1 w1) as (_ & _ & _ & _ & _ & _ & _ & n & ->).
  auto.
Qed.

End FullRun.

(** * [arkanoid_full.c]: level files, the procedural levels, and the files of the scores *)

Section FullFiles.

Import Full.

Ltac wproj :=
  cbn [paddle ball bricks game_state collectibles high_score leaderboard rand_stream disk
       record_calls set_paddle set_ball set_bricks set_game_state set_collectibles
       set_high_score set_leaderboard set_rand_stream set_disk set_record_calls
       clamp_paddle_position].

Ltac gproj :=
  cbn [score lives level bricks_remaining is_paused is_running show_menu set_score set_lives
       set_level set_bricks_remaining end_session set_is_paused set_is_running set_show_menu].

Lemma file_cell_flags (lines : list string) (r c : nat) (lvl : Z) :
  is_alive (file_cell (lines !! r) r c lvl) = file_alive lines r c /\
  special (file_cell (lines !! r) r c lvl) = file_special lines r c.
Proof.
  unfold file_cell, file_alive, file_special.
  destruct (lines !! r) as [ln|]; [|auto].
  destruct (String.get c ln) as [ch|]; [|auto].
  destruct (Ascii.eqb ch "#") eqn:E1; [|destruct (Ascii.eqb ch "A"); auto].
  apply Ascii.eqb_eq in E1. subst ch. auto.
Qed.

(** X18.  A level file that opens decides the level alone: the brick of
    the cell [(r, c)] is alive exactly when the character [c] of the line
    [r] is ['#'] or ['A'], special exactly when it is ['A']; cells past the
    end of a line or of the file are empty; [bricks_remaining] is the number
    of those characters in the 7 by 12 grid, and [rand()] is not called. *)
Theorem level_file_layout :
  forall (lvl : Z) (w : World) (lines : list string),
    level_txt (disk w) lvl = Some lines -> length (bricks w) = BRICK_COUNT ->
    (forall r c, (r < BRICK_ROWS)%nat -> (c < BRICK_COLUMNS)%nat ->
       exists b, bricks (reset_level lvl w) !! brick_index r c = Some b /\
                 brick_rect b = cell_rect r c /\
                 is_alive b = file_alive lines r c /\
                 special b = file_special lines r c /\
                 color_index b = cell_color r c lvl) /\
    bricks_remaining (game_state (reset_level lvl w)) = count_cells (file_alive lines) grid /\
    rand_stream (reset_level lvl w) = rand_stream w.
Proof.
  intros lvl w lines Hfile Hlen.
  unfold reset_level, load_level_from_file. rewrite Hfile. wproj. gproj.
  rewrite (nested_loops_grid
             (fun r c (bs : list Brick) =>
                <[brick_index r c := file_cell (lines !! r) r c lvl]> bs)).
  pose proof (grid_writes (fun bs : list Brick => bs)
                (fun r c (bs : list Brick) =>
                   <[brick_index r c := file_cell (lines !! r) r c lvl]> bs)
                (fun r c b => b = file_cell (lines !! r) r c lvl)
                (bricks w) Hlen) as Hw.
  destruct Hw as [Hl Hcells].
  { intros r c bs. eexists. split; reflexivity. }
  set (bs := foldl _ (bricks w) grid) in *.
  split; [|split; [|reflexivity]].
  - intros r c Hr Hc.
    destruct (Hcells (brick_index r c) r c (grid_index r c Hr Hc)) as (b & Hb & ->).
    exists (file_cell (lines !! r) r c lvl). split; [exact Hb|].
    destruct (file_cell_shape (lines !! r) r c lvl) as [H1 H2].
    destruct (file_cell_flags lines r c lvl) as [H3 H4]. auto.
  - rewrite take_ge by (rewrite Hl; unfold BRICK_COUNT; lia).
    apply count_alive_pointwise.
    + rewrite Hl, grid_length. reflexivity.
    + intros k r c Hk. destruct (Hcells k r c Hk) as (b & Hb & ->).
      eexists. split; [exact Hb|]. apply file_cell_flags.
Qed.

(** A file of three lines: 12 bricks, then 3, one of them special, then 2
    special ones. *)
Lemma level_file_witness :
  bricks_remaining (game_state (reset_level 1 file_world)) = 17%Z /\
  (exists b, bricks (reset_level 1 file_world) !! brick_index 1 1 = Some b /\
             is_alive b = true /\ special b = true).
Proof.
  destruct (level_file_layout 1 file_world ["############"; "#A#"; "..xx..AA...."]%string)
    as (Hcells & Hrem & _).
  - reflexivity.
  - reflexivity.
  - split.
    + rewrite Hrem. vm_compute. reflexivity.
    + destruct (Hcells 1%nat 1%nat) as (b & Hb & _ & Ha & Hs & _).
      * unfold BRICK_ROWS. lia.
      * unfold BRICK_COLUMNS. lia.
      * exists b. split; [exact Hb|]. split; [exact Ha|exact Hs].
Defined.

(** X19.  Without a level file, every level of the game gets bricks: the
    procedural layout of a level from 1 to [MAX_LEVELS] leaves between 42
    and 84 live bricks, all 84 on level 1, so that a level is never cleared
    by its own reset. *)
Theorem fallback_levels_have_bricks :
  forall (lvl : Z) (w : World),
    (1 <= lvl <= MAX_LEVELS)%Z ->
    level_txt (disk w) lvl = None -> length (bricks w) = BRICK_COUNT ->
    (42 <= bricks_remaining (game_state (reset_level lvl w)) <= 84)%Z /\
    (lvl = 1%Z -> bricks_remaining (game_state (reset_level lvl w)) = 84%Z) /\
    bricks_remaining (game_state (reset_level lvl w)) = count_alive (bricks (reset_level lvl w)).
Proof.
  intros lvl w Hlvl Hfile Hlen.
  destruct (reset_level_spec lvl w Hlen) as (_ & _ & Hg & _).
  destruct (reset_level_bricks_absent lvl w Hfile) as [_ Hg'].
  destruct (fallback_layout_spec lvl w Hlen) as (_ & _ & Hcnt & _).
  split; [|split].
  - rewrite Hg', Hcnt. gproj. unfold MAX_LEVELS in Hlvl.
    assert (Hcases : (lvl = 1 \/ lvl = 2 \/ lvl = 3 \/ lvl = 4 \/ lvl = 5 \/ lvl = 6 \/
                      lvl = 7 \/ lvl = 8 \/ lvl = 9 \/ lvl = 10)%Z) by lia.
    repeat (destruct Hcases as [->|Hcases]); try subst lvl; vm_compute; split; discriminate.
  - intros ->. rewrite Hg', Hcnt. gproj. vm_compute. reflexivity.
  - rewrite Hg at 1. reflexivity.
Qed.

Lemma fallback_levels_witness :
  (42 <= bricks_remaining (game_state (reset_level 7 plain_world)) <= 84)%Z.
Proof.
  apply (fallback_levels_have_bricks 7 plain_world).
  - unfold MAX_LEVELS. lia.
  - reflexivity.
  - reflexivity.
Defined.

(** ** The files of the scores *)

Lemma load_leaderboard_closed (w : World) :
  length (leaderboard w) = LEADERBOARD_N ->
  leaderboard (load_leaderboard w) =
    take LEADERBOARD_N (default [] (leaderboard_dat (disk w)) ++ replicate LEADERBOARD_N 0%Z).
Proof.
  intros Hlen. unfold load_leaderboard, zero_from, LEADERBOARD_N in *.
  destruct (leaderboard w) as [|a0 [|a1 [|a2 [|a3 [|a4 [|a5 l]]]]]]; try discriminate.
  destruct (leaderboard_dat (disk w)) as [file|]; [|reflexivity].
  destruct file as [|x0 [|x1 [|x2 [|x3 [|x4 [|x5 rest]]]]]]; reflexivity.
Qed.

(** X20.  The leaderboard and the high score survive a restart of the
    program: when the files can be written, what [load_leaderboard] and
    [load_highscore] read back, into whatever the globals hold, is what
    [save_leaderboard] and [save_highscore] wrote.  A missing leaderboard
    file gives five zeros, a short one is filled up with zeros, and a missing
    high score file gives 0. *)
Theorem scores_round_trip :
  forall w w' : World,
    length (leaderboard w) = LEADERBOARD_N -> length (leaderboard w') = LEADERBOARD_N ->
    (writable (disk w) = true ->
     disk w' = disk (save_leaderboard w) ->
     leaderboard (load_leaderboard w') = leaderboard w) /\
    (writable (disk w) = true ->
     disk w' = disk (save_highscore w) ->
     high_score (load_highscore w') = high_score w) /\
    leaderboard (load_leaderboard w') =
      take LEADERBOARD_N (default [] (leaderboard_dat (disk w')) ++ replicate LEADERBOARD_N 0%Z) /\
    high_score (load_highscore w') = default 0%Z (highscore_dat (disk w')).
Proof.
  intros w w' Hlen Hlen'. split; [|split; [|split]].
  - intros Hw Hd. rewrite (load_leaderboard_closed w' Hlen'), Hd.
    unfold save_leaderboard. rewrite Hw. wproj. cbn [leaderboard_dat default].
    unfold Datatypes.id, LEADERBOARD_N in *. rewrite take_app_le by lia. apply take_ge. lia.
  - intros Hw Hd. unfold load_highscore. rewrite Hd.
    unfold save_highscore. rewrite Hw. wproj. reflexivity.
  - apply load_leaderboard_closed. exact Hlen'.
  - unfold load_highscore. destruct (highscore_dat (disk w')); reflexivity.
Qed.

Lemma scores_round_trip_witness :
  leaderboard (load_leaderboard (set_disk (disk (save_leaderboard ranked_world)) plain_world))
  = [500; 400; 300; 200; 100]%Z.
Proof.
  destruct (scores_round_trip ranked_world
              (set_disk (disk (save_leaderboard ranked_world)) plain_world))
    as (H & _).
  - reflexivity.
  - reflexivity.
  - apply H; reflexivity.
Defined.

(** ** Collectibles *)

(** X21.  A new collectible takes the first free slot of the array and no
    other: the array keeps its length; when every slot is in use nothing is
    spawned; otherwise the first slot that is not alive, and only that one,
    is overwritten with a live collectible, 20 by 20, centred on the given
    point and falling at 60 per second. *)
Theorem spawn_collectible_first_free :
  forall (cx cy : R) (cs : list Collectible),
    length (spawn_collectible cx cy cs) = length cs /\
    ((forall c, In c cs -> col_alive c = true) -> spawn_collectible cx cy cs = cs) /\
    (forall (i : nat) (c : Collectible),
       cs !! i = Some c -> col_alive c = false ->
       (forall j c', (j < i)%nat -> cs !! j = Some c' -> col_alive c' = true) ->
       spawn_collectible cx cy cs =
         <[i := mkCollectible (mkRectF (cx - 10) (cy - 10) 20 20) 0 60 true 0]> cs).
Proof.
  intros cx cy cs. induction cs as [|a cs (IH1 & IH2 & IH3)]; cbn [spawn_collectible].
  - split; [reflexivity|]. split; [reflexivity|]. intros i c Hi. discriminate.
  - destruct (col_alive a) eqn:Ha; cbn [negb].
    + split; [cbn; rewrite IH1; reflexivity|]. split.
      * intros Hall. f_equal. apply IH2. intros c Hc. apply Hall. right. exact Hc.
      * intros [|i] c Hi Hc Hprev.
        -- injection Hi as ->. congruence.
        -- cbn. f_equal. apply (IH3 i c Hi Hc).
           intros j c' Hj Hj'. apply (Hprev (S j) c'); [lia|exact Hj'].
    + split; [reflexivity|]. split.
      * intros Hall. specialize (Hall a (or_introl eq_refl)). congruence.
      * intros [|i] c Hi Hc Hprev; [reflexivity|].
        specialize (Hprev 0%nat a ltac:(lia) eq_refl). congruence.
Qed.

End FullFiles.

(** * [arkanoid.c]: the ball, the paddle and the scores of the Win32 variant *)

Section Win32Game.

Import Win32.

Ltac w32proj :=
  cbn [ball paddle bricks state rand_stream highscore_txt set_ball set_bricks set_state
       set_paddle x y dx dy radius active set_dx set_dy score lives level paused game_over
       victory paddle_x paddle_y width height].

(** The brick loop changes the score only. *)
Lemma hit_cell_state (row : nat) (b : Ball) (g : GameState) (k : Brick) :
  lives (hit_cell row (b, g) k).1.2 = lives g /\ level (hit_cell row (b, g) k).1.2 = level g /\
  game_over (hit_cell row (b, g) k).1.2 = game_over g /\
  victory (hit_cell row (b, g) k).1.2 = victory g.
Proof.
  unfold hit_cell. destruct (brick_active k); cbn [negb]; [|auto].
  destruct (ball_touches b k); [|auto]. case_if; cbn; auto.
Qed.

Lemma hit_row_state (row : nat) (ks : list Brick) :
  forall (b : Ball) (g : GameState),
    lives (hit_row row (b, g) ks).1.2 = lives g /\ level (hit_row row (b, g) ks).1.2 = level g /\
    game_over (hit_row row (b, g) ks).1.2 = game_over g /\
    victory (hit_row row (b, g) ks).1.2 = victory g.
Proof.
  induction ks as [|k ks IH]; intros b g; cbn [hit_row]; [auto|].
  pose proof (hit_cell_state row b g k) as Hc.
  destruct (hit_cell row (b, g) k) as [[b1 g1] k1]. cbn [fst snd] in Hc.
  specialize (IH b1 g1).
  destruct (hit_row row (b1, g1) ks) as [[b2 g2] ks2]. cbn [fst snd] in *.
  destruct Hc as (<- & <- & <- & <-). exact IH.
Qed.

Lemma hit_rows_state (rows : list (list Brick)) :
  forall (row : nat) (b : Ball) (g : GameState),
    lives (hit_rows row (b, g) rows).1.2 = lives g /\
    level (hit_rows row (b, g) rows).1.2 = level g /\
    game_over (hit_rows row (b, g) rows).1.2 = game_over g /\
    victory (hit_rows row (b, g) rows).1.2 = victory g.
Proof.
  induction rows as [|ks rows IH]; intros row b g; cbn [hit_rows]; [auto|].
  pose proof (hit_row_state row ks b g) as Hc.
  destruct (hit_row row (b, g) ks) as [[b1 g1] ks1]. cbn [fst snd] in Hc.
  specialize (IH (S row) b1 g1).
  destruct (hit_rows (S row) (b1, g1) rows) as [[b2 g2] rows2]. cbn [fst snd] in *.
  destruct Hc as (<- & <- & <- & <-). exact IH.
Qed.

(** The step of [update_ball] when the session is on and the ball is not
    past the floor. *)
Lemma update_ball_in_play (w : World) :
  win32_playing (state w) ->
  Rleb (IZR WINDOW_HEIGHT) (y (win32_ball_moved w) - IZR (radius (win32_ball_moved w))) = false ->
  update_ball w =
    let w1 := brick_collisions (set_ball (win32_ball_at_bricks w) (set_ball (win32_ball_moved w) w)) in
    if all_destroyed (bricks w1)
    then
      let g := state w1 in
      let g := mkGameState (score g) (lives g) (wrap32 (level g + 1))
                           (paused g) (game_over g) (victory g) in
      if (level g >? MAX_LEVELS)%Z
      then set_state (mkGameState (score g) (lives g) (level g) (paused g) (game_over g) true) w1
      else init_ball (set_bricks init_bricks (set_state g w1))
    else w1.
Proof.
  intros (Hp & Ho & Hv) Hfloor.
  assert (Hflags : paused (state w) || game_over (state w) || victory (state w) = false)
    by (rewrite Hp, Ho, Hv; reflexivity).
  unfold update_ball. rewrite Hflags.
  fold (win32_ball_moved w). cbv zeta. rewrite Hfloor. reflexivity.
Qed.

Lemma update_ball_floor (w : World) :
  win32_playing (state w) ->
  IZR WINDOW_HEIGHT <= y (win32_ball_moved w) - IZR (radius (win32_ball_moved w)) ->
  update_ball w =
    let g := state w in
    let w1 := set_ball (win32_ball_moved w) w in
    let g := mkGameState (score g) (wrap32 (lives g - 1)) (level g)
                         (paused g) (game_over g) (victory g) in
    if (lives g <=? 0)%Z
    then set_state (mkGameState (score g) (lives g) (level g) (paused g) true (victory g)) w1
    else init_ball (set_state g w1).
Proof.
  intros (Hp & Ho & Hv) Hfloor.
  assert (Hflags : paused (state w) || game_over (state w) || victory (state w) = false)
    by (rewrite Hp, Ho, Hv; reflexivity).
  apply Rleb_le in Hfloor.
  unfold update_ball. rewrite Hflags.
  fold (win32_ball_moved w). cbv zeta. rewrite Hfloor. reflexivity.
Qed.


(** Evaluation on closed expressions, as [reval]; here an integer under a
    conversion can depend on a choice that is still open. *)
Ltac w32norm :=
  repeat match goal with
  | |- context [IZR ?z] =>
      no_if z;
      let z' := eval vm_compute in z in
      tryif constr_eq z z' then fail else change (IZR z) with (IZR z')
  end.

Ltac w32eval := w32proj; cbn [andb orb negb]; w32norm;
                repeat (rstep; w32proj; cbn [andb orb negb]; w32norm).

Lemma brick_at_strikes (b : Ball) (rows : list (list Brick)) (row col : nat) :
  brick_at ((fun ks : list Brick => strike b <$> ks) <$> rows) row col =
  strike b <$> brick_at rows row col.
Proof.
  unfold brick_at. rewrite list_lookup_fmap.
  destruct (rows !! row) as [ks|]; [|reflexivity].
  cbn. rewrite list_lookup_fmap. reflexivity.
Qed.

(** X22.  The brick loop of [update_ball] has no early exit: in a step of a
    session that is on, with the ball above the floor, every active brick
    that the ball (as the paddle block leaves it) touches is deactivated in
    that one step, and every brick it does not touch is kept; the bricks
    after the step are exactly these, unless the step deactivated the last
    active brick. *)
Theorem update_ball_strikes_every_touched_brick :
  forall w : World,
    win32_playing (state w) ->
    y (win32_ball_moved w) - IZR (radius (win32_ball_moved w)) < IZR WINDOW_HEIGHT ->
    all_destroyed
      ((fun ks : list Brick => strike (win32_ball_at_bricks w) <$> ks) <$> bricks w) = false ->
    bricks (update_ball w) =
      (fun ks : list Brick => strike (win32_ball_at_bricks w) <$> ks) <$> bricks w /\
    (forall row col k,
       brick_at (bricks w) row col = Some k ->
       brick_active k = true -> ball_touches (win32_ball_at_bricks w) k = true ->
       exists k', brick_at (bricks (update_ball w)) row col = Some k' /\
                  brick_active k' = false) /\
    (forall row col k,
       brick_at (bricks w) row col = Some k ->
       ball_touches (win32_ball_at_bricks w) k = false ->
       brick_at (bricks (update_ball w)) row col = Some k).
Proof.
  intros w Hplay Hfloor Hleft.
  apply Rleb_gt in Hfloor.
  rewrite (update_ball_in_play w Hplay Hfloor). cbv zeta.
  pose proof (brick_collisions_strikes
                (set_ball (win32_ball_at_bricks w) (set_ball (win32_ball_moved w) w))) as Hs.
  revert Hs. w32proj.
  set (w1 := brick_collisions _). intros Hs. rewrite Hs, Hleft, Hs.
  split; [reflexivity|]. split.
  - intros row col k Hk Ha Ht. rewrite brick_at_strikes, Hk. cbn.
    unfold strike. rewrite Ha, Ht. cbn. eexists. split; reflexivity.
  - intros row col k Hk Ht. rewrite brick_at_strikes, Hk. cbn.
    unfold strike. rewrite Ht, andb_false_r. reflexivity.
Qed.

Lemma win32_seam_ball :
  win32_ball_moved win32_seam_world = mkBall (135 / 2 + 0) (156 + -6) 0 (-6) 7 true /\
  win32_ball_at_bricks win32_seam_world = mkBall (135 / 2 + 0) (156 + -6) 0 (-6) 7 true.
Proof.
  assert (H : win32_ball_moved win32_seam_world = mkBall (135 / 2 + 0) (156 + -6) 0 (-6) 7 true).
  { unfold win32_ball_moved, win32_seam_world. w32eval. reflexivity. }
  split; [exact H|].
  unfold win32_ball_at_bricks. rewrite H. unfold win32_seam_world. w32eval. reflexivity.
Qed.

Lemma win32_seam_touches :
  ball_touches (mkBall (135 / 2 + 0) (156 + -6) 0 (-6) 7 true) (init_brick 3 0) = true /\
  ball_touches (mkBall (135 / 2 + 0) (156 + -6) 0 (-6) 7 true) (init_brick 3 1) = true /\
  ball_touches (mkBall (135 / 2 + 0) (156 + -6) 0 (-6) 7 true) (init_brick 0 0) = false.
Proof.
  unfold ball_touches, init_brick. cbn [brick_x brick_y brick_width brick_height].
  repeat split; w32eval; reflexivity.
Qed.

Lemma win32_seam_left :
  all_destroyed
    ((fun ks : list Brick => strike (win32_ball_at_bricks win32_seam_world) <$> ks)
       <$> bricks win32_seam_world) = false.
Proof.
  destruct win32_seam_ball as [_ ->]. destruct win32_seam_touches as (_ & _ & H0).
  apply (all_destroyed_false _ 0 0 (strike (mkBall (135 / 2 + 0) (156 + -6) 0 (-6) 7 true)
                                      <$> (map (init_brick 0) (seq 0 BRICK_COLS)))
           (init_brick 0 0)).
  - reflexivity.
  - cbn [seq BRICK_COLS map fmap list_fmap lookup list_lookup].
    unfold strike at 1. rewrite H0, andb_false_r. reflexivity.
  - reflexivity.
Qed.

(** One step of a ball that flies up into the seam between the first two
    bricks of the lowest row deactivates both. *)
Lemma win32_seam_witness :
  (exists k, brick_at (bricks (update_ball win32_seam_world)) 3 0 = Some k /\
             brick_active k = false) /\
  (exists k, brick_at (bricks (update_ball win32_seam_world)) 3 1 = Some k /\
             brick_active k = false).
Proof.
  destruct (update_ball_strikes_every_touched_brick win32_seam_world) as (_ & Hhit & _).
  - repeat split; reflexivity.
  - destruct win32_seam_ball as [-> _]. w32proj. unfold WINDOW_HEIGHT. lra.
  - apply win32_seam_left.
  - destruct win32_seam_ball as [_ Hb]. destruct win32_seam_touches as (H0 & H1 & _).
    split.
    + apply (Hhit 3%nat 0%nat (init_brick 3 0)); [reflexivity|reflexivity|].
      rewrite Hb. exact H0.
    + apply (Hhit 3%nat 1%nat (init_brick 3 1)); [reflexivity|reflexivity|].
      rewrite Hb. exact H1.
Defined.


(** ** The paddle *)

Lemma wrap32_small (z : Z) : (-100 <= z <= 2000)%Z -> wrap32 z = z.
Proof. intros Hz. apply wrap32_id. unfold in_int, INT_MIN, INT_MAX. lia. Qed.

Lemma move_paddle_left_spec (p : Paddle) :
  (0 <= width p <= WINDOW_WIDTH)%Z -> win32_paddle_in_window p ->
  move_paddle_left p =
    mkPaddle (Z.max 0 (paddle_x p - PADDLE_SPEED)) (paddle_y p) (width p) (height p).
Proof.
  unfold win32_paddle_in_window, move_paddle_left, WINDOW_WIDTH, PADDLE_SPEED.
  intros Hw Hin. rewrite wrap32_small by lia.
  destruct (Z.ltb_spec (paddle_x p - 12) 0); f_equal; lia.
Qed.

Lemma move_paddle_right_spec (p : Paddle) :
  (0 <= width p <= WINDOW_WIDTH)%Z -> win32_paddle_in_window p ->
  move_paddle_right p =
    mkPaddle (Z.min (paddle_x p + PADDLE_SPEED) (WINDOW_WIDTH - width p))
             (paddle_y p) (width p) (height p).
Proof.
  unfold win32_paddle_in_window, move_paddle_right, WINDOW_WIDTH, PADDLE_SPEED.
  intros Hw Hin. rewrite !wrap32_small by (rewrite ?wrap32_small by lia; lia).
  destruct (Z.gtb_spec (paddle_x p + 12 + width p) 800); f_equal; lia.
Qed.

Lemma handle_paddle_input_window (left right : bool) (w : World) :
  (0 <= width (paddle w) <= WINDOW_WIDTH)%Z ->
  win32_paddle_in_window (paddle w) ->
  win32_paddle_in_window (paddle (handle_paddle_input left right w)) /\
  width (paddle (handle_paddle_input left right w)) = width (paddle w) /\
  height (paddle (handle_paddle_input left right w)) = height (paddle w) /\
  paddle_y (paddle (handle_paddle_input left right w)) = paddle_y (paddle w) /\
  (Z.abs (paddle_x (paddle (handle_paddle_input left right w)) - paddle_x (paddle w))
   <= PADDLE_SPEED)%Z.
Proof.
  intros Hw Hin. unfold handle_paddle_input.
  destruct (paused (state w) || game_over (state w) || victory (state w)).
  { unfold PADDLE_SPEED. repeat split; try reflexivity; try apply Hin. lia. }
  w32proj.
  assert (Hl : win32_paddle_in_window (move_paddle_left (paddle w)) /\
               width (move_paddle_left (paddle w)) = width (paddle w)).
  { rewrite (move_paddle_left_spec _ Hw Hin).
    unfold win32_paddle_in_window, WINDOW_WIDTH, PADDLE_SPEED in *. w32proj. lia. }
  destruct Hl as [Hl1 Hl2].
  destruct left, right.
  - rewrite move_paddle_right_spec by (rewrite ?Hl2; assumption).
    rewrite (move_paddle_left_spec _ Hw Hin).
    unfold win32_paddle_in_window, WINDOW_WIDTH, PADDLE_SPEED in *. w32proj.
    repeat split; try reflexivity; lia.
  - rewrite (move_paddle_left_spec _ Hw Hin).
    unfold win32_paddle_in_window, WINDOW_WIDTH, PADDLE_SPEED in *. w32proj.
    repeat split; try reflexivity; lia.
  - rewrite (move_paddle_right_spec _ Hw Hin).
    unfold win32_paddle_in_window, WINDOW_WIDTH, PADDLE_SPEED in *. w32proj.
    repeat split; try reflexivity; lia.
  - unfold win32_paddle_in_window, WINDOW_WIDTH, PADDLE_SPEED in *.
    repeat split; try reflexivity; lia.
Qed.

Lemma brick_collisions_paddle (w : World) : paddle (brick_collisions w) = paddle w.
Proof.
  unfold brick_collisions.
  destruct (hit_rows 0 (ball w, state w) (bricks w)) as [[b g] rows]. reflexivity.
Qed.

(** [update_ball] never writes the paddle. *)
Lemma update_ball_paddle (w : World) : paddle (update_ball w) = paddle w.
Proof.
  destruct (paused (state w) || game_over (state w) || victory (state w)) eqn:Hflags.
  { unfold update_ball. rewrite Hflags. reflexivity. }
  assert (Hplay : win32_playing (state w)).
  { unfold win32_playing.
    destruct (paused (state w)), (game_over (state w)), (victory (state w));
      try discriminate; auto. }
  destruct (Rleb (IZR WINDOW_HEIGHT)
              (y (win32_ball_moved w) - IZR (radius (win32_ball_moved w)))) eqn:Hfloor.
  - apply Rleb_le in Hfloor. rewrite (update_ball_floor w Hplay Hfloor). cbv zeta.
    case_if; unfold init_ball; reflexivity.
  - rewrite (update_ball_in_play w Hplay Hfloor). cbv zeta.
    pose proof (brick_collisions_paddle
                  (set_ball (win32_ball_at_bricks w) (set_ball (win32_ball_moved w) w))) as Hp.
    set (w1 := brick_collisions _) in *.
    repeat case_if; unfold init_ball; w32proj; exact Hp.
Qed.

Lemma frame_paddle (w : World) : paddle (frame w) = paddle w.
Proof.
  unfold frame, save_score. repeat case_if; w32proj; apply update_ball_paddle.
Qed.

Lemma key_down_window (k : Key) (w : World) :
  (0 <= width (paddle w) <= WINDOW_WIDTH)%Z /\ win32_paddle_in_window (paddle w) ->
  (0 <= width (paddle (key_down k w)) <= WINDOW_WIDTH)%Z /\
  win32_paddle_in_window (paddle (key_down k w)).
Proof.
  intros H. unfold key_down. destruct k; try exact H.
  - case_if; exact H.
  - case_if; exact H.
  - case_if; [|exact H]. unfold init_ball, win32_paddle_in_window. w32proj.
    vm_compute. repeat split; discriminate.
Qed.

(** X23.  The keys move the paddle by at most [PADDLE_SPEED] and never out
    of the window: a paddle that is not wider than the window and lies
    inside it stays inside it, whatever keys are held, with the size and the
    height it had; and it is inside the window after a whole turn of the
    loop of [WinMain], whatever keys the turn sees, a restart included. *)
Theorem win32_paddle_stays_in_window :
  forall (ks : list Key) (left right : bool) (w : World),
    (0 <= width (paddle w) <= WINDOW_WIDTH)%Z ->
    win32_paddle_in_window (paddle w) ->
    (win32_paddle_in_window (paddle (handle_paddle_input left right w)) /\
     width (paddle (handle_paddle_input left right w)) = width (paddle w) /\
     height (paddle (handle_paddle_input left right w)) = height (paddle w) /\
     paddle_y (paddle (handle_paddle_input left right w)) = paddle_y (paddle w) /\
     (Z.abs (paddle_x (paddle (handle_paddle_input left right w)) - paddle_x (paddle w))
      <= PADDLE_SPEED)%Z) /\
    (0 <= width (paddle (game_frame ks left right w)) <= WINDOW_WIDTH)%Z /\
    win32_paddle_in_window (paddle (game_frame ks left right w)).
Proof.
  intros ks left right w Hw Hin.
  split; [apply handle_paddle_input_window; assumption|].
  unfold game_frame. rewrite frame_paddle.
  assert (Hk : (0 <= width (paddle (foldl (fun w k => key_down k w) w ks)) <= WINDOW_WIDTH)%Z /\
               win32_paddle_in_window (paddle (foldl (fun w k => key_down k w) w ks))).
  { apply (foldl_invariant
             (fun w' => (0 <= width (paddle w') <= WINDOW_WIDTH)%Z /\
                        win32_paddle_in_window (paddle w'))); [auto|].
    intros w' k Hw'. apply key_down_window. exact Hw'. }
  destruct Hk as [Hk1 Hk2].
  destruct (handle_paddle_input_window left right _ Hk1 Hk2) as (H1 & H2 & _).
  rewrite H2. auto.
Qed.

Lemma win32_paddle_witness :
  win32_paddle_in_window
    (paddle (game_frame [VK_SPACE; VK_R] false true (win32_boot (fun _ => 0%Z)))).
Proof.
  apply (win32_paddle_stays_in_window [VK_SPACE; VK_R] false true (win32_boot (fun _ => 0%Z))).
  - unfold win32_boot, init_ball. w32proj. vm_compute. split; discriminate.
  - unfold win32_paddle_in_window, win32_boot, init_ball. w32proj.
    vm_compute. split; discriminate.
Defined.

(** ** The ball *)




(** X25.  A ball that passes the floor costs one life and nothing else of
    the score, the level, the bricks and the paddle; the step ends there,
    before the paddle and the bricks are looked at.  With the last life the
    game is over and the ball stays where it is; otherwise the ball is
    served again from the middle of the window. *)
Theorem win32_floor_costs_a_life :
  forall w : World,
    win32_playing (state w) ->
    IZR WINDOW_HEIGHT <= y (win32_ball_moved w) - IZR (radius (win32_ball_moved w)) ->
    (INT_MIN < lives (state w) <= INT_MAX)%Z ->
    lives (state (update_ball w)) = (lives (state w) - 1)%Z /\
    score (state (update_ball w)) = score (state w) /\
    level (state (update_ball w)) = level (state w) /\
    victory (state (update_ball w)) = false /\
    bricks (update_ball w) = bricks w /\
    paddle (update_ball w) = paddle w /\
    highscore_txt (update_ball w) = highscore_txt w /\
    ((lives (state w) <= 1)%Z ->
     game_over (state (update_ball w)) = true /\ ball (update_ball w) = win32_ball_moved w) /\
    ((1 < lives (state w))%Z ->
     game_over (state (update_ball w)) = false /\
     x (ball (update_ball w)) = 400 /\ y (ball (update_ball w)) = 300).
Proof.
  intros w Hplay Hfloor Hlives.
  rewrite (update_ball_floor w Hplay Hfloor). destruct Hplay as (Hp & Ho & Hv).
  cbv zeta. w32proj.
  assert (Hw : wrap32 (lives (state w) - 1) = (lives (state w) - 1)%Z).
  { apply wrap32_id. unfold in_int, INT_MIN, INT_MAX in *. lia. }
  rewrite Hw.
  destruct (Z.leb_spec (lives (state w) - 1) 0) as [Hle|Hgt].
  - w32proj. repeat (split; [first [reflexivity | assumption]|]).
    split; [intros _; split; reflexivity | intros H; lia].
  - unfold init_ball. w32proj. repeat (split; [first [reflexivity | assumption]|]).
    split; [intros H; lia|]. intros _. split; [exact Ho|]. split; reflexivity.
Qed.

Lemma win32_falling_moved (n : Z) :
  win32_ball_moved (win32_falling_world n) = mkBall (200 + 0) (604 + 6) 0 6 7 true.
Proof. unfold win32_ball_moved, win32_falling_world. w32eval. reflexivity. Qed.

(** The ball lost with three lives, and with the last one. *)
Lemma win32_floor_witness :
  lives (state (update_ball (win32_falling_world 3))) = 2%Z /\
  game_over (state (update_ball (win32_falling_world 3))) = false /\
  game_over (state (update_ball (win32_falling_world 1))) = true.
Proof.
  destruct (win32_floor_costs_a_life (win32_falling_world 3))
    as (Hl & _ & _ & _ & _ & _ & _ & _ & Hmore).
  - repeat split; reflexivity.
  - rewrite win32_falling_moved. w32proj. unfold WINDOW_HEIGHT. lra.
  - cbn. unfold INT_MIN, INT_MAX. lia.
  - destruct (win32_floor_costs_a_life (win32_falling_world 1))
      as (_ & _ & _ & _ & _ & _ & _ & Hlast & _).
    + repeat split; reflexivity.
    + rewrite win32_falling_moved. w32proj. unfold WINDOW_HEIGHT. lra.
    + cbn. unfold INT_MIN, INT_MAX. lia.
    + split; [exact Hl|]. split; [apply Hmore; cbn; lia | apply Hlast; cbn; lia].
Defined.

(** ** The paddle block *)





(** ** The end of a level *)

Lemma update_ball_cleared (w : World) :
  win32_playing (state w) ->
  y (win32_ball_moved w) - IZR (radius (win32_ball_moved w)) < IZR WINDOW_HEIGHT ->
  all_destroyed
    ((fun ks : list Brick => strike (win32_ball_at_bricks w) <$> ks) <$> bricks w) = true ->
  exists w1 : World,
    bricks w1 = (fun ks : list Brick => strike (win32_ball_at_bricks w) <$> ks) <$> bricks w /\
    lives (state w1) = lives (state w) /\ level (state w1) = level (state w) /\
    game_over (state w1) = false /\ victory (state w1) = false /\
    highscore_txt w1 = highscore_txt w /\ paddle w1 = paddle w /\
    update_ball w =
      (if (wrap32 (level (state w1) + 1) >? MAX_LEVELS)%Z
       then set_state (mkGameState (score (state w1)) (lives (state w1))
                                   (wrap32 (level (state w1) + 1)) (paused (state w1))
                                   (game_over (state w1)) true) w1
       else init_ball
              (set_bricks init_bricks
                 (set_state (mkGameState (score (state w1)) (lives (state w1))
                                         (wrap32 (level (state w1) + 1)) (paused (state w1))
                                         (game_over (state w1)) (victory (state w1))) w1))).
Proof.
  intros Hplay Hfloor Hall. apply Rleb_gt in Hfloor.
  rewrite (update_ball_in_play w Hplay Hfloor). cbv zeta.
  set (w0 := set_ball (win32_ball_at_bricks w) (set_ball (win32_ball_moved w) w)).
  pose proof (brick_collisions_strikes w0) as Hs. unfold w0 in Hs at 2 3. revert Hs. w32proj.
  intros Hs. rewrite Hs, Hall. w32proj.
  exists (brick_collisions w0). split; [exact Hs|].
  assert (Hrest : lives (state (brick_collisions w0)) = lives (state w) /\
                  level (state (brick_collisions w0)) = level (state w) /\
                  game_over (state (brick_collisions w0)) = game_over (state w) /\
                  victory (state (brick_collisions w0)) = victory (state w) /\
                  highscore_txt (brick_collisions w0) = highscore_txt w /\
                  paddle (brick_collisions w0) = paddle w).
  { unfold brick_collisions.
    pose proof (hit_rows_state (bricks w0) 0 (ball w0) (state w0)) as Hst.
    destruct (hit_rows 0 (ball w0, state w0) (bricks w0)) as [[b g] rows].
    cbn [fst snd] in Hst. w32proj. unfold w0 in Hst. revert Hst. w32proj. tauto. }
  destruct Hrest as (H1 & H2 & H3 & H3' & H4 & H5). destruct Hplay as (_ & Ho & Hv).
  rewrite Ho in H3. rewrite Hv in H3'.
  repeat (split; [assumption|]). reflexivity.
Qed.

(** X27.  The step that deactivates the last active brick: the level
    counter goes up by one; below the last level the wall is built again and
    the ball served from the middle of the window; on the last level the
    game is won ([victory]) and the wall stays empty.  The lives are kept. *)
Theorem win32_clearing_the_wall :
  forall w : World,
    win32_playing (state w) ->
    y (win32_ball_moved w) - IZR (radius (win32_ball_moved w)) < IZR WINDOW_HEIGHT ->
    all_destroyed
      ((fun ks : list Brick => strike (win32_ball_at_bricks w) <$> ks) <$> bricks w) = true ->
    (1 <= level (state w) <= MAX_LEVELS)%Z ->
    level (state (update_ball w)) = (level (state w) + 1)%Z /\
    lives (state (update_ball w)) = lives (state w) /\
    game_over (state (update_ball w)) = false /\
    ((level (state w) < MAX_LEVELS)%Z ->
     victory (state (update_ball w)) = false /\
     bricks (update_ball w) = init_bricks /\
     x (ball (update_ball w)) = 400 /\ y (ball (update_ball w)) = 300) /\
    (level (state w) = MAX_LEVELS ->
     victory (state (update_ball w)) = true /\
     bricks (update_ball w) =
       (fun ks : list Brick => strike (win32_ball_at_bricks w) <$> ks) <$> bricks w).
Proof.
  intros w Hplay Hfloor Hall Hlvl.
  destruct (update_ball_cleared w Hplay Hfloor Hall)
    as (w1 & Hb & Hl & Hv & Ho & Hvic & _ & _ & ->).
  assert (Hw : wrap32 (level (state w1) + 1) = (level (state w) + 1)%Z).
  { rewrite Hv. apply wrap32_id. unfold in_int, INT_MIN, INT_MAX, MAX_LEVELS in *. lia. }
  rewrite Hw.
  destruct (Z.gtb_spec (level (state w) + 1) MAX_LEVELS) as [Hgt|Hle].
  - w32proj. rewrite Hl, Ho, Hb.
    repeat (split; [reflexivity|]). split; [intros H; lia|]. intros _. split; reflexivity.
  - unfold init_ball. w32proj. rewrite Hl, Ho.
    repeat (split; [reflexivity|]). split; [|intros H; lia].
    intros _. split; [exact Hvic|]. repeat split; reflexivity.
Qed.

Lemma win32_last_brick_ball (lvl : Z) :
  win32_ball_moved (win32_last_brick_world lvl) = mkBall (40 + 0) (156 + -6) 0 (-6) 7 true /\
  win32_ball_at_bricks (win32_last_brick_world lvl) = mkBall (40 + 0) (156 + -6) 0 (-6) 7 true.
Proof.
  assert (H : win32_ball_moved (win32_last_brick_world lvl)
              = mkBall (40 + 0) (156 + -6) 0 (-6) 7 true).
  { unfold win32_ball_moved, win32_last_brick_world. w32eval. reflexivity. }
  split; [exact H|].
  unfold win32_ball_at_bricks. rewrite H. unfold win32_last_brick_world. w32eval. reflexivity.
Qed.

Lemma init_bricks_size (ks : list Brick) (k : Brick) :
  In ks init_bricks -> In k ks -> brick_width k = BRICK_WIDTH /\ brick_height k = BRICK_HEIGHT.
Proof.
  unfold init_bricks. intros Hks Hk.
  apply in_map_iff in Hks as (row & <- & _).
  apply in_map_iff in Hk as (col & <- & _). split; reflexivity.
Qed.

Lemma win32_last_brick_cleared (lvl : Z) :
  all_destroyed
    ((fun ks : list Brick => strike (win32_ball_at_bricks (win32_last_brick_world lvl)) <$> ks)
       <$> bricks (win32_last_brick_world lvl)) = true.
Proof.
  destruct (win32_last_brick_ball lvl) as [_ ->].
  unfold all_destroyed. apply forallb_forall. intros ks Hks. apply forallb_forall. intros k Hk.
  apply list_elem_of_In, list_elem_of_fmap in Hks as (ks1 & -> & Hks1).
  apply list_elem_of_In, list_elem_of_fmap in Hk as (k1 & -> & Hk1).
  unfold win32_last_brick_world in Hks1. cbn [bricks] in Hks1.
  apply list_elem_of_fmap in Hks1 as (ks0 & -> & Hks0).
  apply list_elem_of_fmap in Hk1 as (k0 & -> & Hk0).
  apply list_elem_of_In in Hks0, Hk0.
  destruct (init_bricks_size ks0 k0 Hks0 Hk0) as [Hw Hh].
  unfold strike. cbn [brick_active].
  destruct ((brick_x k0 =? 15)%Z && (brick_y k0 =? 125)%Z) eqn:E; [|reflexivity].
  apply andb_true_iff in E as [Ex Ey]. apply Z.eqb_eq in Ex, Ey.
  unfold ball_touches. cbn [brick_x brick_y brick_width brick_height andb].
  rewrite Ex, Ey, Hw, Hh. unfold BRICK_WIDTH, BRICK_HEIGHT. w32eval. reflexivity.
Qed.

(** The last brick of level 1 and the last brick of the game. *)
Lemma win32_clearing_witness :
  bricks (update_ball (win32_last_brick_world 1)) = init_bricks /\
  level (state (update_ball (win32_last_brick_world 1))) = 2%Z /\
  victory (state (update_ball (win32_last_brick_world 3))) = true.
Proof.
  destruct (win32_clearing_the_wall (win32_last_brick_world 1)) as (Hl & _ & _ & Hnext & _).
  - repeat split; reflexivity.
  - destruct (win32_last_brick_ball 1) as [-> _]. w32proj. unfold WINDOW_HEIGHT. lra.
  - apply win32_last_brick_cleared.
  - cbn. unfold MAX_LEVELS. lia.
  - destruct (win32_clearing_the_wall (win32_last_brick_world 3)) as (_ & _ & _ & _ & Hwon).
    + repeat split; reflexivity.
    + destruct (win32_last_brick_ball 3) as [-> _]. w32proj. unfold WINDOW_HEIGHT. lra.
    + apply win32_last_brick_cleared.
    + cbn. unfold MAX_LEVELS. lia.
    + split; [apply Hnext; cbn; unfold MAX_LEVELS; lia|].
      split; [exact Hl|]. apply Hwon. reflexivity.
Defined.

(** ** The scores *)






End Win32Game.

(** * The modular variant: what a brick is worth *)

Section ModularStep.

Import Modular.


Ltac gproj :=
  cbn [score lives level bricks_remaining is_paused is_running show_menu set_score set_lives
       set_level set_bricks_remaining end_session].





End ModularStep.
